(** * Pose tracking pipeline of powersyncmobile: OKS similarity, identity
      tracker, keypoint smoothing and lift-form analysis.

    The functions of [src/app/(app)/vision-ondevice.tsx] and the
    [TrackingManager] of [src/__tests__/performance.benchmark.test.ts] are
    embedded once, over an interface [JSNumber] for the JavaScript [number]
    type.  Two interpretations of the interface are given:

    - [ideal]: exact arithmetic on the reals extended with [NaN] and the two
      infinities (no rounding, no overflow, no signed zero);
    - [binary64]: IEEE 754 double precision, from the standard library's
      [SpecFloat], with the transcendental functions of [Math] as parameters.

    Properties of control flow are proved for every interpretation; the
    algebraic properties of the similarity are proved in exact arithmetic.
    Where double precision departs from exact arithmetic (overflow,
    underflow, rounding), the behaviour of the code is shown on [binary64],
    for every [Math.exp] that follows the language on zeros, infinities and
    [NaN].

    The same file embeds the rest of the pipeline of the screen: the crop
    region ([calculateBoundingBox], [getTorsoBBox], [determineCropRegion]),
    the transform to screen coordinates ([transformKeypointToScreen]), the
    end of [frameProcessor] that builds the skeleton, the two effects that
    consume it, and [analyzePose]. *)

From Stdlib Require Import Reals Lra Lia ZArith QArith_base Qreals.
From Stdlib Require Import List Sorted String Ascii Bool SpecFloat.
Import ListNotations.

Close Scope Q_scope.
Close Scope R_scope.
Set Implicit Arguments.

(** ** The JavaScript [number] interface *)

Declare Scope js_scope.
Delimit Scope js_scope with js.

Class JSNumber (num : Type) := {
  (** a decimal literal of the source, [n # d] standing for [n / d] *)
  lit : Q -> num;
  Infinity : num;
  NaN : num;
  add : num -> num -> num;
  sub : num -> num -> num;
  mul : num -> num -> num;
  div : num -> num -> num;
  neg : num -> num;
  (** [a < b] and [a <= b]; [a > b] is [b < a] and [a >= b] is [b <= a] *)
  lt : num -> num -> bool;
  le : num -> num -> bool;
  isNaN : num -> bool;
  isFinite : num -> bool;
  (** [ToBoolean] of a number: false on [0] and [NaN] *)
  truthy : num -> bool;
  Math_abs : num -> num;
  Math_sqrt : num -> num;
  Math_exp : num -> num;
  Math_max : num -> num -> num;
  Math_min : num -> num -> num;
  Math_atan2 : num -> num -> num;
  (** [x ** 2] and [Math.pow(x, 2)] *)
  pow2 : num -> num;
  Math_PI : num;
  (** the conversion done by a store into a [Float32Array] *)
  Math_fround : num -> num
}.

Definition gt {num} `{JSNumber num} (a b : num) : bool := lt b a.
Definition ge {num} `{JSNumber num} (a b : num) : bool := le b a.
Definition of_nat {num} `{JSNumber num} (n : nat) : num :=
  lit (Z.of_nat n # 1).

Infix "+" := add : js_scope.
Infix "-" := sub : js_scope.
Infix "*" := mul : js_scope.
Infix "/" := div : js_scope.
Notation "- a" := (neg a) : js_scope.
Infix "<" := lt : js_scope.
Infix "<=" := le : js_scope.
Infix ">" := gt : js_scope.
Infix ">=" := ge : js_scope.

(** ** Keypoints and the constants of the pipeline *)

Section Pipeline.
Context {num : Type} `{JSNumber num}.

Record Keypoint := mkKeypoint { kp_x : num; kp_y : num; kp_score : num }.

Definition Pose := list Keypoint.

Definition DETECTION_THRESHOLD : num := lit (3 # 10).
Definition MIN_CONFIDENCE : num := DETECTION_THRESHOLD.
Definition CAMERA_FPS : num := lit (30 # 1).
Definition FRAME_SKIP_INTERVAL : num := lit (2 # 1).
Definition MIN_CUTOFF : num := lit (15 # 100).
Definition BETA : num := lit (7 # 1000).
Definition DERIVATE_CUTOFF : num := lit (1 # 1).
Definition OKS_KEYPOINT_THRESHOLD : num := lit (3 # 10).
Definition OKS_KEYPOINT_FALLOFF : list num :=
  map lit
    [26 # 1000; 25 # 1000; 25 # 1000; 35 # 1000; 35 # 1000; 79 # 1000;
     79 # 1000; 72 # 1000; 72 # 1000; 62 # 1000; 62 # 1000; 107 # 1000;
     107 # 1000; 87 # 1000; 87 # 1000; 89 # 1000; 89 # 1000]%Q.
Definition OKS_MIN_KEYPOINTS : nat := 4.
Definition TRACKING_MIN_SIMILARITY : num := lit (15 # 100).
Definition TRACKING_MAX_AGE : Z := 1000.
Definition TRACKING_MAX_PERSONS : nat := 18.

(** [1e-6], the epsilon of the area computations *)
Definition EPSILON : num := lit (1 # 1000000).

(** ** Bounding-box area, worklet version ([computeKeypointArea]) *)

Record BBox := mkBBox { minX : num; maxX : num; minY : num; maxY : num }.

Definition bbox_init : BBox :=
  mkBBox Infinity (- Infinity)%js Infinity (- Infinity)%js.

(** One iteration of the loop: [validCount] and the box. *)
Definition area_step (st : nat * BBox) (kp : Keypoint) : nat * BBox :=
  let '(validCount, b) := st in
  if (kp_score kp > OKS_KEYPOINT_THRESHOLD)%js then
    (S validCount,
     mkBBox (Math_min (minX b) (kp_x kp)) (Math_max (maxX b) (kp_x kp))
            (Math_min (minY b) (kp_y kp)) (Math_max (maxY b) (kp_y kp)))
  else st.

Definition computeKeypointArea (keypoints : Pose) : num :=
  let '(validCount, b) := fold_left area_step keypoints (0, bbox_init) in
  if Nat.eqb validCount 0 then EPSILON
  else
    let width := Math_max (maxX b - minX b)%js EPSILON in
    let height := Math_max (maxY b - minY b)%js EPSILON in
    (width * height)%js.

(** ** Bounding-box area, JS-thread version ([computeKeypointAreaJS]) *)

Definition areaJS_step (b : BBox) (kp : Keypoint) : BBox :=
  if (kp_score kp >= OKS_KEYPOINT_THRESHOLD)%js then
    let minX' := if (kp_x kp < minX b)%js then kp_x kp else minX b in
    let maxX' := if (kp_x kp > maxX b)%js then kp_x kp else maxX b in
    let minY' := if (kp_y kp < minY b)%js then kp_y kp else minY b in
    let maxY' := if (kp_y kp > maxY b)%js then kp_y kp else maxY b in
    mkBBox minX' maxX' minY' maxY'
  else b.

Definition computeKeypointAreaJS (keypoints : Pose) : num :=
  let b := fold_left areaJS_step keypoints bbox_init in
  if negb (isFinite (minX b)) || negb (isFinite (maxX b))
     || negb (isFinite (minY b)) || negb (isFinite (maxY b))
  then lit (1 # 1)
  else ((maxX b - minX b) * (maxY b - minY b))%js.

(** ** Object keypoint similarity *)

(** [OKS_KEYPOINT_FALLOFF[i] || 0.089] *)
Definition falloff (i : nat) : num :=
  match nth_error OKS_KEYPOINT_FALLOFF i with
  | Some s => if truthy s then s else lit (89 # 1000)
  | None => lit (89 # 1000)
  end.

(** One iteration of the similarity loop at index [i]; the state is
    [(oksSum, validKeypointCount)]. *)
Definition oks_step (area : num) (st : num * nat) (i : nat)
    (kp1 kp2 : Keypoint) : num * nat :=
  let '(oksSum, validKeypointCount) := st in
  let threshold := OKS_KEYPOINT_THRESHOLD in
  if (kp_score kp1 < threshold)%js || (kp_score kp2 < threshold)%js then st
  else
    let dx := (kp_x kp1 - kp_x kp2)%js in
    let dy := (kp_y kp1 - kp_y kp2)%js in
    let dSquared := (dx * dx + dy * dy)%js in
    let sigma := falloff i in
    let x := (lit (2 # 1) * sigma)%js in
    let similarity :=
      Math_exp ((- dSquared) / (lit (2 # 1) * area * x * x))%js in
    ((oksSum + similarity)%js, S validKeypointCount).

Fixpoint oks_loop (area : num) (i : nat) (p1 p2 : Pose) (st : num * nat)
    : num * nat :=
  match p1, p2 with
  | kp1 :: r1, kp2 :: r2 =>
      oks_loop area (S i) r1 r2 (oks_step area st i kp1 kp2)
  | _, _ => st
  end.

(** The two similarity functions have the same body and differ in the area
    function they call. *)
Definition oks_with (areaOf : Pose -> num) (person1Keypoints
    person2Keypoints : Pose) : num :=
  if negb (Nat.eqb (List.length person1Keypoints) (List.length person2Keypoints))
  then lit (0 # 1)
  else
    let area := (areaOf person2Keypoints + EPSILON)%js in
    let '(oksSum, validKeypointCount) :=
      oks_loop area 0 person1Keypoints person2Keypoints (lit (0 # 1), 0) in
    if Nat.ltb validKeypointCount OKS_MIN_KEYPOINTS then lit (0 # 1)
    else (oksSum / of_nat validKeypointCount)%js.

Definition computeOKSSimilarity : Pose -> Pose -> num :=
  oks_with computeKeypointArea.

Definition computeOKSSimilarityJS : Pose -> Pose -> num :=
  oks_with computeKeypointAreaJS.

(** ** Identity tracker ([TrackingManager] and the tracking effect) *)

Record TrackedPerson := mkTrackedPerson {
  id : Z;
  lastSeen : Z;
  keypoints : Pose
}.

(** A [Map<number, TrackedPerson>]: its entries in insertion order, with at
    most one entry per key. *)
Definition TrackMap := list (Z * TrackedPerson).

Fixpoint map_get (k : Z) (m : TrackMap) : option TrackedPerson :=
  match m with
  | [] => None
  | (k', v) :: r => if Z.eqb k k' then Some v else map_get k r
  end.

(** [Map.set]: the value of an existing key is replaced where it stands, a
    new key is appended. *)
Fixpoint map_set (k : Z) (v : TrackedPerson) (m : TrackMap) : TrackMap :=
  match m with
  | [] => [(k, v)]
  | (k', v') :: r =>
      if Z.eqb k k' then (k', v) :: r else (k', v') :: map_set k v r
  end.

Definition map_keys (m : TrackMap) : list Z := map fst m.
Definition map_values (m : TrackMap) : list TrackedPerson := map snd m.

Record TrackingManager := mkTrackingManager {
  trackedPersons : TrackMap;
  nextPersonId : Z;
  (** [{ timestamp, peopleCount }] per processed frame *)
  frameHistory : list (Z * nat)
}.

(** [new TrackingManager()] *)
Definition newTrackingManager : TrackingManager :=
  mkTrackingManager [] 0 [].

(** Timestamps are millisecond counts ([Date.now()]); a track is active
    while [currentTime - lastSeen < TRACKING_MAX_AGE]. *)
Definition is_active (currentTime : Z) (track : TrackedPerson) : bool :=
  (currentTime - lastSeen track <? TRACKING_MAX_AGE)%Z.

(** The inner loop: the best unmatched active track for one detection.
    [activeTracks] holds references to the track objects of the map, here
    their keys; the fields of a track are read through the map, so that an
    update made earlier in the frame is seen. *)
Definition best_step (tracks : TrackMap) (matched : list Z)
    (detectedKeypoints : Pose) (best : Z * num) (trackRef : Z) : Z * num :=
  match map_get trackRef tracks with
  | None => best
  | Some track =>
      if existsb (Z.eqb (id track)) matched then best
      else
        let similarity :=
          computeOKSSimilarityJS detectedKeypoints (keypoints track) in
        if (similarity > snd best)%js then (id track, similarity) else best
  end.

Definition best_match (tracks : TrackMap) (activeTracks matched : list Z)
    (detectedKeypoints : Pose) : Z * num :=
  fold_left (best_step tracks matched detectedKeypoints) activeTracks
    ((-1)%Z, TRACKING_MIN_SIMILARITY).

(** The state of the loop over the detections of a frame: the map, the
    counter, the [matched] set, and the list of the identifiers allocated so
    far (the successive values of [newId]; it is not read by the code). *)
Record FrameState := mkFrameState {
  fs_tracks : TrackMap;
  fs_next : Z;
  fs_matched : list Z;
  fs_allocated : list Z
}.

Definition detection_step (currentTime : Z) (activeTracks : list Z)
    (st : FrameState) (detectedKeypoints : Pose) : FrameState :=
  let bestTrackId :=
    fst (best_match (fs_tracks st) activeTracks (fs_matched st)
           detectedKeypoints) in
  if (bestTrackId >=? 0)%Z then
    match map_get bestTrackId (fs_tracks st) with
    | Some track =>
        mkFrameState
          (map_set bestTrackId
             (mkTrackedPerson (id track) currentTime detectedKeypoints)
             (fs_tracks st))
          (fs_next st) (bestTrackId :: fs_matched st) (fs_allocated st)
    | None => st
    end
  else if Nat.ltb (List.length activeTracks) TRACKING_MAX_PERSONS then
    let newId := fs_next st in
    mkFrameState
      (map_set newId (mkTrackedPerson newId currentTime detectedKeypoints)
         (fs_tracks st))
      (newId + 1)%Z (fs_matched st) (fs_allocated st ++ [newId])
  else st.

(** The sweep that ends a frame: every entry whose track is too old is
    deleted. *)
Definition age_out (currentTime : Z) (tracks : TrackMap) : TrackMap :=
  filter (fun e => negb (currentTime - lastSeen (snd e) >=? TRACKING_MAX_AGE)%Z)
    tracks.

Definition frame_loop (m : TrackingManager)
    (currentKeypoints : list Pose) (timestamp : Z) : FrameState :=
  let currentTime := timestamp in
  let activeTracks :=
    map fst (filter (fun e => is_active currentTime (snd e))
               (trackedPersons m)) in
  fold_left (detection_step currentTime activeTracks) currentKeypoints
    (mkFrameState (trackedPersons m) (nextPersonId m) [] []).

Definition procesFrame (m : TrackingManager)
    (currentKeypoints : list Pose) (timestamp : Z) : TrackingManager :=
  let st := frame_loop m currentKeypoints timestamp in
  let tracks := age_out timestamp (fs_tracks st) in
  mkTrackingManager tracks (fs_next st)
    (frameHistory m ++ [(timestamp, List.length tracks)]).

(** The identifiers allocated by one call, in the order of allocation. *)
Definition allocatedBy (m : TrackingManager)
    (currentKeypoints : list Pose) (timestamp : Z) : list Z :=
  fs_allocated (frame_loop m currentKeypoints timestamp).

Definition getTracks (m : TrackingManager) : TrackMap := trackedPersons m.

Definition reset (m : TrackingManager) : TrackingManager :=
  mkTrackingManager [] 0 [].

(** A run of the tracker: the frames are processed in order. *)
Definition Frame := (list Pose * Z)%type.

Definition run (m : TrackingManager) (frames : list Frame)
    : TrackingManager :=
  fold_left (fun m f => procesFrame m (fst f) (snd f)) frames m.

(** The identifiers allocated during a run, in the order of allocation. *)
Fixpoint allocatedIn (m : TrackingManager) (frames : list Frame) : list Z :=
  match frames with
  | [] => []
  | f :: r =>
      allocatedBy m (fst f) (snd f)
        ++ allocatedIn (procesFrame m (fst f) (snd f)) r
  end.

(** The tracking effect of the screen: one detection per call, the map in
    [trackedPersonsRef] and the counter in [nextPersonIdRef]. *)
Definition trackingEffect (tracks : TrackMap) (next : Z)
    (full17Keypoints : Pose) (currentTime : Z) : TrackMap * Z :=
  let activeTracks :=
    filter (fun e => is_active currentTime (snd e)) tracks in
  let '(bestTrackId, _) :=
    fold_left
      (fun (best : Z * num) (e : Z * TrackedPerson) =>
         let similarity :=
           computeOKSSimilarityJS full17Keypoints (keypoints (snd e)) in
         if (similarity > snd best)%js then (id (snd e), similarity)
         else best)
      activeTracks ((-1)%Z, TRACKING_MIN_SIMILARITY) in
  let '(tracks', next') :=
    if (bestTrackId >=? 0)%Z then
      match map_get bestTrackId tracks with
      | Some track =>
          (map_set bestTrackId
             (mkTrackedPerson (id track) currentTime full17Keypoints) tracks,
           next)
      | None => (tracks, next)
      end
    else if Nat.ltb (List.length activeTracks) TRACKING_MAX_PERSONS then
      (map_set next (mkTrackedPerson next currentTime full17Keypoints)
         tracks, (next + 1)%Z)
    else (tracks, next) in
  (age_out currentTime tracks', next').

(** ** Temporal smoothing ([smoothKeypoints]) *)

Definition oneEuroFilter (value lastValue lastDValue alpha dAlpha : num)
    : num * num :=
  let dValue := (value - lastValue)%js in
  let smoothedDValue :=
    (dAlpha * dValue + (lit (1 # 1) - dAlpha) * lastDValue)%js in
  let filtered := (alpha * value + (lit (1 # 1) - alpha) * lastValue)%js in
  (filtered, smoothedDValue).

Definition smoothingFactor (cutoff fps : num) : num :=
  let tau := (lit (1 # 1) / (lit (2 # 1) * Math_PI * cutoff))%js in
  let te := (lit (1 # 1) / fps)%js in
  (lit (1 # 1) / (lit (1 # 1) + tau / te))%js.

(** The filter state of one keypoint slot. *)
Record SlotState := mkSlotState {
  slot_x : num; slot_y : num; slot_score : num; slot_dx : num; slot_dy : num
}.

(** The dictionary [lastKeypoints], keyed by [kp_0] ... [kp_16]: here by the
    index of the slot. *)
Definition LastKeypoints := nat -> option SlotState.

Definition slot_set (d : LastKeypoints) (i : nat) (v : SlotState)
    : LastKeypoints :=
  fun j => if Nat.eqb j i then Some v else d j.

(** A value received where a [number] is expected. *)
Inductive JSValue :=
| JSNum (n : num)
| JSNotNumber.

(** An element of a typed array; reading out of range gives [undefined],
    which is [NaN] in arithmetic and false in comparisons. *)
Definition at_index (a : list num) (i : nat) : num := nth i a NaN.

(** A store into a [Float32Array]; out of range it does nothing. *)
Fixpoint array_set (a : list num) (i : nat) (v : num) : list num :=
  match a, i with
  | [], _ => []
  | _ :: r, O => Math_fround v :: r
  | h :: r, S j => h :: array_set r j v
  end.

(** [new Float32Array(n)] *)
Definition zeros (n : nat) : list num := repeat (lit (0 # 1)) n.

(** [new Float32Array(keypoints)] *)
Definition float32_copy (a : list num) : list num := map Math_fround a.

Definition smooth_slot (keypoints : list num) (screenWidth screenHeight : num)
    (st : LastKeypoints * list num) (i : nat) : LastKeypoints * list num :=
  let '(lastKeypoints, smoothedKeypoints) := st in
  let fps := (CAMERA_FPS / FRAME_SKIP_INTERVAL)%js in
  let MOVEMENT_THRESHOLD := (screenWidth * lit (1 # 100))%js in
  let baseIndex := (i * 3)%nat in
  if Nat.leb (List.length keypoints) (baseIndex + 2) then st
  else
    let rawX := (at_index keypoints (baseIndex + 1) * screenWidth)%js in
    let rawY := (at_index keypoints baseIndex * screenHeight)%js in
    let rawScore := at_index keypoints (baseIndex + 2) in
    let new :=
      match lastKeypoints i with
      | Some last =>
          if (rawScore > DETECTION_THRESHOLD)%js then
            let deltaX := Math_abs (rawX - slot_x last)%js in
            let deltaY := Math_abs (rawY - slot_y last)%js in
            if (deltaX < MOVEMENT_THRESHOLD)%js
               && (deltaY < MOVEMENT_THRESHOLD)%js
            then last
            else
              let vx := (rawX - slot_x last)%js in
              let vy := (rawY - slot_y last)%js in
              let speed := Math_sqrt (vx * vx + vy * vy)%js in
              let adaptiveCutoff := (MIN_CUTOFF + BETA * speed)%js in
              let alpha := smoothingFactor adaptiveCutoff fps in
              let dAlpha := smoothingFactor DERIVATE_CUTOFF fps in
              let resultX :=
                oneEuroFilter rawX (slot_x last) (slot_dx last) alpha dAlpha in
              let resultY :=
                oneEuroFilter rawY (slot_y last) (slot_dy last) alpha dAlpha in
              mkSlotState (fst resultX) (fst resultY)
                (lit (7 # 10) * rawScore + lit (3 # 10) * slot_score last)%js
                (snd resultX) (snd resultY)
          else mkSlotState rawX rawY rawScore (lit (0 # 1)) (lit (0 # 1))
      | None => mkSlotState rawX rawY rawScore (lit (0 # 1)) (lit (0 # 1))
      end in
    let out :=
      if Nat.ltb (baseIndex + 2) (List.length smoothedKeypoints) then
        array_set
          (array_set
             (array_set smoothedKeypoints baseIndex
                (slot_y new / screenHeight)%js)
             (baseIndex + 1) (slot_x new / screenWidth)%js)
          (baseIndex + 2) (slot_score new)
      else smoothedKeypoints in
    (slot_set lastKeypoints i new, out).

(** The result is the returned array and the dictionary as the call leaves
    it.  [keypoints] is [None] for a null or undefined argument. *)
Definition smoothKeypoints (keypoints : option (list num))
    (lastKeypoints : LastKeypoints) (screenWidth screenHeight : JSValue)
    : list num * LastKeypoints :=
  match keypoints with
  | None => (zeros 51, lastKeypoints)
  | Some keypoints =>
      if Nat.ltb (List.length keypoints) 51 then (zeros 51, lastKeypoints)
      else
        match screenWidth, screenHeight with
        | JSNum screenWidth, JSNum screenHeight =>
            if (screenWidth <= lit (0 # 1))%js
               || (screenHeight <= lit (0 # 1))%js
            then (float32_copy keypoints, lastKeypoints)
            else
              let '(last', out) :=
                fold_left (smooth_slot keypoints screenWidth screenHeight)
                  (seq 0 17) (lastKeypoints, zeros (List.length keypoints)) in
              (out, last')
        | _, _ => (float32_copy keypoints, lastKeypoints)
        end
  end.

(** ** Lift-form analysis ([analyzeLiftForm]) *)

(** The [liftType] argument: [string | string[] | undefined]. *)
Inductive LiftType :=
| LiftUndefined
| LiftString (s : string)
| LiftArray (a : list string).

(** A feedback message: a literal of the source (written here in ASCII,
    without its leading pictogram and without the degree sign of the elbow
    message), or the message built from the user's height,
    ['Excellent depth (' + userHeight + 'cm calibrated)']. *)
Inductive Message :=
| Msg (text : string)
| MsgCalibratedDepth (userHeight : num).

Record LiftAnalysis := mkLiftAnalysis {
  feedback : list Message;
  formScore : Z;
  liftType : string
}.

Definition lower_ascii (c : ascii) : ascii :=
  let n := nat_of_ascii c in
  if Nat.leb 65 n && Nat.leb n 90 then ascii_of_nat (n + 32) else c.

(** [toLowerCase], on the letters A to Z. *)
Fixpoint toLowerCase (s : string) : string :=
  match s with
  | EmptyString => EmptyString
  | String c r => String (lower_ascii c) (toLowerCase r)
  end.

Inductive Side := SideLeft | SideRight | SideAvg | SideNone.

Definition side_is_none (s : Side) : bool :=
  match s with SideNone => true | _ => false end.

Record BilateralPoint := mkBilateral { bp_point : Keypoint; bp_side : Side }.

Definition bp_xv (b : BilateralPoint) : num := kp_x (bp_point b).
Definition bp_yv (b : BilateralPoint) : num := kp_y (bp_point b).

Definition getPoint (keypoints : list num) (screenWidth screenHeight : num)
    (index : nat) : Keypoint :=
  mkKeypoint (at_index keypoints (index * 3 + 1) * screenWidth)%js
             (at_index keypoints (index * 3) * screenHeight)%js
             (at_index keypoints (index * 3 + 2)).

Definition calculateAngle (p1 p2 p3 : Keypoint) : option num :=
  if isNaN (kp_x p1) || isNaN (kp_y p1) || isNaN (kp_x p2)
     || isNaN (kp_y p2) || isNaN (kp_x p3) || isNaN (kp_y p3)
  then None
  else
    let dist12 :=
      Math_sqrt (pow2 (kp_x p2 - kp_x p1) + pow2 (kp_y p2 - kp_y p1))%js in
    let dist23 :=
      Math_sqrt (pow2 (kp_x p3 - kp_x p2) + pow2 (kp_y p3 - kp_y p2))%js in
    if (dist12 < lit (1 # 1))%js || (dist23 < lit (1 # 1))%js then None
    else
      let radians :=
        (Math_atan2 (kp_y p3 - kp_y p2) (kp_x p3 - kp_x p2)
         - Math_atan2 (kp_y p1 - kp_y p2) (kp_x p1 - kp_x p2))%js in
      let angle := Math_abs (radians * lit (180 # 1) / Math_PI)%js in
      Some (if (angle > lit (180 # 1))%js then (lit (360 # 1) - angle)%js
            else angle).

Definition calculateDistance (p1 p2 : Keypoint) : option num :=
  if isNaN (kp_x p1) || isNaN (kp_y p1) || isNaN (kp_x p2)
     || isNaN (kp_y p2)
  then None
  else
    Some (Math_sqrt
            (pow2 (kp_x p2 - kp_x p1) + pow2 (kp_y p2 - kp_y p1))%js).

Definition getBilateralPoint (leftPoint rightPoint : Keypoint)
    : BilateralPoint :=
  let leftOk := (kp_score leftPoint > DETECTION_THRESHOLD)%js in
  let rightOk := (kp_score rightPoint > DETECTION_THRESHOLD)%js in
  if leftOk && rightOk then
    let totalScore := (kp_score leftPoint + kp_score rightPoint)%js in
    mkBilateral
      (mkKeypoint
         ((kp_x leftPoint * kp_score leftPoint
           + kp_x rightPoint * kp_score rightPoint) / totalScore)%js
         ((kp_y leftPoint * kp_score leftPoint
           + kp_y rightPoint * kp_score rightPoint) / totalScore)%js
         (Math_max (kp_score leftPoint) (kp_score rightPoint)))
      SideAvg
  else if leftOk then mkBilateral leftPoint SideLeft
  else if rightOk then mkBilateral rightPoint SideRight
  else mkBilateral (mkKeypoint (lit (0 # 1)) (lit (0 # 1)) (lit (0 # 1)))
         SideNone.

(** The accumulators of the analysis: the list [feedback], in the order of
    the calls of [push], and [formScore]. *)
Definition Analysis := (list Message * Z)%type.

(** [feedback.push(text); formScore -= penalty] *)
Definition push (text : string) (penalty : Z) (st : Analysis) : Analysis :=
  (fst st ++ [Msg text], (snd st - penalty)%Z).

Definition is_some {A} (o : option A) : bool :=
  match o with Some _ => true | None => false end.

(** The landmarks read at the start of the analysis. *)
Record Landmarks := mkLandmarks {
  leftShoulder : Keypoint; rightShoulder : Keypoint;
  leftElbow : Keypoint; rightElbow : Keypoint;
  leftWrist : Keypoint; rightWrist : Keypoint;
  leftKnee : Keypoint; rightKnee : Keypoint;
  leftAnkle : Keypoint; rightAnkle : Keypoint;
  shoulder : BilateralPoint; hip : BilateralPoint;
  knee : BilateralPoint; ankle : BilateralPoint
}.

Definition landmarks (keypoints : list num) (screenWidth screenHeight : num)
    : Landmarks :=
  let pt := getPoint keypoints screenWidth screenHeight in
  mkLandmarks (pt 5) (pt 6) (pt 7) (pt 8) (pt 9) (pt 10) (pt 13) (pt 14)
    (pt 15) (pt 16)
    (getBilateralPoint (pt 5) (pt 6)) (getBilateralPoint (pt 11) (pt 12))
    (getBilateralPoint (pt 13) (pt 14)) (getBilateralPoint (pt 15) (pt 16)).

Definition squat_depth (L : Landmarks) (userHeight : option num)
    (st : Analysis) : Analysis :=
  let hipToKneeDistance :=
    calculateDistance (bp_point (hip L)) (bp_point (knee L)) in
  let shoulderToHipDistance :=
    calculateDistance (bp_point (shoulder L)) (bp_point (hip L)) in
  if is_some hipToKneeDistance && is_some shoulderToHipDistance then
    let depthRatio := (bp_yv (hip L) - bp_yv (knee L))%js in
    let torsoLength := Math_abs (bp_yv (shoulder L) - bp_yv (hip L))%js in
    let heightAdjustment :=
      match userHeight with
      | Some h =>
          if truthy h && (h > lit (0 # 1))%js then (h / lit (170 # 1))%js
          else lit (1 # 1)
      | None => lit (1 # 1)
      end in
    let depthThreshold :=
      (torsoLength * lit (1 # 10) * heightAdjustment)%js in
    if (depthRatio < - depthThreshold)%js then
      match userHeight with
      | Some h =>
          if truthy h then (fst st ++ [MsgCalibratedDepth h], snd st)
          else push "Excellent depth - below parallel" 0 st
      | None => push "Excellent depth - below parallel" 0 st
      end
    else if (depthRatio < depthThreshold * lit (5 # 10))%js then
      push "At parallel - try slightly deeper" 5 st
    else push "Too shallow - squat deeper" 20 st
  else st.

Definition squat_knees (L : Landmarks) (st : Analysis) : Analysis :=
  if (kp_score (leftKnee L) > DETECTION_THRESHOLD)%js
     && (kp_score (rightKnee L) > DETECTION_THRESHOLD)%js
     && (kp_score (leftAnkle L) > DETECTION_THRESHOLD)%js
     && (kp_score (rightAnkle L) > DETECTION_THRESHOLD)%js
  then
    let kneeWidth := Math_abs (kp_x (leftKnee L) - kp_x (rightKnee L))%js in
    let ankleWidth :=
      Math_abs (kp_x (leftAnkle L) - kp_x (rightAnkle L))%js in
    if (kneeWidth < ankleWidth * lit (75 # 100))%js then
      push "Knees caving in - push knees out" 15 st
    else if (kneeWidth < ankleWidth * lit (9 # 10))%js then
      push "Watch knee tracking" 5 st
    else push "Good knee tracking" 0 st
  else st.

Definition squat_hipAngle (L : Landmarks) (st : Analysis) : Analysis :=
  match calculateAngle (bp_point (shoulder L)) (bp_point (hip L))
          (bp_point (knee L)) with
  | Some hipAngle =>
      if (hipAngle < lit (50 # 1))%js then
        push "Chest up! Torso too horizontal" 15 st
      else if (hipAngle < lit (70 # 1))%js then
        push "Keep chest more upright" 5 st
      else push "Good torso position" 0 st
  | None => st
  end.

Definition squat_kneeAngle (L : Landmarks) (st : Analysis) : Analysis :=
  match calculateAngle (bp_point (hip L)) (bp_point (knee L))
          (bp_point (ankle L)) with
  | Some kneeAngle =>
      if (kneeAngle < lit (60 # 1))%js then
        push "Very deep squat - check mobility" 0 st
      else if (kneeAngle < lit (90 # 1))%js then
        push "Good squat depth" 0 st
      else push "Squat deeper for full ROM" 10 st
  | None => st
  end.

Definition analyze_squat (L : Landmarks) (userHeight : option num)
    (st : Analysis) : Analysis :=
  if negb (side_is_none (bp_side (hip L)))
     && negb (side_is_none (bp_side (knee L)))
     && negb (side_is_none (bp_side (ankle L)))
     && negb (side_is_none (bp_side (shoulder L)))
  then
    squat_kneeAngle L
      (squat_hipAngle L (squat_knees L (squat_depth L userHeight st)))
  else push "Position yourself to show full body" 30 st.

Definition bench_elbowAngle (L : Landmarks) (elbow wrist : BilateralPoint)
    (st : Analysis) : Analysis :=
  match calculateAngle (bp_point (shoulder L)) (bp_point elbow)
          (bp_point wrist) with
  | Some elbowAngle =>
      if (elbowAngle < lit (60 # 1))%js then
        push "Elbows too flared - tuck them" 15 st
      else if (elbowAngle > lit (95 # 1))%js then
        push "Elbows could tuck more (75-90)" 5 st
      else push "Good elbow angle" 0 st
  | None => st
  end.

Definition bench_barPath (L : Landmarks) (wrist : BilateralPoint)
    (st : Analysis) : Analysis :=
  match calculateDistance (mkKeypoint (bp_xv wrist) (lit (0 # 1)) NaN)
          (mkKeypoint (bp_xv (shoulder L)) (lit (0 # 1)) NaN) with
  | Some barPathDeviation =>
      let shoulderWidth :=
        Math_abs (kp_x (leftShoulder L) - kp_x (rightShoulder L))%js in
      let deviationRatio :=
        (barPathDeviation / Math_max shoulderWidth (lit (1 # 1)))%js in
      if (deviationRatio > lit (3 # 10))%js then
        push "Bar path not vertical" 15 st
      else if (deviationRatio > lit (15 # 100))%js then
        push "Keep bar path straight" 5 st
      else push "Excellent bar path" 0 st
  | None => st
  end.

Definition bench_wrists (L : Landmarks) (elbow wrist : BilateralPoint)
    (st : Analysis) : Analysis :=
  match calculateDistance (bp_point wrist) (bp_point elbow) with
  | Some wristElbowDistance =>
      match calculateDistance (bp_point elbow) (bp_point (shoulder L)) with
      | Some elbowShoulderDistance =>
          let wristBendRatio :=
            (wristElbowDistance / elbowShoulderDistance)%js in
          if (wristBendRatio < lit (3 # 10))%js then
            push "Wrists bent - keep neutral" 10 st
          else st
      | None => st
      end
  | None => st
  end.

Definition bench_symmetry (L : Landmarks) (st : Analysis) : Analysis :=
  if (kp_score (leftElbow L) > MIN_CONFIDENCE)%js
     && (kp_score (rightElbow L) > MIN_CONFIDENCE)%js
     && (kp_score (leftWrist L) > MIN_CONFIDENCE)%js
     && (kp_score (rightWrist L) > MIN_CONFIDENCE)%js
  then
    match calculateAngle (leftShoulder L) (leftElbow L) (leftWrist L),
          calculateAngle (rightShoulder L) (rightElbow L) (rightWrist L) with
    | Some leftArmAngle, Some rightArmAngle =>
        let asymmetry := Math_abs (leftArmAngle - rightArmAngle)%js in
        if (asymmetry > lit (15 # 1))%js then
          push "Uneven arms - check form" 10 st
        else push "Symmetric arm movement" 0 st
    | _, _ => st
    end
  else st.

Definition analyze_bench (L : Landmarks) (st : Analysis) : Analysis :=
  let elbow := getBilateralPoint (leftElbow L) (rightElbow L) in
  let wrist := getBilateralPoint (leftWrist L) (rightWrist L) in
  if negb (side_is_none (bp_side (shoulder L)))
     && negb (side_is_none (bp_side elbow))
     && negb (side_is_none (bp_side wrist))
  then
    bench_symmetry L
      (bench_wrists L elbow wrist
         (bench_barPath L wrist (bench_elbowAngle L elbow wrist st)))
  else push "Position camera to show upper body" 30 st.

Definition deadlift_hips (L : Landmarks) (st : Analysis) : Analysis :=
  let hipKneeDistance :=
    calculateDistance (bp_point (hip L)) (bp_point (knee L)) in
  let shoulderHipDistance :=
    calculateDistance (bp_point (shoulder L)) (bp_point (hip L)) in
  if is_some hipKneeDistance && is_some shoulderHipDistance then
    let hipKneeRatio := (bp_yv (hip L) - bp_yv (knee L))%js in
    let torsoLength := Math_abs (bp_yv (shoulder L) - bp_yv (hip L))%js in
    if (hipKneeRatio < (- torsoLength) * lit (1 # 10))%js then
      push "Hips too low - not a squat!" 20 st
    else if (hipKneeRatio > torsoLength * lit (3 # 10))%js then
      push "Hips might be too high" 5 st
    else push "Good hip position" 0 st
  else st.

Definition deadlift_back (L : Landmarks) (st : Analysis) : Analysis :=
  let hipShoulderVertical :=
    Math_abs (bp_yv (shoulder L) - bp_yv (hip L))%js in
  let hipShoulderHorizontal :=
    Math_abs (bp_xv (shoulder L) - bp_xv (hip L))%js in
  if (hipShoulderVertical > lit (0 # 1))%js
     && (hipShoulderHorizontal >= lit (0 # 1))%js
  then
    let backAngleDegrees :=
      (Math_atan2 hipShoulderVertical hipShoulderHorizontal * lit (180 # 1)
       / Math_PI)%js in
    if (backAngleDegrees < lit (30 # 1))%js then
      push "Back too horizontal - DANGEROUS" 25 st
    else if (backAngleDegrees < lit (40 # 1))%js then
      push "Lift chest slightly" 10 st
    else if (backAngleDegrees > lit (75 # 1))%js then
      push "Too vertical - engage hips more" 10 st
    else push "Good back angle" 0 st
  else st.

Definition deadlift_lockout (L : Landmarks) (screenHeight : num)
    (st : Analysis) : Analysis :=
  let lockoutAlignment := Math_abs (bp_xv (hip L) - bp_xv (shoulder L))%js in
  let torsoLength := Math_abs (bp_yv (shoulder L) - bp_yv (hip L))%js in
  if (lockoutAlignment < torsoLength * lit (15 # 100))%js
     && (torsoLength > screenHeight * lit (2 # 10))%js
  then push "Full lockout achieved!" 0 st
  else st.

Definition deadlift_shoulders (L : Landmarks) (st : Analysis) : Analysis :=
  let shoulderKneeX := (bp_xv (shoulder L) - bp_xv (knee L))%js in
  let kneeWidth := Math_abs (kp_x (leftKnee L) - kp_x (rightKnee L))%js in
  if (shoulderKneeX < (- kneeWidth) * lit (5 # 10))%js then
    push "Shoulders behind bar - shift forward" 10 st
  else push "Good shoulder position" 0 st.

Definition analyze_deadlift (L : Landmarks) (screenHeight : num)
    (st : Analysis) : Analysis :=
  if negb (side_is_none (bp_side (hip L)))
     && negb (side_is_none (bp_side (shoulder L)))
     && negb (side_is_none (bp_side (knee L)))
     && negb (side_is_none (bp_side (ankle L)))
  then
    deadlift_shoulders L
      (deadlift_lockout L screenHeight (deadlift_back L (deadlift_hips L st)))
  else push "Position to show full body from side" 30 st.

(** The analysis proper: what the branches have pushed on [feedback] and
    made of [formScore] when the [return] statement is reached. *)
Definition analysis (keypoints : list num) (liftType : string)
    (screenWidth screenHeight : num) (userHeight : option num) : Analysis :=
  let L := landmarks keypoints screenWidth screenHeight in
  let st : Analysis := ([], 100%Z) in
  if String.eqb (toLowerCase liftType) "squat" then
    analyze_squat L userHeight st
  else if String.eqb (toLowerCase liftType) "bench" then analyze_bench L st
  else if String.eqb (toLowerCase liftType) "deadlift" then
    analyze_deadlift L screenHeight st
  else st.

(** The [return] statement: [formScore = Math.max(0, formScore)] and
    [feedback.slice(0, 4)]. *)
Definition finish (st : Analysis) (liftType : string) : LiftAnalysis :=
  mkLiftAnalysis (firstn 4 (fst st)) (Z.max 0 (snd st)) liftType.

Definition noLiftType : LiftAnalysis :=
  mkLiftAnalysis [Msg "Select a lift type"] 0 "unknown".

Definition analyzeLiftForm (keypoints : list num) (liftType : LiftType)
    (screenWidth screenHeight : num) (userHeight userWeight : option num)
    : LiftAnalysis :=
  match liftType with
  | LiftUndefined => noLiftType
  | LiftArray _ => noLiftType
  | LiftString s =>
      if String.eqb s EmptyString then noLiftType
      else
        finish (analysis keypoints s screenWidth screenHeight userHeight) s
  end.

End Pipeline.

Arguments Keypoint num : clear implicits.
Arguments Pose num : clear implicits.
Arguments BBox num : clear implicits.
Arguments TrackedPerson num : clear implicits.
Arguments TrackMap num : clear implicits.
Arguments TrackingManager num : clear implicits.
Arguments FrameState num : clear implicits.
Arguments Frame num : clear implicits.
Arguments SlotState num : clear implicits.
Arguments LastKeypoints num : clear implicits.
Arguments JSValue num : clear implicits.
Arguments Message num : clear implicits.
Arguments LiftAnalysis num : clear implicits.
Arguments BilateralPoint num : clear implicits.
Arguments Landmarks num : clear implicits.
Arguments Analysis num : clear implicits.

(** ** Crop region and screen coordinates *)

Section Screen.
Context {num : Type} `{JSNumber num}.

Definition SKELETON_CONNECTIONS : list (nat * nat) :=
  [(5, 7); (7, 9); (6, 8); (8, 10); (5, 6); (5, 11); (6, 12); (11, 12);
   (11, 13); (13, 15); (12, 14); (14, 16)]%nat.
Definition CONNECTION_THRESHOLD : num := lit (1 # 10).
Definition HIGH_CONFIDENCE : num := lit (7 # 10).
Definition CROP_KEYPOINT_SCORE_THRESHOLD : num := lit (2 # 10).
Definition TORSO_EXPANSION_RATIO : num := lit (19 # 10).
Definition BODY_EXPANSION_RATIO : num := lit (12 # 10).

(** [a === b] on two numbers: false when one is [NaN], true on two zeros
    of either sign, as [a <= b && b <= a]. *)
Definition strict_eq (a b : num) : bool := (a <= b)%js && (b <= a)%js.

(** The result of a call that may throw a [TypeError]. *)
Inductive Outcome (A : Type) :=
| Returned (a : A)
| Thrown.
Arguments Thrown {A}.

Record BoundingBox := mkBoundingBox {
  bb_xMin : num; bb_xMax : num; bb_yMin : num; bb_yMax : num;
  bb_width : num; bb_height : num
}.

(** One iteration of the loop of [calculateBoundingBox]; a keypoint is an
    array [[x, y, score]], and the state is the box with
    [hasValidKeypoints]. *)
Definition bbox_step (minScoreThreshold : num) (st : BBox num * bool)
    (kp : list num) : BBox num * bool :=
  let score := at_index kp 2 in
  if (score >= minScoreThreshold)%js then
    let x := at_index kp 0 in
    let y := at_index kp 1 in
    (mkBBox (Math_min (minX (fst st)) x) (Math_max (maxX (fst st)) x)
            (Math_min (minY (fst st)) y) (Math_max (maxY (fst st)) y),
     true)
  else st.

Definition calculateBoundingBox (keypoints : list (list num))
    (minScoreThreshold : num) : BoundingBox :=
  let '(b, hasValidKeypoints) :=
    fold_left (bbox_step minScoreThreshold) keypoints (bbox_init, false) in
  if negb hasValidKeypoints then
    mkBoundingBox (lit (0 # 1)) (lit (0 # 1)) (lit (0 # 1)) (lit (0 # 1))
      (lit (0 # 1)) (lit (0 # 1))
  else
    mkBoundingBox (minX b) (maxX b) (minY b) (maxY b)
      (maxX b - minX b)%js (maxY b - minY b)%js.

(** The box of the shoulders and hips ([keypoints[5]], [[6]], [[11]],
    [[12]]).  Reading the score of a keypoint that the array does not have
    throws; [null] is [None]. *)
Definition getTorsoBBox (keypoints : list (list num))
    : Outcome (option (BBox num)) :=
  match nth_error keypoints 5, nth_error keypoints 6,
        nth_error keypoints 11, nth_error keypoints 12 with
  | Some leftShoulder, Some rightShoulder, Some leftHip, Some rightHip =>
      let shoulderScore :=
        Math_min (at_index leftShoulder 2) (at_index rightShoulder 2) in
      let hipScore := Math_min (at_index leftHip 2) (at_index rightHip 2) in
      if (shoulderScore < CROP_KEYPOINT_SCORE_THRESHOLD)%js
         || (hipScore < CROP_KEYPOINT_SCORE_THRESHOLD)%js
      then Returned None
      else
        let torsoXs :=
          [at_index leftShoulder 0; at_index rightShoulder 0;
           at_index leftHip 0; at_index rightHip 0] in
        let torsoYs :=
          [at_index leftShoulder 1; at_index rightShoulder 1;
           at_index leftHip 1; at_index rightHip 1] in
        let start :=
          mkBBox (at_index torsoXs 0) (at_index torsoXs 0)
                 (at_index torsoYs 0) (at_index torsoYs 0) in
        Returned
          (Some
             (fold_left
                (fun b i =>
                   mkBBox (Math_min (minX b) (at_index torsoXs i))
                          (Math_max (maxX b) (at_index torsoXs i))
                          (Math_min (minY b) (at_index torsoYs i))
                          (Math_max (maxY b) (at_index torsoYs i)))
                (seq 1 (List.length torsoXs - 1)) start))
  | _, _, _, _ => Thrown
  end.

Record CropRegion := mkCropRegion {
  cropX : num; cropY : num; cropSize : num
}.

(** The box [b] grown by [expansion] on each side, inside the unit
    square. *)
Definition expanded (b : BBox num) (expansion : num) : BBox num :=
  mkBBox (Math_max (lit (0 # 1)) (minX b - expansion)%js)
         (Math_min (lit (1 # 1)) (maxX b + expansion)%js)
         (Math_max (lit (0 # 1)) (minY b - expansion)%js)
         (Math_min (lit (1 # 1)) (maxY b + expansion)%js).

(** The end of [determineCropRegion], once [cropRegion] is set. *)
Definition crop_of (cropRegion : BBox num) (frameWidth frameHeight : num)
    : CropRegion :=
  let width := (maxX cropRegion - minX cropRegion)%js in
  let height := (maxY cropRegion - minY cropRegion)%js in
  let cropSize :=
    (Math_max width height * Math_max frameWidth frameHeight)%js in
  mkCropRegion (minX cropRegion) (minY cropRegion) cropSize.

Definition determineCropRegion (keypoints : list (list num))
    (frameWidth frameHeight : num) : Outcome CropRegion :=
  match getTorsoBBox keypoints with
  | Thrown => Thrown
  | Returned (Some torsoBBox) =>
      let width := (maxX torsoBBox - minX torsoBBox)%js in
      let height := (maxY torsoBBox - minY torsoBBox)%js in
      let expansion :=
        (TORSO_EXPANSION_RATIO * Math_max width height / lit (2 # 1))%js in
      Returned (crop_of (expanded torsoBBox expansion) frameWidth frameHeight)
  | Returned None =>
      let bbox :=
        calculateBoundingBox keypoints CROP_KEYPOINT_SCORE_THRESHOLD in
      if strict_eq (bb_width bbox) (lit (0 # 1))
         || strict_eq (bb_height bbox) (lit (0 # 1))
      then
        Returned
          (mkCropRegion (lit (0 # 1)) (lit (0 # 1))
             (Math_max frameWidth frameHeight))
      else
        let expansion :=
          (BODY_EXPANSION_RATIO * Math_max (bb_width bbox) (bb_height bbox)
           / lit (2 # 1))%js in
        Returned
          (crop_of
             (expanded
                (mkBBox (bb_xMin bbox) (bb_xMax bbox) (bb_yMin bbox)
                   (bb_yMax bbox))
                expansion)
             frameWidth frameHeight)
  end.

Record Point := mkPoint { pt_x : num; pt_y : num }.

(** The [switch] on the orientation:
    [(screenX, screenY, transformedWidth, transformedHeight)]. *)
Definition oriented (orientation : string)
    (frameX frameY frameWidth frameHeight : num) : num * num * num * num :=
  if String.eqb orientation "portrait" then
    ((frameHeight - frameY)%js, frameX, frameHeight, frameWidth)
  else if String.eqb orientation "portraitUpsideDown" then
    (frameY, (frameWidth - frameX)%js, frameHeight, frameWidth)
  else if String.eqb orientation "landscapeLeft" then
    (frameX, frameY, frameWidth, frameHeight)
  else if String.eqb orientation "landscapeRight" then
    ((frameHeight - frameY)%js, (frameWidth - frameX)%js, frameHeight,
     frameWidth)
  else ((frameHeight - frameY)%js, frameX, frameHeight, frameWidth).

(** The position in the frame, in pixels, after the crop scaling, the
    clamping to the frame and the mirroring of the front camera. *)
Definition frame_position (normalizedX normalizedY frameWidth frameHeight
    : num) (cameraPosition : string) (cropX cropY : num) : num * num :=
  let x := Math_max (lit (0 # 1)) (Math_min normalizedX (lit (1 # 1))) in
  let y := Math_max (lit (0 # 1)) (Math_min normalizedY (lit (1 # 1))) in
  let frameX := (x * frameWidth)%js in
  let frameY := (y * frameHeight)%js in
  let cropSizeClamped :=
    Math_max (Math_max frameWidth frameHeight) (lit (1 # 1)) in
  let cropScaleX := (frameWidth / cropSizeClamped)%js in
  let cropScaleY := (frameHeight / cropSizeClamped)%js in
  let frameX :=
    (cropX * frameWidth + (frameX - cropX * frameWidth) * cropScaleX)%js in
  let frameY :=
    (cropY * frameHeight + (frameY - cropY * frameHeight) * cropScaleY)%js in
  let frameX := Math_max (lit (0 # 1)) (Math_min frameX frameWidth) in
  let frameY := Math_max (lit (0 # 1)) (Math_min frameY frameHeight) in
  let frameX :=
    if String.eqb cameraPosition "front" then (frameWidth - frameX)%js
    else frameX in
  (frameX, frameY).

(** The end of the transform: the position [(screenX, screenY)] of the
    rotated frame is scaled to fit the screen, centred, and clamped to the
    screen. *)
Definition on_screen (screenX screenY transformedWidth transformedHeight
    screenWidth screenHeight : num) : Point :=
  let scaleX := (screenWidth / transformedWidth)%js in
  let scaleY := (screenHeight / transformedHeight)%js in
  let scale := Math_min scaleX scaleY in
  if negb (isFinite scale) || (scale <= lit (0 # 1))%js then
    mkPoint (lit (0 # 1)) (lit (0 # 1))
  else
    let scaledWidth := (transformedWidth * scale)%js in
    let scaledHeight := (transformedHeight * scale)%js in
    let offsetX := ((screenWidth - scaledWidth) / lit (2 # 1))%js in
    let offsetY := ((screenHeight - scaledHeight) / lit (2 # 1))%js in
    let finalX := (screenX * scale + offsetX)%js in
    let finalY := (screenY * scale + offsetY)%js in
    if isNaN finalX || isNaN finalY then mkPoint (lit (0 # 1)) (lit (0 # 1))
    else
      mkPoint (Math_max (lit (0 # 1)) (Math_min finalX screenWidth))
              (Math_max (lit (0 # 1)) (Math_min finalY screenHeight)).

Definition transformKeypointToScreen (normalizedX normalizedY frameWidth
    frameHeight screenWidth screenHeight : num)
    (orientation cameraPosition : string) (cropX cropY cropSize : num)
    : Point :=
  let origin := mkPoint (lit (0 # 1)) (lit (0 # 1)) in
  if (frameWidth <= lit (0 # 1))%js || (frameHeight <= lit (0 # 1))%js
     || (screenWidth <= lit (0 # 1))%js || (screenHeight <= lit (0 # 1))%js
  then origin
  else if isNaN normalizedX || isNaN normalizedY then origin
  else if (normalizedX < lit (0 # 1))%js || (normalizedX > lit (1 # 1))%js
          || (normalizedY < lit (0 # 1))%js
          || (normalizedY > lit (1 # 1))%js
  then origin
  else
    let '(frameX, frameY) :=
      frame_position normalizedX normalizedY frameWidth frameHeight
        cameraPosition cropX cropY in
    let '(screenX, screenY, transformedWidth, transformedHeight) :=
      oriented orientation frameX frameY frameWidth frameHeight in
    on_screen screenX screenY transformedWidth transformedHeight screenWidth
      screenHeight.

(** ** The skeleton of a frame (the end of [frameProcessor]) *)

(** A keypoint on the screen: [{ x, y, score, index }]. *)
Record ScreenKeypoint := mkScreenKeypoint {
  sk_x : num; sk_y : num; sk_score : num; sk_index : nat
}.

Record Connection := mkConnection {
  cn_x1 : num; cn_y1 : num; cn_x2 : num; cn_y2 : num
}.

Record SkeletonData := mkSkeletonData {
  sd_keypoints : list ScreenKeypoint;
  sd_connections : list Connection;
  sd_orientation : string
}.

(** [keypointsArray]: the triples [[x, y, score]] of the smoothed buffer
    whose three values are finite, in the order of the slots. *)
Definition keypointsArray (keypoints : list num) : list (list num) :=
  flat_map
    (fun i =>
       let baseIndex := (i * 3)%nat in
       if Nat.ltb (baseIndex + 2) (List.length keypoints) then
         let normalizedX := at_index keypoints (baseIndex + 1) in
         let normalizedY := at_index keypoints baseIndex in
         let score := at_index keypoints (baseIndex + 2) in
         if isFinite normalizedX && isFinite normalizedY && isFinite score
         then [[normalizedX; normalizedY; score]]
         else []
       else [])
    (seq 0 17).

(** What the loop that fills [keypointPositions] pushes for slot [i]. *)
Definition keypointPosition (keypoints : list num) (frameWidth frameHeight
    screenWidthValue screenHeightValue : num)
    (frameOrientation cameraPosition : string) (cropRegion : CropRegion)
    (i : nat) : list ScreenKeypoint :=
  let baseIndex := (i * 3)%nat in
  if Nat.leb (List.length keypoints) (baseIndex + 2) then []
  else
    let normalizedX := at_index keypoints (baseIndex + 1) in
    let normalizedY := at_index keypoints baseIndex in
    let score := at_index keypoints (baseIndex + 2) in
    if negb (isFinite normalizedX) || negb (isFinite normalizedY)
       || negb (isFinite score)
    then []
    else if (normalizedX < lit (0 # 1))%js || (normalizedX > lit (1 # 1))%js
            || (normalizedY < lit (0 # 1))%js
            || (normalizedY > lit (1 # 1))%js
    then []
    else if (score < DETECTION_THRESHOLD)%js then []
    else
      let transformed :=
        transformKeypointToScreen normalizedX normalizedY frameWidth
          frameHeight screenWidthValue screenHeightValue frameOrientation
          cameraPosition (cropX cropRegion) (cropY cropRegion)
          (cropSize cropRegion) in
      if negb (isFinite (pt_x transformed))
         || negb (isFinite (pt_y transformed))
      then []
      else [mkScreenKeypoint (pt_x transformed) (pt_y transformed) score i].

Definition keypointPositions (keypoints : list num) (frameWidth frameHeight
    screenWidthValue screenHeightValue : num)
    (frameOrientation cameraPosition : string) (cropRegion : CropRegion)
    : list ScreenKeypoint :=
  flat_map
    (keypointPosition keypoints frameWidth frameHeight screenWidthValue
       screenHeightValue frameOrientation cameraPosition cropRegion)
    (seq 0 17).

(** [keypointMap.get(index)], the map being filled with [set(kp.index, kp)]
    in the order of [keypointPositions]: the last keypoint set under the
    index. *)
Definition keypointMap_get (keypointPositions : list ScreenKeypoint)
    (index : nat) : option ScreenKeypoint :=
  find (fun kp => Nat.eqb (sk_index kp) index) (rev keypointPositions).

Definition connections (keypointPositions : list ScreenKeypoint)
    : list Connection :=
  flat_map
    (fun conn =>
       match keypointMap_get keypointPositions (fst conn),
             keypointMap_get keypointPositions (snd conn) with
       | Some from, Some to =>
           if (sk_score from > CONNECTION_THRESHOLD)%js
              && (sk_score to > CONNECTION_THRESHOLD)%js
           then [mkConnection (sk_x from) (sk_y from) (sk_x to) (sk_y to)]
           else []
       | _, _ => []
       end)
    SKELETON_CONNECTIONS.

(** What [frameProcessor] does with the smoothed buffer [keypoints]: the
    value passed to [setSkeletonDataJS], or [None] when the processor
    returns without setting it.  An exception is caught by the [try] of the
    processor, which returns. *)
Definition skeletonDataToSet (keypoints : list num)
    (frameOrientation : string) (frameWidth frameHeight screenWidthValue
    screenHeightValue : num) (cameraPosition : string)
    : option SkeletonData :=
  if Nat.ltb (List.length keypoints) 51 then None
  else if (frameWidth <= lit (0 # 1))%js || (frameHeight <= lit (0 # 1))%js
  then None
  else
    let keypointsArray := keypointsArray keypoints in
    if Nat.eqb (List.length keypointsArray) 0 then None
    else
      match determineCropRegion keypointsArray frameWidth frameHeight with
      | Thrown => None
      | Returned cropRegion =>
          if negb (isFinite (cropX cropRegion))
             || negb (isFinite (cropY cropRegion))
             || negb (isFinite (cropSize cropRegion))
          then None
          else
            let keypointPositions :=
              keypointPositions keypoints frameWidth frameHeight
                screenWidthValue screenHeightValue frameOrientation
                cameraPosition cropRegion in
            if Nat.eqb (List.length keypointPositions) 0 then None
            else
              Some
                (mkSkeletonData keypointPositions
                   (connections keypointPositions) frameOrientation)
      end.

(** ** The effects that consume the skeleton *)

(** A store into an array at an index that it has. *)
Fixpoint array_put {A : Type} (a : list A) (i : nat) (v : A) : list A :=
  match a, i with
  | [], _ => []
  | _ :: r, O => v :: r
  | h :: r, S j => h :: array_put r j v
  end.

(** [full17Keypoints]: 17 keypoints at the origin with score 0, then the
    keypoints of the skeleton at their indices.  The stores are guarded by
    [kp.index >= 0 && kp.index < 17]. *)
Definition full17Keypoints (skeletonKeypoints : list ScreenKeypoint)
    : Pose num :=
  fold_left
    (fun full17Keypoints kp =>
       if Nat.leb 0 (sk_index kp) && Nat.ltb (sk_index kp) 17 then
         array_put full17Keypoints (sk_index kp)
           (mkKeypoint (sk_x kp) (sk_y kp) (sk_score kp))
       else full17Keypoints)
    skeletonKeypoints
    (repeat (mkKeypoint (lit (0 # 1)) (lit (0 # 1)) (lit (0 # 1))) 17).

(** The tracking effect on the skeleton of a frame; nothing is done without
    a skeleton or with an empty one. *)
Definition trackSkeleton (tracks : TrackMap num) (next : Z)
    (skeletonData : option SkeletonData) (currentTime : Z)
    : TrackMap num * Z :=
  match skeletonData with
  | None => (tracks, next)
  | Some skeletonData =>
      if Nat.eqb (List.length (sd_keypoints skeletonData)) 0 then
        (tracks, next)
      else
        trackingEffect tracks next
          (full17Keypoints (sd_keypoints skeletonData)) currentTime
  end.


(** ** Pose quality ([analyzePose]) *)

(** A message of [analyzePose]: a literal of the source (in ASCII, without
    its leading pictogram), or the message built from the user's height,
    ['Metrics: ' + userHeight + 'cm']. *)
Inductive QualityMessage :=
| QMsg (text : string)
| QMetrics (userHeight : num).

Record PoseQuality := mkPoseQuality {
  qualityScore : Z;
  status : string;
  color : string;
  messages : list QualityMessage;
  visibleKeypoints : nat;
  visibilityRatio : num;
  confidenceRatio : num
}.

(** One iteration of the first loop: [visibleKeypoints] and [scores]. *)
Definition scan_step (keypoints : list num)
    (st : list ScreenKeypoint * list num) (i : nat)
    : list ScreenKeypoint * list num :=
  let baseIndex := (i * 3)%nat in
  if Nat.leb (List.length keypoints) (baseIndex + 2) then st
  else
    let y := at_index keypoints baseIndex in
    let x := at_index keypoints (baseIndex + 1) in
    let score := at_index keypoints (baseIndex + 2) in
    (if (score > DETECTION_THRESHOLD)%js then
       fst st ++ [mkScreenKeypoint x y score i]
     else fst st,
     snd st ++ [score]).

(** [checkBodyPart(name, indices)] on [qualityScore] and [messages]. *)
Definition checkBodyPart (scores : list num) (name : string)
    (indices : list nat) (st : Z * list QualityMessage)
    : Z * list QualityMessage :=
  let visible :=
    List.length
      (filter (fun i => (at_index scores i > DETECTION_THRESHOLD)%js)
         indices) in
  let ratio := (of_nat visible / of_nat (List.length indices))%js in
  if (ratio >= lit (5 # 10))%js then ((fst st + 10)%Z, snd st)
  else
    (fst st,
     snd st
       ++ (if String.eqb name "shoulders" then [QMsg "Show shoulders"]
           else [])
       ++ (if String.eqb name "hips" then [QMsg "Show hips"] else [])
       ++ (if String.eqb name "knees" then [QMsg "Show knees"] else [])
       ++ (if String.eqb name "ankles" then [QMsg "Show ankles"] else [])).

Definition invalidKeypoints : PoseQuality :=
  mkPoseQuality 0 "poor" "#FF0000" [QMsg "Invalid keypoints"] 0
    (lit (0 # 1)) (lit (0 # 1)).

(** [keypoints] is [None] for a null or undefined argument; the values
    computed from the user's height and not used are left out. *)
Definition analyzePose (keypoints : option (list num))
    (userHeight userWeight : option num) : PoseQuality :=
  match keypoints with
  | None => invalidKeypoints
  | Some keypoints =>
      if Nat.ltb (List.length keypoints) 51 then invalidKeypoints
      else
        let '(visibleKeypoints, scores) :=
          fold_left (scan_step keypoints) (seq 0 17) ([], []) in
        let visibilityRatio :=
          (of_nat (List.length visibleKeypoints) / lit (17 # 1))%js in
        let highConfidenceCount :=
          List.length (filter (fun s => (s > HIGH_CONFIDENCE)%js) scores) in
        let confidenceRatio :=
          (of_nat highConfidenceCount / lit (17 # 1))%js in
        let st : Z * list QualityMessage := (0%Z, []) in
        let st :=
          if (visibilityRatio >= lit (8 # 10))%js then
            ((fst st + 40)%Z, snd st ++ [QMsg "Excellent body visibility"])
          else if (visibilityRatio >= lit (6 # 10))%js then
            ((fst st + 20)%Z, snd st ++ [QMsg "Good visibility"])
          else (fst st, snd st ++ [QMsg "Move to show full body"]) in
        let st :=
          if (confidenceRatio >= lit (7 # 10))%js then
            ((fst st + 30)%Z, snd st ++ [QMsg "Excellent detection"])
          else if (confidenceRatio >= lit (4 # 10))%js then
            ((fst st + 20)%Z, snd st ++ [QMsg "Good detection"])
          else (fst st, snd st ++ [QMsg "Improve lighting"]) in
        let st := checkBodyPart scores "shoulders" [5; 6]%nat st in
        let st := checkBodyPart scores "hips" [11; 12]%nat st in
        let st := checkBodyPart scores "knees" [13; 14]%nat st in
        let st := checkBodyPart scores "ankles" [15; 16]%nat st in
        let st :=
          match userHeight with
          | Some h =>
              if truthy h && (h > lit (0 # 1))%js then
                ((fst st + 5)%Z, snd st ++ [QMetrics h])
              else st
          | None => st
          end in
        let qualityScore := fst st in
        let '(status, color) :=
          (if (qualityScore >=? 80)%Z then ("excellent", "#00FF00")
           else if (qualityScore >=? 60)%Z then ("good", "#FFFF00")
           else if (qualityScore >=? 40)%Z then ("fair", "#FFA500")
           else ("poor", "#FF0000"))%string in
        mkPoseQuality qualityScore status color (firstn 3 (snd st))
          (List.length visibleKeypoints) visibilityRatio confidenceRatio
  end.

End Screen.

Arguments Outcome A : clear implicits.
Arguments Thrown {A}.
Arguments BoundingBox num : clear implicits.
Arguments CropRegion num : clear implicits.
Arguments Point num : clear implicits.
Arguments ScreenKeypoint num : clear implicits.
Arguments Connection num : clear implicits.
Arguments SkeletonData num : clear implicits.
Arguments QualityMessage num : clear implicits.
Arguments PoseQuality num : clear implicits.

Unset Implicit Arguments.

(** ** Vocabulary of the properties *)

Section Vocabulary.
Context {num : Type} `{JSNumber num}.

(** A map as the tracker keeps it: one entry per key, every track filed
    under its own identifier, every identifier below the counter. *)
Definition wf_tracks (next : Z) (m : TrackMap num) : Prop :=
  NoDup (map_keys m)
  /\ forall k v, In (k, v) m -> id v = k /\ (0 <= k < next)%Z.

(** The invariant of the loop over the detections of a frame that started
    with the keys [keys0] and the counter at [lo]. *)
Definition frame_inv (keys0 : list Z) (lo : Z) (st : FrameState num)
    : Prop :=
  (0 <= lo <= fs_next st)%Z
  /\ wf_tracks (fs_next st) (fs_tracks st)
  /\ Forall (fun i => (lo <= i < fs_next st)%Z) (fs_allocated st)
  /\ StronglySorted Z.lt (fs_allocated st)
  /\ incl (map_keys (fs_tracks st)) (keys0 ++ fs_allocated st).

(** The state of a tracker together with the identifiers it has allocated
    so far. *)
Definition tracker_inv (allocated : list Z) (m : TrackingManager num)
    : Prop :=
  (0 <= nextPersonId m)%Z
  /\ wf_tracks (nextPersonId m) (trackedPersons m)
  /\ Forall (fun i => (0 <= i < nextPersonId m)%Z) allocated
  /\ StronglySorted Z.lt allocated
  /\ incl (map_keys (trackedPersons m)) allocated.

(** A screen dimension that the guards reject: not a number, or a number
    with [n <= 0]. *)
Definition rejected_dimension (v : JSValue num) : Prop :=
  match v with
  | JSNotNumber => True
  | JSNum n => (n <= lit (0 # 1))%js = true
  end.

(** A step of the analysis that pushes at most one message and takes at
    most [p] from the score. *)
Definition one_push (p : Z) (st st' : Analysis num) : Prop :=
  (List.length (fst st') <= S (List.length (fst st)))%nat
  /\ (snd st - p <= snd st' <= snd st)%Z.

(** The messages that a call of [analyzeLiftForm] has appended to
    [feedback] when it returns, in the order of the calls of [push]: none
    when the call returns at the guard on the lift type, which builds its
    result without [feedback]. *)
Definition appended (keypoints : list num) (liftType : LiftType)
    (screenWidth screenHeight : num) (userHeight : option num)
    : list (Message num) :=
  match liftType with
  | LiftString s =>
      if String.eqb s EmptyString then []
      else fst (analysis keypoints s screenWidth screenHeight userHeight)
  | _ => []
  end.

(** The [n] most recently appended items of a list that grows at its
    end. *)
Definition most_recent {A : Type} (n : nat) (l : list A) : list A :=
  skipn (List.length l - n) l.

(** The movement types that [analyzeLiftForm] analyses: the strings that
    [toLowerCase] sends to one of the three names. *)
Definition analysed_lift (s : string) : bool :=
  String.eqb (toLowerCase s) "squat"
  || String.eqb (toLowerCase s) "bench"
  || String.eqb (toLowerCase s) "deadlift".

End Vocabulary.

(** ** Exact arithmetic: the reals with [NaN] and the infinities *)

(** This interpretation has no rounding, no underflow and no overflow.  A
    property proved on it is a property of the formulas of the code, and of
    the running code as far as its doubles follow the reals; where they do
    not, the sections on double precision show what the code returns. *)

Module Ideal.
Local Open Scope R_scope.

Inductive ereal :=
| ENaN
| EInf (negative : bool)
| EFin (r : R).

Definition Rltb (a b : R) : bool := if Rlt_dec a b then true else false.
Definition Rleb (a b : R) : bool := if Rle_dec a b then true else false.
Definition Reqb (a b : R) : bool := if Req_dec_T a b then true else false.

Definition eneg (a : ereal) : ereal :=
  match a with
  | ENaN => ENaN
  | EInf s => EInf (negb s)
  | EFin r => EFin (- r)
  end.

Definition eadd (a b : ereal) : ereal :=
  match a, b with
  | ENaN, _ | _, ENaN => ENaN
  | EInf s, EInf s' => if Bool.eqb s s' then EInf s else ENaN
  | EInf s, EFin _ => EInf s
  | EFin _, EInf s => EInf s
  | EFin x, EFin y => EFin (x + y)
  end.

Definition esub (a b : ereal) : ereal := eadd a (eneg b).

Definition emul (a b : ereal) : ereal :=
  match a, b with
  | ENaN, _ | _, ENaN => ENaN
  | EInf s, EInf s' => EInf (xorb s s')
  | EInf s, EFin r | EFin r, EInf s =>
      if Reqb r 0 then ENaN else EInf (xorb s (Rltb r 0))
  | EFin x, EFin y => EFin (x * y)
  end.

(** A zero has no sign here: a nonzero number over zero takes the sign of
    the numerator. *)
Definition ediv (a b : ereal) : ereal :=
  match a, b with
  | ENaN, _ | _, ENaN => ENaN
  | EInf _, EInf _ => ENaN
  | EInf s, EFin r => EInf (xorb s (Rltb r 0))
  | EFin _, EInf _ => EFin 0
  | EFin x, EFin y =>
      if Reqb y 0 then (if Reqb x 0 then ENaN else EInf (Rltb x 0))
      else EFin (x / y)
  end.

Definition elt (a b : ereal) : bool :=
  match a, b with
  | ENaN, _ | _, ENaN => false
  | EInf s, EInf s' => s && negb s'
  | EInf s, EFin _ => s
  | EFin _, EInf s => negb s
  | EFin x, EFin y => Rltb x y
  end.

Definition ele (a b : ereal) : bool :=
  match a, b with
  | ENaN, _ | _, ENaN => false
  | EInf s, EInf s' => s || negb s'
  | EInf s, EFin _ => s
  | EFin _, EInf s => negb s
  | EFin x, EFin y => Rleb x y
  end.

Definition eisNaN (a : ereal) : bool :=
  match a with ENaN => true | _ => false end.

Definition eisFinite (a : ereal) : bool :=
  match a with EFin _ => true | _ => false end.

Definition etruthy (a : ereal) : bool :=
  match a with
  | ENaN => false
  | EInf _ => true
  | EFin r => negb (Reqb r 0)
  end.

Definition eabs (a : ereal) : ereal :=
  match a with
  | ENaN => ENaN
  | EInf _ => EInf false
  | EFin r => EFin (Rabs r)
  end.

Definition esqrt (a : ereal) : ereal :=
  match a with
  | ENaN => ENaN
  | EInf s => if s then ENaN else EInf false
  | EFin r => if Rltb r 0 then ENaN else EFin (sqrt r)
  end.

Definition eexp (a : ereal) : ereal :=
  match a with
  | ENaN => ENaN
  | EInf s => if s then EFin 0 else EInf false
  | EFin r => EFin (exp r)
  end.

Definition emax (a b : ereal) : ereal :=
  match a, b with
  | ENaN, _ | _, ENaN => ENaN
  | _, _ => if elt a b then b else a
  end.

Definition emin (a b : ereal) : ereal :=
  match a, b with
  | ENaN, _ | _, ENaN => ENaN
  | _, _ => if elt b a then b else a
  end.

(** The angle of the point [(x, y)], in [(-PI, PI]]. *)
Definition Ratan2 (y x : R) : R :=
  if Rltb 0 x then atan (y / x)
  else if Rltb x 0 then
    (if Rltb y 0 then atan (y / x) - PI else atan (y / x) + PI)
  else if Rltb 0 y then PI / 2
  else if Rltb y 0 then - PI / 2
  else 0.

Definition eatan2 (y x : ereal) : ereal :=
  match y, x with
  | ENaN, _ | _, ENaN => ENaN
  | EInf sy, EInf sx =>
      EFin ((if sy then -1 else 1) * (if sx then 3 * PI / 4 else PI / 4))
  | EInf sy, EFin _ => EFin ((if sy then -1 else 1) * (PI / 2))
  | EFin r, EInf sx =>
      if sx then EFin (if Rltb r 0 then - PI else PI) else EFin 0
  | EFin a, EFin b => EFin (Ratan2 a b)
  end.

#[export] Instance ideal : JSNumber ereal := {|
  lit q := EFin (Q2R q);
  Infinity := EInf false;
  NaN := ENaN;
  add := eadd;
  sub := esub;
  mul := emul;
  div := ediv;
  neg := eneg;
  lt := elt;
  le := ele;
  isNaN := eisNaN;
  isFinite := eisFinite;
  truthy := etruthy;
  Math_abs := eabs;
  Math_sqrt := esqrt;
  Math_exp := eexp;
  Math_max := emax;
  Math_min := emin;
  Math_atan2 := eatan2;
  pow2 a := emul a a;
  Math_PI := EFin PI;
  Math_fround a := a
|}.

(** A keypoint with finite coordinates and score. *)
Definition kp (x y s : R) : Keypoint ereal :=
  mkKeypoint (EFin x) (EFin y) (EFin s).

(** A pose with finite coordinates and scores, from its triples
    [(x, y, score)]. *)
Definition pose (l : list (R * R * R)) : Pose ereal :=
  map (fun t => kp (fst (fst t)) (snd (fst t)) (snd t)) l.

(** *** Vocabulary of the properties in exact arithmetic *)

(** The fall-off constant of index [i], as a real. *)
Definition sigmaR (i : nat) : R :=
  match falloff (num := ereal) i with
  | EFin r => r
  | _ => 0
  end.

(** The Gaussian kernel of the similarity at index [i], for the squared
    distance [d2] and the normalising area [a]. *)
Definition gauss (a : R) (i : nat) (d2 : R) : R :=
  exp (- d2 / (2 * a * (2 * sigmaR i) * (2 * sigmaR i))).

(** The squared distance of two keypoints. *)
Definition dist2 (p q : R * R * R) : R :=
  (fst (fst p) - fst (fst q)) * (fst (fst p) - fst (fst q))
  + (snd (fst p) - snd (fst q)) * (snd (fst p) - snd (fst q)).

(** A pair of keypoints is skipped by the loop when one of the scores is
    below the threshold. *)
Definition skipped (p q : R * R * R) : bool :=
  Rltb (snd p) (3 / 10) || Rltb (snd q) (3 / 10).

(** The kernel values that the loop adds up, from index [i] on. *)
Fixpoint terms (a : R) (i : nat) (l1 l2 : list (R * R * R)) : list R :=
  match l1, l2 with
  | p :: r1, q :: r2 =>
      if skipped p q then terms a (S i) r1 r2
      else gauss a i (dist2 p q) :: terms a (S i) r1 r2
  | _, _ => []
  end.

(** The sum of a list of reals. *)
Definition Rsum (l : list R) : R := fold_right Rplus 0 l.

(** The number of keypoints of a pose with a score above the threshold. *)
Definition count_above (l : list (R * R * R)) : nat :=
  List.length (filter (fun p => Rltb (3 / 10) (snd p)) l).

(** The pose moved by the vector [(dx, dy)], scores unchanged. *)
Definition translate (dx dy : R) (l : list (R * R * R))
    : list (R * R * R) :=
  map (fun p => (fst (fst p) + dx, snd (fst p) + dy, snd p)) l.

(** The finite keypoint of a triple [(x, y, score)]. *)
Definition kp_of (p : R * R * R) : Keypoint ereal :=
  kp (fst (fst p)) (snd (fst p)) (snd p).

(** A bounding box with finite sides. *)
Definition fin_box (x0 x1 y0 y1 : R) : BBox ereal :=
  mkBBox (EFin x0) (EFin x1) (EFin y0) (EFin y1).

(** The bounding box of the loop: still the initial one, or a box with
    finite sides in the right order. *)
Definition box_ok (b : BBox ereal) : Prop :=
  b = bbox_init
  \/ exists x0 x1 y0 y1,
       b = mkBBox (EFin x0) (EFin x1) (EFin y0) (EFin y1)
       /\ x0 <= x1 /\ y0 <= y1.

(** The state of the loop of [computeKeypointArea]. *)
Definition count_box_ok (st : nat * BBox ereal) : Prop :=
  (fst st = 0%nat /\ snd st = bbox_init)
  \/ (fst st <> 0%nat
      /\ exists x0 x1 y0 y1,
           snd st = mkBBox (EFin x0) (EFin x1) (EFin y0) (EFin y1)
           /\ x0 <= x1 /\ y0 <= y1).

(** A box with finite sides inside given bounds. *)
Definition box_within (x0 x1 y0 y1 : R) (b : BBox ereal) : Prop :=
  b = bbox_init
  \/ exists a0 a1 b0 b1,
       b = fin_box a0 a1 b0 b1
       /\ x0 <= a0 /\ a0 <= a1 /\ a1 <= x1
       /\ y0 <= b0 /\ b0 <= b1 /\ b1 <= y1.

(** The value of the similarity for the area [ar] of the reference pose. *)
Definition oksR (ar : R) (l1 l2 : list (R * R * R)) : R :=
  if negb (Nat.eqb (List.length l1) (List.length l2)) then 0
  else
    let T := terms (ar + 1 / 1000000) 0 l1 l2 in
    if Nat.ltb (List.length T) 4 then 0 else Rsum T / INR (List.length T).

(** The corners of the unit square and of the square of side 1.1, every
    score 1. *)
Definition squareA : list (R * R * R) :=
  [(0, 0, 1); (1, 0, 1); (0, 1, 1); (1, 1, 1)].
Definition squareB : list (R * R * R) :=
  [(0, 0, 1); (11 / 10, 0, 1); (0, 11 / 10, 1); (11 / 10, 11 / 10, 1)].

(** The pose of the scenario: 17 keypoints at the origin with score 0. *)
Definition zeroPose : Pose ereal := pose (repeat (0, 0, 0) 17).

(** The pose of the test helper [createStationaryPerson(x, y)], with the
    score 0.8 for its random score between 0.7 and 0.9. *)
Definition stationaryPerson (x y : R) : list (R * R * R) :=
  map (fun i => (x + 5 * INR i, y + 5 * INR i, 8 / 10)) (seq 0 17).

(** [n] people on the diagonal, 1000 pixels apart. *)
Definition crowd (n : nat) : list (Pose ereal) :=
  map (fun j => pose (stationaryPerson (1000 * INR j) (1000 * INR j)))
    (seq 0 n).

End Ideal.

(** ** IEEE 754 double precision *)

Module Binary64.

Definition prec : Z := 53.
Definition emax : Z := 1024.

Definition of_Z (z : Z) : spec_float := binary_normalize prec emax z 0 false.

(** A decimal literal [n / d] with [n] and [d] below [2^53] is the correctly
    rounded quotient of two exact doubles. *)
Definition b64_lit (q : Q) : spec_float :=
  SFdiv prec emax (of_Z (Qnum q)) (of_Z (Zpos (Qden q))).

Definition b64_isNaN (a : spec_float) : bool :=
  match a with S754_nan => true | _ => false end.

Definition b64_isFinite (a : spec_float) : bool :=
  match a with
  | S754_zero _ => true
  | S754_finite _ _ _ => true
  | _ => false
  end.

Definition b64_truthy (a : spec_float) : bool :=
  match a with
  | S754_zero _ => false
  | S754_nan => false
  | _ => true
  end.

Definition b64_max (a b : spec_float) : spec_float :=
  match a, b with
  | S754_nan, _ | _, S754_nan => S754_nan
  | S754_zero sa, S754_zero sb => S754_zero (sa && sb)
  | _, _ => if SFltb a b then b else a
  end.

Definition b64_min (a b : spec_float) : spec_float :=
  match a, b with
  | S754_nan, _ | _, S754_nan => S754_nan
  | S754_zero sa, S754_zero sb => S754_zero (sa || sb)
  | _, _ => if SFltb b a then b else a
  end.

(** Rounding to single precision; the result is again written as a
    double. *)
Definition b64_fround (a : spec_float) : spec_float :=
  match a with
  | S754_finite s m e =>
      match binary_round 24 128 s m e with
      | S754_finite s' m' e' => binary_round prec emax s' m' e'
      | r => r
      end
  | _ => a
  end.

(** [Math.exp] is approximated by the implementation on the finite nonzero
    numbers, where [approx] stands for it; its other values are fixed by the
    language: [NaN] at [NaN], [+Infinity] at [+Infinity], [+0] at
    [-Infinity] and [1] at both zeros. *)
Definition b64_exp (approx : spec_float -> spec_float) (a : spec_float)
    : spec_float :=
  match a with
  | S754_nan => S754_nan
  | S754_infinity false => a
  | S754_infinity true => S754_zero false
  | S754_zero _ => of_Z 1
  | S754_finite _ _ _ => approx a
  end.

(** [Math.atan2] is left as a parameter. *)
Definition binary64 (approx_exp : spec_float -> spec_float)
    (Math_atan2 : spec_float -> spec_float -> spec_float)
    : JSNumber spec_float := {|
  lit := b64_lit;
  Infinity := S754_infinity false;
  NaN := S754_nan;
  add := SFadd prec emax;
  sub := SFsub prec emax;
  mul := SFmul prec emax;
  div := SFdiv prec emax;
  neg := SFopp;
  lt := SFltb;
  le := SFleb;
  isNaN := b64_isNaN;
  isFinite := b64_isFinite;
  truthy := b64_truthy;
  Math_abs := SFabs;
  Math_sqrt := SFsqrt prec emax;
  Math_exp := b64_exp approx_exp;
  Math_max := b64_max;
  Math_min := b64_min;
  Math_atan2 := Math_atan2;
  pow2 a := SFmul prec emax a a;
  Math_PI := b64_lit (3141592653589793 # 1000000000000000);
  Math_fround := b64_fround
|}.

(** The largest finite double, [Number.MAX_VALUE]. *)
Definition MAX_VALUE : spec_float := S754_finite false 9007199254740991 971.

Definition kp (x y s : spec_float) : Keypoint spec_float :=
  mkKeypoint x y s.

(** *** An input with very large coordinates *)

(** The double nearest to [1e200]. *)
Definition huge : spec_float := of_Z (10 ^ 200).

(** Two poses of four keypoints with score 1 and coordinates [1e200],
    [-1e200] and 0. *)
Definition hugeA : Pose spec_float :=
  [kp huge huge (of_Z 1); kp (SFopp huge) (SFopp huge) (of_Z 1);
   kp (of_Z 0) (of_Z 0) (of_Z 1); kp (of_Z 0) (of_Z 0) (of_Z 1)].
Definition hugeB : Pose spec_float :=
  [kp (SFopp huge) (SFopp huge) (of_Z 1); kp huge huge (of_Z 1);
   kp (of_Z 0) (of_Z 0) (of_Z 1); kp (of_Z 0) (of_Z 0) (of_Z 1)].

(** A keypoint whose coordinates and score are finite doubles. *)
Definition finite_keypoint (k : Keypoint spec_float) : bool :=
  b64_isFinite (kp_x k) && b64_isFinite (kp_y k)
  && b64_isFinite (kp_score k).

(** The number of keypoints of a pose whose score is above the threshold of
    the similarity, [0.3]. *)
Definition confident_count (p : Pose spec_float) : nat :=
  List.length (filter (fun k => SFltb (b64_lit (3 # 10)) (kp_score k)) p).

(** A pose moved by the vector [(dx, dy)], the scores unchanged. *)
Definition b64_translate (dx dy : spec_float) (p : Pose spec_float)
    : Pose spec_float :=
  map (fun k =>
         kp (SFadd prec emax (kp_x k) dx) (SFadd prec emax (kp_y k) dy)
           (kp_score k)) p.

(** [n] keypoints at the point [(x, y)] with score 1. *)
Definition at_point (x y : spec_float) (n : nat) : Pose spec_float :=
  repeat (kp x y (of_Z 1)) n.

(** *** Inputs on which rounding decides *)

(** The double [1 / 1e200], about [1e-200]: its square underflows to 0. *)
Definition tiny : spec_float := SFdiv prec emax (of_Z 1) huge.

(** The double nearest to [1e152]: its square, about [1e304], is finite. *)
Definition far : spec_float := of_Z (10 ^ 152).

(** Four keypoints at the origin with score 1. *)
Definition still : Pose spec_float := at_point (of_Z 0) (of_Z 0) 4.

(** A pose of six keypoints of which four are detected, all at the origin,
    and a pose whose six keypoints are detected: four at [(1e152, 0)] and
    two at [(1e200, 1e200)] and [(-1e200, -1e200)]. *)
Definition cluster : Pose spec_float :=
  at_point (of_Z 0) (of_Z 0) 4 ++ repeat (kp (of_Z 0) (of_Z 0) (of_Z 0)) 2.
Definition spread : Pose spec_float :=
  at_point far (of_Z 0) 4
  ++ [kp huge huge (of_Z 1); kp (SFopp huge) (SFopp huge) (of_Z 1)].

(** Four keypoints with score 1 on the horizontal axis, two of them at the
    largest finite double and its opposite: the width of the pose
    overflows and its height is 0. *)
Definition flat : Pose spec_float :=
  [kp MAX_VALUE (of_Z 0) (of_Z 1); kp (SFopp MAX_VALUE) (of_Z 0) (of_Z 1);
   kp (of_Z 0) (of_Z 0) (of_Z 1); kp (of_Z 0) (of_Z 0) (of_Z 1)].

End Binary64.

(** ** Vocabulary of the further properties *)

Section TrackingVocabulary.
Context {num : Type} `{JSNumber num}.

(** What a frame may do to a track that stays in the map: leave it, or give
    it the keypoints of a detection of the frame and the time of the
    frame. *)
Definition carried_on (ds : list (Pose num)) (t : Z)
    (track track' : TrackedPerson num) : Prop :=
  id track' = id track
  /\ (track' = track
      \/ (lastSeen track' = t /\ In (keypoints track') ds)).

(** A body followed from the pose [p] seen at time [t]: each later sighting
    comes less than [TRACKING_MAX_AGE] after the one before, and its
    similarity with the one before is above [TRACKING_MIN_SIMILARITY]. *)
Fixpoint followed (p : Pose num) (t : Z) (sightings : list (Pose num * Z))
    : Prop :=
  match sightings with
  | [] => True
  | s :: r =>
      (snd s - t < TRACKING_MAX_AGE)%Z
      /\ (computeOKSSimilarityJS (fst s) p > TRACKING_MIN_SIMILARITY)%js = true
      /\ followed (fst s) (snd s) r
  end.

(** The frames of a sequence of sightings, one detection each. *)
Definition sighting_frames (sightings : list (Pose num * Z))
    : list (Frame num) :=
  map (fun s => ([fst s], snd s)) sightings.

(** The number of index positions at which neither score is below the
    threshold of the similarity. *)
Definition valid_pairs (p1 p2 : Pose num) : nat :=
  List.length
    (filter
       (fun pq =>
          negb ((kp_score (fst pq) < OKS_KEYPOINT_THRESHOLD)%js
                || (kp_score (snd pq) < OKS_KEYPOINT_THRESHOLD)%js))
       (combine p1 p2)).

End TrackingVocabulary.

Section SmoothingVocabulary.
Context {num : Type} `{JSNumber num}.

(** The filter state that an iteration of the loop of [smoothKeypoints]
    stores for slot [i], given the state [last] that it finds there: the
    value of [{ x: smoothedX, y: smoothedY, score: smoothedScore, dx, dy }]. *)
Definition slot_update (keypoints : list num) (screenWidth screenHeight : num)
    (last : option (SlotState num)) (i : nat) : SlotState num :=
  let fps := (CAMERA_FPS / FRAME_SKIP_INTERVAL)%js in
  let MOVEMENT_THRESHOLD := (screenWidth * lit (1 # 100))%js in
  let baseIndex := (i * 3)%nat in
  let rawX := (at_index keypoints (baseIndex + 1) * screenWidth)%js in
  let rawY := (at_index keypoints baseIndex * screenHeight)%js in
  let rawScore := at_index keypoints (baseIndex + 2) in
  match last with
  | Some last =>
      if (rawScore > DETECTION_THRESHOLD)%js then
        let deltaX := Math_abs (rawX - slot_x last)%js in
        let deltaY := Math_abs (rawY - slot_y last)%js in
        if (deltaX < MOVEMENT_THRESHOLD)%js
           && (deltaY < MOVEMENT_THRESHOLD)%js
        then last
        else
          let vx := (rawX - slot_x last)%js in
          let vy := (rawY - slot_y last)%js in
          let speed := Math_sqrt (vx * vx + vy * vy)%js in
          let adaptiveCutoff := (MIN_CUTOFF + BETA * speed)%js in
          let alpha := smoothingFactor adaptiveCutoff fps in
          let dAlpha := smoothingFactor DERIVATE_CUTOFF fps in
          let resultX :=
            oneEuroFilter rawX (slot_x last) (slot_dx last) alpha dAlpha in
          let resultY :=
            oneEuroFilter rawY (slot_y last) (slot_dy last) alpha dAlpha in
          mkSlotState (fst resultX) (fst resultY)
            (lit (7 # 10) * rawScore + lit (3 # 10) * slot_score last)%js
            (snd resultX) (snd resultY)
      else mkSlotState rawX rawY rawScore (lit (0 # 1)) (lit (0 # 1))
  | None => mkSlotState rawX rawY rawScore (lit (0 # 1)) (lit (0 # 1))
  end.

(** The three values that the iteration writes into the result at
    [3 * i], [3 * i + 1] and [3 * i + 2]. *)
Definition slot_output (screenWidth screenHeight : num)
    (new : SlotState num) : num * num * num :=
  (Math_fround (slot_y new / screenHeight)%js,
   Math_fround (slot_x new / screenWidth)%js,
   Math_fround (slot_score new)).

End SmoothingVocabulary.

Section FormVocabulary.
Context {num : Type} `{JSNumber num}.

(** The landmark of index [i] is visible to the analysis when its score is
    above [DETECTION_THRESHOLD]. *)
Definition visible (keypoints : list num) (screenWidth screenHeight : num)
    (i : nat) : bool :=
  (kp_score (getPoint keypoints screenWidth screenHeight i)
   > DETECTION_THRESHOLD)%js.

(** One side at least of each pair of landmarks is visible. *)
Definition pairs_visible (keypoints : list num)
    (screenWidth screenHeight : num) (pairs : list (nat * nat)) : bool :=
  forallb
    (fun p =>
       visible keypoints screenWidth screenHeight (fst p)
       || visible keypoints screenWidth screenHeight (snd p))
    pairs.

End FormVocabulary.

Section SkeletonVocabulary.
Context {num : Type} `{JSNumber num}.

(** What [frameProcessor] has checked of a keypoint that it puts on the
    skeleton: it comes from slot [sk_index] of the buffer, its score is
    finite and not below [DETECTION_THRESHOLD], and its position is the
    finite point that [transformKeypointToScreen] returns for the slot. *)
Definition kept (keypoints : list num) (frameWidth frameHeight
    screenWidthValue screenHeightValue : num)
    (frameOrientation cameraPosition : string) (cropRegion : CropRegion num)
    (kp : ScreenKeypoint num) : Prop :=
  let i := sk_index kp in
  (i < 17)%nat
  /\ (i * 3 + 2 < List.length keypoints)%nat
  /\ sk_score kp = at_index keypoints (i * 3 + 2)
  /\ isFinite (sk_score kp) = true
  /\ (sk_score kp < DETECTION_THRESHOLD)%js = false
  /\ isFinite (sk_x kp) = true
  /\ isFinite (sk_y kp) = true
  /\ mkPoint (sk_x kp) (sk_y kp)
     = transformKeypointToScreen (at_index keypoints (i * 3 + 1))
         (at_index keypoints (i * 3)) frameWidth frameHeight
         screenWidthValue screenHeightValue frameOrientation cameraPosition
         (cropX cropRegion) (cropY cropRegion) (cropSize cropRegion).

(** A connection that joins two keypoints of the list along a bone of
    [SKELETON_CONNECTIONS]. *)
Definition joins (keypointPositions : list (ScreenKeypoint num))
    (c : Connection num) : Prop :=
  exists from to,
    In from keypointPositions /\ In to keypointPositions
    /\ In (sk_index from, sk_index to) SKELETON_CONNECTIONS
    /\ c = mkConnection (sk_x from) (sk_y from) (sk_x to) (sk_y to).

(** The tracking effect over the successive values of [skeletonData], each
    with the time at which the effect runs. *)
Definition trackSkeletons (events : list (option (SkeletonData num) * Z))
    (st : TrackMap num * Z) : TrackMap num * Z :=
  fold_left
    (fun st e => trackSkeleton (fst st) (snd st) (fst e) (snd e)) events st.

End SkeletonVocabulary.

Section QualityVocabulary.
Context {num : Type} `{JSNumber num}.

(** The score of slot [i] of a buffer. *)
Definition score_of (keypoints : list num) (i : nat) : num :=
  at_index keypoints (i * 3 + 2).

(** The slots whose score is above [DETECTION_THRESHOLD], and those whose
    score is above [HIGH_CONFIDENCE]. *)
Definition visible_slots (keypoints : list num) : list nat :=
  filter (fun i => (score_of keypoints i > DETECTION_THRESHOLD)%js)
    (seq 0 17).

Definition high_slots (keypoints : list num) : list nat :=
  filter (fun i => (score_of keypoints i > HIGH_CONFIDENCE)%js) (seq 0 17).

(** One at least of the slots [indices] is visible. *)
Definition part_shown (keypoints : list num) (indices : list nat) : bool :=
  existsb (fun i => (score_of keypoints i > DETECTION_THRESHOLD)%js) indices.

(** The points that [analyzePose] gives for the user's height. *)
Definition height_points (userHeight : option num) : Z :=
  match userHeight with
  | Some h => if truthy h && (h > lit (0 # 1))%js then 5%Z else 0%Z
  | None => 0%Z
  end.

(** The status that goes with a quality score. *)
Definition status_of (qualityScore : Z) : string :=
  if (qualityScore >=? 80)%Z then "excellent"
  else if (qualityScore >=? 60)%Z then "good"
  else if (qualityScore >=? 40)%Z then "fair"
  else "poor".

End QualityVocabulary.
(** *** Exact arithmetic *)

Section IdealVocabulary.
Import Ideal.
Local Open Scope R_scope.

(** Two boxes of the area loops, the second being the first moved by
    [(dx, dy)]: both still the initial box, or both with finite sides. *)
Definition box_shifted (dx dy : R) (b b' : BBox ereal) : Prop :=
  (b = bbox_init /\ b' = bbox_init)
  \/ exists x0 x1 y0 y1,
       b = fin_box x0 x1 y0 y1
       /\ b' = fin_box (x0 + dx) (x1 + dx) (y0 + dy) (y1 + dy).

(** The filter state of slot [i] read off a buffer of finite values: the
    position in pixels, the score, no velocity. *)
Definition raw_slot (k : list R) (W Hh : R) (i : nat) : SlotState ereal :=
  mkSlotState (EFin (nth (i * 3 + 1) k 0 * W)) (EFin (nth (i * 3) k 0 * Hh))
    (EFin (nth (i * 3 + 2) k 0)) (lit (0 # 1)) (lit (0 # 1)).

(** A keypoint array [[x, y, score]] of finite values, and the array of
    those of a list of triples. *)
Definition triple_array (p : R * R * R) : list ereal :=
  [EFin (fst (fst p)); EFin (snd (fst p)); EFin (snd p)].

Definition arrays (l : list (R * R * R)) : list (list ereal) :=
  map triple_array l.

(** The box [[x0, x1] x [y0, y1]] is the bounding box of the keypoints of
    [l] whose score is at least [thr]: it holds them all, and each of its
    sides passes through one of them. *)
Definition tight_box (thr : R) (l : list (R * R * R)) (x0 x1 y0 y1 : R)
    : Prop :=
  (forall p, In p l -> thr <= snd p ->
     x0 <= fst (fst p) <= x1 /\ y0 <= snd (fst p) <= y1)
  /\ (exists p, In p l /\ thr <= snd p /\ fst (fst p) = x0)
  /\ (exists p, In p l /\ thr <= snd p /\ fst (fst p) = x1)
  /\ (exists p, In p l /\ thr <= snd p /\ snd (fst p) = y0)
  /\ (exists p, In p l /\ thr <= snd p /\ snd (fst p) = y1).

(** The state of the loop of [calculateBoundingBox] after the keypoints
    [seen]. *)
Definition bbox_state (thr : R) (seen : list (R * R * R))
    (st : BBox ereal * bool) : Prop :=
  (snd st = false /\ fst st = bbox_init
   /\ forall p, In p seen -> snd p < thr)
  \/ (snd st = true
      /\ exists x0 x1 y0 y1,
           fst st = fin_box x0 x1 y0 y1 /\ tight_box thr seen x0 x1 y0 y1).

(** The smallest and the largest of four reals. *)
Definition Rmin4 (a b c d : R) : R := Rmin (Rmin (Rmin a b) c) d.
Definition Rmax4 (a b c d : R) : R := Rmax (Rmax (Rmax a b) c) d.

(** The triples [(x, y, score)] of the 17 slots of a buffer. *)
Definition slots (k : list R) : list (R * R * R) :=
  map (fun i => (nth (i * 3 + 1) k 0, nth (i * 3) k 0, nth (i * 3 + 2) k 0))
    (seq 0 17).

(** Slot [i] of the buffer has a score that is not below
    [DETECTION_THRESHOLD]. *)
Definition confident (k : list R) (i : nat) : bool :=
  negb (Rltb (nth (i * 3 + 2) k 0) (3 / 10)).

End IdealVocabulary.

(** * Properties *)

(** ** The track map *)

Section TrackMapFacts.
Context {num : Type} `{JSNumber num}.

Lemma map_get_in (k : Z) (m : TrackMap num) (v : TrackedPerson num) :
  map_get k m = Some v -> In (k, v) m.
Proof.
  induction m as [|[k' v'] r IH]; simpl; [discriminate|].
  destruct (Z.eqb_spec k k') as [->|Hne]; intros E.
  - injection E as ->. now left.
  - right. now apply IH.
Qed.

Lemma map_get_first (k : Z) (m : TrackMap num) (v : TrackedPerson num) :
  NoDup (map_keys m) -> In (k, v) m -> map_get k m = Some v.
Proof.
  induction m as [|[k' v'] r IH]; simpl; [contradiction|].
  intros ND [E|Hin].
  - injection E as -> ->. now rewrite Z.eqb_refl.
  - inversion ND as [|? ? Hnot ND']; subst.
    destruct (Z.eqb_spec k k') as [->|Hne].
    + exfalso. apply Hnot. change k' with (fst (k', v)).
      now apply in_map.
    + now apply IH.
Qed.

Lemma map_set_keys_in (k : Z) (v : TrackedPerson num) (m : TrackMap num) :
  In k (map_keys m) -> map_keys (map_set k v m) = map_keys m.
Proof.
  induction m as [|[k' v'] r IH]; simpl; [contradiction|].
  destruct (Z.eqb_spec k k') as [->|Hne]; simpl; [reflexivity|].
  intros [E|Hin]; [congruence|]. now rewrite IH.
Qed.

Lemma map_set_keys_fresh (k : Z) (v : TrackedPerson num) (m : TrackMap num) :
  ~ In k (map_keys m) -> map_keys (map_set k v m) = map_keys m ++ [k].
Proof.
  induction m as [|[k' v'] r IH]; simpl; [reflexivity|].
  intros Hnot. destruct (Z.eqb_spec k k') as [->|Hne]; simpl.
  - exfalso. apply Hnot. now left.
  - rewrite IH; [reflexivity|]. intros Hin. apply Hnot. now right.
Qed.

Lemma map_set_in (k : Z) (v : TrackedPerson num) (m : TrackMap num)
    (k' : Z) (v' : TrackedPerson num) :
  In (k', v') (map_set k v m) -> (k' = k /\ v' = v) \/ In (k', v') m.
Proof.
  induction m as [|[k0 v0] r IH]; simpl.
  - intros [E|[]]. injection E as <- <-. now left.
  - destruct (Z.eqb_spec k k0) as [->|Hne]; simpl.
    + intros [E|Hin]; [injection E as <- <-; now left|right; now right].
    + intros [E|Hin]; [right; now left|].
      destruct (IH Hin) as [?|?]; [now left|right; now right].
Qed.

Lemma map_set_length_fresh (k : Z) (v : TrackedPerson num)
    (m : TrackMap num) :
  ~ In k (map_keys m) -> List.length (map_set k v m) = S (List.length m).
Proof.
  intros Hnot.
  rewrite <- (length_map fst (map_set k v m)).
  change (map fst (map_set k v m)) with (map_keys (map_set k v m)).
  rewrite (map_set_keys_fresh _ _ _ Hnot), length_app. unfold map_keys.
  rewrite length_map. simpl. lia.
Qed.

Lemma wf_tracks_mono (next next' : Z) (m : TrackMap num) :
  (next <= next')%Z -> wf_tracks next m -> wf_tracks next' m.
Proof.
  intros Hle [ND Hall]. split; [exact ND|].
  intros k v Hin. destruct (Hall k v Hin). split; [assumption|lia].
Qed.

Lemma wf_tracks_fresh (next : Z) (m : TrackMap num) :
  wf_tracks next m -> ~ In next (map_keys m).
Proof.
  intros [_ Hall] Hin. apply in_map_iff in Hin as [[k v] [E Hin]].
  simpl in E. subst k. destruct (Hall next v Hin). lia.
Qed.

Lemma wf_tracks_update (next k : Z) (m : TrackMap num)
    (track : TrackedPerson num) (t : Z) (p : Pose num) :
  wf_tracks next m -> map_get k m = Some track ->
  wf_tracks next (map_set k (mkTrackedPerson (id track) t p) m).
Proof.
  intros [ND Hall] Hget. pose proof (map_get_in _ _ _ Hget) as Hin.
  split.
  - rewrite map_set_keys_in; [exact ND|].
    change k with (fst (k, track)). now apply in_map.
  - intros k' v' Hin'. apply map_set_in in Hin' as [[-> ->]|Hin'].
    + simpl. exact (Hall _ _ Hin).
    + exact (Hall _ _ Hin').
Qed.

Lemma wf_tracks_create (next : Z) (m : TrackMap num) (t : Z)
    (p : Pose num) :
  (0 <= next)%Z -> wf_tracks next m ->
  wf_tracks (next + 1) (map_set next (mkTrackedPerson next t p) m).
Proof.
  intros Hpos Hwf. pose proof (wf_tracks_fresh _ _ Hwf) as Hfresh.
  destruct Hwf as [ND Hall]. split.
  - rewrite map_set_keys_fresh by assumption.
    apply NoDup_app; [exact ND|repeat constructor; intros []|].
    intros a Ha [<-|[]]. now apply Hfresh.
  - intros k' v' Hin'. apply map_set_in in Hin' as [[-> ->]|Hin'].
    + simpl. split; [reflexivity|lia].
    + destruct (Hall _ _ Hin'). split; [assumption|lia].
Qed.

Lemma wf_tracks_age_out (next t : Z) (m : TrackMap num) :
  wf_tracks next m -> wf_tracks next (age_out t m).
Proof.
  intros [ND Hall]. split.
  - unfold age_out, map_keys. clear Hall.
    induction m as [|[k v] r IH]; simpl; [constructor|].
    inversion ND as [|? ? Hnot ND']; subst.
    destruct (negb _); simpl; [|now apply IH].
    constructor; [|now apply IH].
    intros Hin. apply Hnot. apply in_map_iff in Hin as [e [E Hin]].
    apply filter_In in Hin as [Hin _]. apply in_map_iff. now exists e.
  - intros k v Hin. apply filter_In in Hin as [Hin _]. now apply Hall.
Qed.

End TrackMapFacts.

(** ** One frame of the tracker *)

Section TrackerFacts.
Context {num : Type} `{JSNumber num}.

(** What one detection does to the state of the frame: nothing, the update
    of a track of the map, or the creation of a track under the current
    value of the counter. *)
Lemma detection_step_cases (t : Z) (act : list Z) (st : FrameState num)
    (d : Pose num) :
  detection_step t act st d = st
  \/ (exists k track,
        map_get k (fs_tracks st) = Some track
        /\ detection_step t act st d =
           mkFrameState
             (map_set k (mkTrackedPerson (id track) t d) (fs_tracks st))
             (fs_next st) (k :: fs_matched st) (fs_allocated st))
  \/ detection_step t act st d =
     mkFrameState
       (map_set (fs_next st) (mkTrackedPerson (fs_next st) t d)
          (fs_tracks st))
       (fs_next st + 1) (fs_matched st) (fs_allocated st ++ [fs_next st]).
Proof.
  unfold detection_step.
  destruct (_ >=? 0)%Z.
  - destruct (map_get _ (fs_tracks st)) as [track|] eqn:E.
    + right; left. now exists (fst (best_match (fs_tracks st) act
                                     (fs_matched st) d)), track.
    + now left.
  - destruct (Nat.ltb _ _); [right; now right|now left].
Qed.

Lemma sorted_snoc (l : list Z) (x : Z) :
  StronglySorted Z.lt l -> Forall (fun i => (i < x)%Z) l ->
  StronglySorted Z.lt (l ++ [x]).
Proof.
  induction 1 as [|a l Hs IH Ha]; intros Hall; simpl.
  - repeat constructor.
  - inversion Hall; subst. constructor; [now apply IH|].
    apply Forall_app. split; [assumption|now repeat constructor].
Qed.

Lemma sorted_app (l1 l2 : list Z) :
  StronglySorted Z.lt l1 -> StronglySorted Z.lt l2 ->
  (forall a b, In a l1 -> In b l2 -> (a < b)%Z) ->
  StronglySorted Z.lt (l1 ++ l2).
Proof.
  induction 1 as [|a l Hs IH Ha]; intros H2 Hlt; simpl; [assumption|].
  constructor.
  - apply IH; [assumption|]. intros x y Hx Hy. apply Hlt; [now right|easy].
  - apply Forall_app. split; [assumption|].
    apply Forall_forall. intros y Hy. apply Hlt; [now left|easy].
Qed.

Lemma detection_step_inv (keys0 : list Z) (lo t : Z) (act : list Z)
    (st : FrameState num) (d : Pose num) :
  frame_inv keys0 lo st -> frame_inv keys0 lo (detection_step t act st d).
Proof.
  intros (Hlo & Hwf & Hrange & Hsorted & Hincl).
  destruct (detection_step_cases t act st d)
    as [->|[(k & track & Hget & ->)| ->]].
  - exact (conj Hlo (conj Hwf (conj Hrange (conj Hsorted Hincl)))).
  - refine (conj _ (conj _ (conj _ (conj _ _)))); simpl; try assumption.
    + now apply wf_tracks_update.
    + rewrite map_set_keys_in; [assumption|].
      change k with (fst (k, track)). apply in_map.
      now apply map_get_in.
  - refine (conj _ (conj _ (conj _ (conj _ _)))); simpl.
    + lia.
    + apply wf_tracks_create; [lia|assumption].
    + apply Forall_app. split.
      * eapply Forall_impl; [|exact Hrange]. simpl. intros; lia.
      * repeat constructor; lia.
    + apply sorted_snoc; [assumption|].
      eapply Forall_impl; [|exact Hrange]. simpl. intros; lia.
    + rewrite map_set_keys_fresh by now apply wf_tracks_fresh.
      intros a Ha. apply in_app_or in Ha as [Ha|[<-|[]]].
      * apply Hincl in Ha. apply in_app_or in Ha as [Ha|Ha].
        -- apply in_or_app. now left.
        -- apply in_or_app. right. apply in_or_app. now left.
      * apply in_or_app. right. apply in_or_app. right. now left.
Qed.

Lemma frame_loop_inv (m : TrackingManager num) (ds : list (Pose num))
    (t : Z) :
  (0 <= nextPersonId m)%Z ->
  wf_tracks (nextPersonId m) (trackedPersons m) ->
  frame_inv (map_keys (trackedPersons m)) (nextPersonId m)
    (frame_loop m ds t).
Proof.
  intros Hpos Hwf. unfold frame_loop.
  set (act := map fst _).
  assert (Hinit : frame_inv (map_keys (trackedPersons m)) (nextPersonId m)
                    (mkFrameState (trackedPersons m) (nextPersonId m) [] [])).
  { refine (conj _ (conj _ (conj _ (conj _ _)))); simpl.
    - lia.
    - assumption.
    - constructor.
    - constructor.
    - rewrite app_nil_r. apply incl_refl. }
  revert Hinit. generalize (mkFrameState (trackedPersons m)
                              (nextPersonId m) [] []).
  induction ds as [|d r IH]; intros st Hst; simpl; [assumption|].
  apply IH. now apply detection_step_inv.
Qed.

(** After the sweep of a frame, no track of the map is [TRACKING_MAX_AGE]
    old or older. *)
Lemma age_out_fresh (t : Z) (m : TrackMap num) (k : Z)
    (v : TrackedPerson num) :
  In (k, v) (age_out t m) -> (t - lastSeen v < TRACKING_MAX_AGE)%Z.
Proof.
  intros Hin. apply filter_In in Hin as [_ Hkeep]. simpl in Hkeep.
  apply negb_true_iff in Hkeep. rewrite Z.geb_leb in Hkeep.
  apply Z.leb_gt in Hkeep. exact Hkeep.
Qed.

Lemma age_out_keys (t : Z) (m : TrackMap num) :
  incl (map_keys (age_out t m)) (map_keys m).
Proof.
  intros k Hin. apply in_map_iff in Hin as [e [E Hin]].
  apply filter_In in Hin as [Hin _]. apply in_map_iff. now exists e.
Qed.

Lemma tracker_inv_new : tracker_inv (num := num) [] newTrackingManager.
Proof.
  refine (conj _ (conj _ (conj _ (conj _ _)))); simpl.
  - lia.
  - split; [constructor|intros k v []].
  - constructor.
  - constructor.
  - apply incl_refl.
Qed.

Lemma procesFrame_inv (allocated : list Z) (m : TrackingManager num)
    (ds : list (Pose num)) (t : Z) :
  tracker_inv allocated m ->
  tracker_inv (allocated ++ allocatedBy m ds t) (procesFrame m ds t).
Proof.
  intros (Hpos & Hwf & Hrange & Hsorted & Hincl).
  destruct (frame_loop_inv m ds t Hpos Hwf)
    as (Hlo & Hwf' & Hrange' & Hsorted' & Hincl').
  unfold procesFrame, allocatedBy.
  refine (conj _ (conj _ (conj _ (conj _ _)))); simpl.
  - lia.
  - now apply wf_tracks_age_out.
  - apply Forall_app. split.
    + eapply Forall_impl; [|exact Hrange]. simpl. intros; lia.
    + eapply Forall_impl; [|exact Hrange']. simpl. intros; lia.
  - apply sorted_app; try assumption.
    intros a b Ha Hb.
    rewrite Forall_forall in Hrange, Hrange'.
    specialize (Hrange a Ha). specialize (Hrange' b Hb). simpl in *. lia.
  - intros k Hk. apply age_out_keys in Hk. apply Hincl' in Hk.
    apply in_app_or in Hk as [Hk|Hk]; apply in_or_app; [left|now right].
    now apply Hincl.
Qed.

Lemma run_inv (frames : list (Frame num)) (allocated : list Z)
    (m : TrackingManager num) :
  tracker_inv allocated m ->
  tracker_inv (allocated ++ allocatedIn m frames) (run m frames).
Proof.
  revert allocated m.
  induction frames as [|[ds t] r IH]; intros allocated m Hinv; simpl.
  - now rewrite app_nil_r.
  - rewrite app_assoc. apply IH. now apply procesFrame_inv.
Qed.

Lemma run_snoc (m : TrackingManager num) (frames : list (Frame num))
    (ds : list (Pose num)) (t : Z) :
  run m (frames ++ [(ds, t)]) = procesFrame (run m frames) ds t.
Proof. unfold run. now rewrite fold_left_app. Qed.

End TrackerFacts.

(** ** The tracker over a run *)

Section TrackerClaims.
Context {num : Type} `{JSNumber num}.

(** C7.  In every run of a new tracker (no [reset]), after each call of
    [procesFrame] every track left in the map was seen less than
    [TRACKING_MAX_AGE] ago, so a track without a matching detection for that
    long is gone; the identifiers allocated during the run, in the order of
    their allocation, are strictly increasing, so none is allocated twice;
    the live tracks have pairwise distinct identifiers, each of them an
    allocated one and the key of its entry. *)
Theorem tracker_age_out_and_fresh_ids (frames : list (Frame num))
    (ds : list (Pose num)) (t : Z) :
  let history := frames ++ [(ds, t)] in
  let m := run newTrackingManager history in
  (forall k track,
     In (k, track) (getTracks m) ->
     (t - lastSeen track < TRACKING_MAX_AGE)%Z)
  /\ StronglySorted Z.lt (allocatedIn newTrackingManager history)
  /\ NoDup (map id (map_values (getTracks m)))
  /\ (forall k track,
        In (k, track) (getTracks m) ->
        id track = k
        /\ In (id track) (allocatedIn newTrackingManager history)).
Proof.
  intros history m.
  destruct (run_inv history [] newTrackingManager tracker_inv_new)
    as (Hpos & [ND Hall] & Hrange & Hsorted & Hincl).
  simpl in Hsorted, Hincl. fold m in ND, Hall, Hincl.
  assert (Hkey : forall k track,
            In (k, track) (getTracks m) -> id track = k).
  { intros k track Hin. now destruct (Hall k track Hin). }
  split; [|split; [exact Hsorted|split]].
  - intros k track Hin. unfold m, history in Hin.
    rewrite run_snoc in Hin. now apply age_out_fresh in Hin.
  - unfold getTracks, map_values.
    replace (map id (map snd (trackedPersons m)))
      with (map_keys (trackedPersons m)); [exact ND|].
    unfold map_keys. rewrite map_map. apply map_ext_in.
    intros [k v] Hin. simpl. symmetry. now apply Hkey.
  - intros k track Hin. split; [now apply Hkey|].
    apply Hincl. rewrite (Hkey k track Hin).
    change k with (fst (k, track)). apply in_map. exact Hin.
Qed.

(** With no active track when the frame starts, every detection opens a
    track: the test against [TRACKING_MAX_PERSONS] reads the number of
    tracks that were active before the frame. *)
Lemma detection_step_no_active (t : Z) (st : FrameState num)
    (d : Pose num) :
  detection_step t [] st d =
  mkFrameState
    (map_set (fs_next st) (mkTrackedPerson (fs_next st) t d) (fs_tracks st))
    (fs_next st + 1) (fs_matched st) (fs_allocated st ++ [fs_next st]).
Proof. reflexivity. Qed.

Lemma frame_loop_no_active (t : Z) (ds : list (Pose num))
    (st : FrameState num) :
  (0 <= fs_next st)%Z ->
  wf_tracks (fs_next st) (fs_tracks st) ->
  (forall k v, In (k, v) (fs_tracks st) -> lastSeen v = t) ->
  let st' := fold_left (detection_step t []) ds st in
  List.length (fs_tracks st') = (List.length (fs_tracks st) + List.length ds)%nat
  /\ fs_next st' = (fs_next st + Z.of_nat (List.length ds))%Z
  /\ (forall k v, In (k, v) (fs_tracks st') -> lastSeen v = t).
Proof.
  revert st. induction ds as [|d r IH]; intros st Hpos Hwf Hseen.
  - simpl. repeat split; [lia|lia|assumption].
  - cbn [fold_left]. rewrite detection_step_no_active.
    set (st1 := mkFrameState _ _ _ _).
    destruct (IH st1) as (Hlen & Hnext & Hseen').
    + simpl. lia.
    + simpl. now apply wf_tracks_create.
    + simpl. intros k v Hin. apply map_set_in in Hin as [[-> ->]|Hin].
      * reflexivity.
      * now apply (Hseen k v).
    + cbv zeta. rewrite Hlen, Hnext. simpl fs_tracks. simpl fs_next.
      rewrite map_set_length_fresh by now apply wf_tracks_fresh.
      cbn [List.length]. repeat split; [lia|lia|assumption].
Qed.

Lemma age_out_all_fresh (t : Z) (m : TrackMap num) :
  (forall k v, In (k, v) m -> lastSeen v = t) -> age_out t m = m.
Proof.
  induction m as [|[k v] r IH]; intros Hseen; simpl; [reflexivity|].
  rewrite (Hseen k v) by now left.
  rewrite Z.sub_diag. simpl. f_equal. apply IH.
  intros k' v' Hin. apply (Hseen k' v'). now right.
Qed.

(** The first frame of a new tracker opens one track per detection,
    however many there are. *)
Lemma procesFrame_first_frame (ds : list (Pose num)) (t : Z) :
  List.length (getTracks (procesFrame newTrackingManager ds t))
  = List.length ds.
Proof.
  unfold getTracks, procesFrame, frame_loop. simpl.
  destruct (frame_loop_no_active t ds (mkFrameState [] 0%Z [] []))
    as (Hlen & _ & Hseen).
  - simpl. lia.
  - split; [constructor|intros k v []].
  - intros k v [].
  - rewrite age_out_all_fresh by exact Hseen. exact Hlen.
Qed.

(** The best match of the tracking effect, which walks the active tracks
    themselves, is that of [procesFrame] with nothing matched yet. *)
Lemma best_match_entries (tracks active : TrackMap num) (d : Pose num)
    (best : Z * num) :
  (forall e, In e active -> map_get (fst e) tracks = Some (snd e)) ->
  fold_left (best_step tracks [] d) (map fst active) best
  = fold_left
      (fun (best : Z * num) (e : Z * TrackedPerson num) =>
         let similarity := computeOKSSimilarityJS d (keypoints (snd e)) in
         if (similarity > snd best)%js then (id (snd e), similarity)
         else best)
      active best.
Proof.
  revert best. induction active as [|e r IH]; intros best Hget;
    [reflexivity|].
  cbn [map fold_left]. unfold best_step at 2.
  rewrite (Hget e) by now left. cbn [existsb].
  apply IH. intros e' He'. apply Hget. now right.
Qed.

(** The tracking effect of the screen is [procesFrame] on a frame with one
    detection: what is proved of the runs of [procesFrame] holds for the
    effect. *)
Lemma trackingEffect_procesFrame (m : TrackingManager num) (d : Pose num)
    (t : Z) :
  wf_tracks (nextPersonId m) (trackedPersons m) ->
  trackingEffect (trackedPersons m) (nextPersonId m) d t
  = (trackedPersons (procesFrame m [d] t),
     nextPersonId (procesFrame m [d] t)).
Proof.
  intros [ND Hall].
  unfold trackingEffect, procesFrame, frame_loop. cbn [fold_left].
  unfold detection_step, best_match.
  cbn [fs_tracks fs_next fs_matched fs_allocated].
  set (active := filter (fun e => is_active t (snd e)) (trackedPersons m)).
  rewrite (best_match_entries (trackedPersons m) active d).
  - rewrite length_map.
    destruct (fold_left _ active _) as [bestTrackId bestSimilarity].
    cbn [fst].
    destruct (bestTrackId >=? 0)%Z.
    + now destruct (map_get bestTrackId (trackedPersons m)).
    + now destruct (Nat.ltb _ _).
  - intros [k v] Hin. apply filter_In in Hin as [Hin _].
    now apply map_get_first.
Qed.

End TrackerClaims.

(** ** The guards of [smoothKeypoints] *)

Section SmoothingClaims.
Context {num : Type} `{JSNumber num}.

(** C5, as the code has it.  When the raw buffer has fewer than 51 values
    the call returns a new buffer of 51 zeros; when the buffer is long
    enough and a screen dimension is not a number or not positive, it
    returns the values of the input, converted to a [Float32Array]; in both
    cases the filter state is left as it was, and the call returns. *)
Theorem smoothKeypoints_guards (keypoints : list num)
    (lastKeypoints : LastKeypoints num) (screenWidth screenHeight : JSValue num) :
  (List.length keypoints < 51)%nat
  \/ rejected_dimension screenWidth \/ rejected_dimension screenHeight ->
  smoothKeypoints (Some keypoints) lastKeypoints screenWidth screenHeight
  = (if Nat.ltb (List.length keypoints) 51 then zeros 51
     else float32_copy keypoints,
     lastKeypoints).
Proof.
  intros Hguard. unfold smoothKeypoints.
  destruct (Nat.ltb_spec (List.length keypoints) 51) as [Hshort|Hlong];
    [reflexivity|].
  destruct Hguard as [Hlt|Hdim]; [lia|].
  destruct screenWidth as [w|], screenHeight as [h|]; try reflexivity.
  simpl in Hdim.
  destruct Hdim as [-> | ->]; [reflexivity|].
  now rewrite orb_true_r.
Qed.

(** A null or undefined buffer gives the buffer of zeros as well. *)
Lemma smoothKeypoints_null (lastKeypoints : LastKeypoints num)
    (screenWidth screenHeight : JSValue num) :
  smoothKeypoints None lastKeypoints screenWidth screenHeight
  = (zeros 51, lastKeypoints).
Proof. reflexivity. Qed.

End SmoothingClaims.

(** ** The result of [analyzeLiftForm] *)

Section FormClaims.
Context {num : Type} `{JSNumber num}.

Ltac split_branches :=
  repeat match goal with
         | |- context [match ?o with Some _ => _ | None => _ end] =>
             destruct o
         | |- context [if ?b then _ else _] => destruct b
         end.

Ltac one_push_tac :=
  unfold one_push, push; split_branches; simpl;
  rewrite ?length_app; simpl; lia.

Lemma squat_depth_push L uh st : one_push 20 st (squat_depth L uh st).
Proof. unfold squat_depth. one_push_tac. Qed.

Lemma squat_knees_push L st : one_push 15 st (squat_knees L st).
Proof. unfold squat_knees. one_push_tac. Qed.

Lemma squat_hipAngle_push L st : one_push 15 st (squat_hipAngle L st).
Proof. unfold squat_hipAngle. one_push_tac. Qed.

Lemma squat_kneeAngle_push L st : one_push 10 st (squat_kneeAngle L st).
Proof. unfold squat_kneeAngle. one_push_tac. Qed.

Lemma bench_elbowAngle_push L e w st :
  one_push 15 st (bench_elbowAngle L e w st).
Proof. unfold bench_elbowAngle. one_push_tac. Qed.

Lemma bench_barPath_push L w st : one_push 15 st (bench_barPath L w st).
Proof. unfold bench_barPath. one_push_tac. Qed.

Lemma bench_wrists_push L e w st : one_push 10 st (bench_wrists L e w st).
Proof. unfold bench_wrists. one_push_tac. Qed.

Lemma bench_symmetry_push L st : one_push 10 st (bench_symmetry L st).
Proof. unfold bench_symmetry. one_push_tac. Qed.

Lemma deadlift_hips_push L st : one_push 20 st (deadlift_hips L st).
Proof. unfold deadlift_hips. one_push_tac. Qed.

Lemma deadlift_back_push L st : one_push 25 st (deadlift_back L st).
Proof. unfold deadlift_back. one_push_tac. Qed.

Lemma deadlift_lockout_push L h st :
  one_push 0 st (deadlift_lockout L h st).
Proof. unfold deadlift_lockout. one_push_tac. Qed.

Lemma deadlift_shoulders_push L st :
  one_push 10 st (deadlift_shoulders L st).
Proof. unfold deadlift_shoulders. one_push_tac. Qed.

(** No branch of the analysis pushes more than four messages, and none
    takes more than 60 from the score of 100. *)
Lemma analysis_bounds (keypoints : list num) (s : string)
    (screenWidth screenHeight : num) (userHeight : option num) :
  let st := analysis keypoints s screenWidth screenHeight userHeight in
  (List.length (fst st) <= 4)%nat /\ (40 <= snd st <= 100)%Z.
Proof.
  unfold analysis.
  set (L := landmarks keypoints screenWidth screenHeight).
  set (st0 := (([] : list (Message num)), 100%Z)).
  destruct (String.eqb _ "squat"); [|destruct (String.eqb _ "bench");
    [|destruct (String.eqb _ "deadlift")]].
  - unfold analyze_squat. destruct (_ && _).
    + pose proof (squat_depth_push L userHeight st0) as [A1 B1].
      pose proof (squat_knees_push L (squat_depth L userHeight st0))
        as [A2 B2].
      pose proof (squat_hipAngle_push L
                    (squat_knees L (squat_depth L userHeight st0)))
        as [A3 B3].
      pose proof (squat_kneeAngle_push L
                    (squat_hipAngle L
                       (squat_knees L (squat_depth L userHeight st0))))
        as [A4 B4].
      simpl in A1, B1. cbv zeta. lia.
    + simpl. lia.
  - unfold analyze_bench.
    set (e := getBilateralPoint (leftElbow L) (rightElbow L)).
    set (w := getBilateralPoint (leftWrist L) (rightWrist L)).
    destruct (_ && _).
    + pose proof (bench_elbowAngle_push L e w st0) as [A1 B1].
      pose proof (bench_barPath_push L w (bench_elbowAngle L e w st0))
        as [A2 B2].
      pose proof (bench_wrists_push L e w
                    (bench_barPath L w (bench_elbowAngle L e w st0)))
        as [A3 B3].
      pose proof (bench_symmetry_push L
                    (bench_wrists L e w
                       (bench_barPath L w (bench_elbowAngle L e w st0))))
        as [A4 B4].
      simpl in A1, B1. cbv zeta. lia.
    + simpl. lia.
  - unfold analyze_deadlift. destruct (_ && _).
    + pose proof (deadlift_hips_push L st0) as [A1 B1].
      pose proof (deadlift_back_push L (deadlift_hips L st0)) as [A2 B2].
      pose proof (deadlift_lockout_push L screenHeight
                    (deadlift_back L (deadlift_hips L st0))) as [A3 B3].
      pose proof (deadlift_shoulders_push L
                    (deadlift_lockout L screenHeight
                       (deadlift_back L (deadlift_hips L st0))))
        as [A4 B4].
      simpl in A1, B1. cbv zeta. lia.
    + simpl. lia.
  - simpl. lia.
Qed.

End FormClaims.

Section FormTheorems.
Context {num : Type} `{JSNumber num}.

(** C2, as the code has it.  The neutral result (score 0, the message to
    select a lift type, lift type ['unknown']) is returned for an undefined
    lift type, for an array and for the empty string.  A nonempty string
    that is none of the three movement names, letter case apart, is not
    rejected: the result has no message, the score 100 and the string
    itself as lift type. *)
Theorem analyzeLiftForm_other_lift_type (keypoints : list num)
    (lt : LiftType) (screenWidth screenHeight : num)
    (userHeight userWeight : option num) :
  match lt with LiftString s => analysed_lift s = false | _ => True end ->
  analyzeLiftForm keypoints lt screenWidth screenHeight userHeight
    userWeight
  = match lt with
    | LiftString (String c r) => mkLiftAnalysis [] 100 (String c r)
    | _ => noLiftType
    end.
Proof.
  destruct lt as [|s|a]; intros Hlt; try reflexivity.
  destruct s as [|c r]; [reflexivity|].
  unfold analysed_lift in Hlt.
  apply orb_false_iff in Hlt as [Hlt Hd].
  apply orb_false_iff in Hlt as [Hs Hb].
  unfold analyzeLiftForm, analysis.
  cbn [String.eqb]. rewrite Hs, Hb, Hd. reflexivity.
Qed.

(** C4.  For every call of [analyzeLiftForm] the returned feedback has at
    most four messages and the returned score is at least 0; and when the
    call has appended more than four messages, the returned list is that of
    the four most recent ones.  No call appends more than four messages, the
    guard on the lift type apart every call returns all the messages it has
    appended, in the order of the pushes, and so the clause on more than
    four messages holds of every call. *)
Theorem analyzeLiftForm_feedback_cap (keypoints : list num)
    (lt : LiftType) (screenWidth screenHeight : num)
    (userHeight userWeight : option num) :
  let r :=
    analyzeLiftForm keypoints lt screenWidth screenHeight userHeight
      userWeight in
  let pushed :=
    appended keypoints lt screenWidth screenHeight userHeight in
  (List.length (feedback r) <= 4)%nat
  /\ ((4 < List.length pushed)%nat -> feedback r = most_recent 4 pushed)
  /\ (0 <= formScore r)%Z
  /\ (List.length pushed <= 4)%nat
  /\ (r = noLiftType \/ feedback r = pushed).
Proof.
  intros r pushed.
  assert (Hlen : (List.length pushed <= 4)%nat).
  { unfold pushed, appended. destruct lt as [|s|a]; simpl; try lia.
    destruct (String.eqb s EmptyString); [simpl; lia|].
    apply (analysis_bounds keypoints s screenWidth screenHeight
             userHeight). }
  assert (Hall : r = noLiftType \/ feedback r = pushed).
  { unfold r, pushed, analyzeLiftForm, appended.
    destruct lt as [|s|a]; [now left| |now left].
    destruct (String.eqb s EmptyString) eqn:Es; [now left|right].
    cbn [finish feedback]. apply firstn_all2.
    apply (analysis_bounds keypoints s screenWidth screenHeight
             userHeight). }
  split; [|split; [|split; [|split]]].
  - destruct Hall as [-> | ->]; [simpl; lia|exact Hlen].
  - intros Hmore. lia.
  - destruct Hall as [E|_]; [rewrite E; simpl; lia|].
    unfold r, analyzeLiftForm.
    destruct lt as [|s|a]; simpl; try lia.
    destruct (String.eqb s EmptyString); simpl; lia.
  - exact Hlen.
  - exact Hall.
Qed.

End FormTheorems.

(** ** The similarity in exact arithmetic *)

(** Decides the comparisons of closed or constrained reals in the goal. *)
Ltac rdec :=
  repeat match goal with
         | |- context [Rlt_dec ?a ?b] =>
             destruct (Rlt_dec a b); try lra
         | |- context [Rle_dec ?a ?b] =>
             destruct (Rle_dec a b); try lra
         | |- context [Req_dec_T ?a ?b] =>
             destruct (Req_dec_T a b); try lra
         end.

Section IdealSimilarity.
Import Ideal.
Local Open Scope R_scope.

Lemma Rltb_true (a b : R) : Rltb a b = true <-> a < b.
Proof. unfold Rltb. destruct (Rlt_dec a b); split; intros; easy. Qed.

Lemma Rltb_false (a b : R) : Rltb a b = false <-> b <= a.
Proof.
  unfold Rltb. destruct (Rlt_dec a b); split; intros; try easy; lra.
Qed.

Lemma Reqb_false (a b : R) : a <> b -> Reqb a b = false.
Proof. unfold Reqb. now destruct (Req_dec_T a b). Qed.

Lemma Q2R_lit (n : Z) (d : positive) : Q2R (n # d) = IZR n / IZR (Zpos d).
Proof. reflexivity. Qed.

Lemma falloff_ideal (i : nat) :
  falloff (num := ereal) i = EFin (sigmaR i)
  /\ 25 / 1000 <= sigmaR i <= 107 / 1000.
Proof.
  unfold sigmaR.
  do 17 (destruct i as [|i];
         [cbn; unfold Reqb; rdec; cbn; split; [reflexivity|lra]|]).
  unfold falloff, OKS_KEYPOINT_FALLOFF. cbn.
  destruct i; cbn; (split; [reflexivity|lra]).
Qed.

Lemma sigmaR_pos (i : nat) : 0 < sigmaR i.
Proof. destruct (falloff_ideal i) as [_ Hs]. lra. Qed.

Lemma kernel_den_pos (a : R) (i : nat) :
  0 < a -> 0 < 2 * a * (2 * sigmaR i) * (2 * sigmaR i).
Proof.
  intros Ha. pose proof (sigmaR_pos i) as Hs.
  apply Rmult_lt_0_compat; [apply Rmult_lt_0_compat|]; lra.
Qed.

Lemma dist2_nonneg (p q : R * R * R) : 0 <= dist2 p q.
Proof.
  unfold dist2.
  apply Rplus_le_le_0_compat; apply Rle_0_sqr.
Qed.

Lemma gauss_bounds (a : R) (i : nat) (d2 : R) :
  0 < a -> 0 <= d2 -> 0 < gauss a i d2 <= 1.
Proof.
  intros Ha Hd. unfold gauss. split; [apply exp_pos|].
  pose proof (kernel_den_pos a i Ha) as Hden.
  set (D := 2 * a * (2 * sigmaR i) * (2 * sigmaR i)) in *.
  assert (Hx : - d2 / D <= 0).
  { unfold Rdiv. pose proof (Rinv_0_lt_compat D Hden). nra. }
  destruct Hx as [Hneg|Hzero].
  - rewrite <- exp_0. left. now apply exp_increasing.
  - rewrite Hzero, exp_0. lra.
Qed.

Lemma gauss_zero (a : R) (i : nat) : gauss a i 0 = 1.
Proof.
  unfold gauss. replace (- 0 / _) with 0; [apply exp_0|].
  unfold Rdiv. ring.
Qed.

(** The kernel falls strictly when the squared distance grows. *)
Lemma gauss_decreasing (a : R) (i : nat) (d2 d2' : R) :
  0 < a -> d2 < d2' -> gauss a i d2' < gauss a i d2.
Proof.
  intros Ha Hlt. unfold gauss. apply exp_increasing.
  pose proof (kernel_den_pos a i Ha) as Hden.
  set (D := 2 * a * (2 * sigmaR i) * (2 * sigmaR i)) in *.
  unfold Rdiv. pose proof (Rinv_0_lt_compat D Hden). nra.
Qed.

(** The kernel grows strictly with the area, away from distance zero. *)
Lemma gauss_area_increasing (a a' : R) (i : nat) (d2 : R) :
  0 < a -> a < a' -> 0 < d2 -> gauss a i d2 < gauss a' i d2.
Proof.
  intros Ha Hlt Hd. unfold gauss. apply exp_increasing.
  pose proof (sigmaR_pos i) as Hs.
  set (K := 2 * ((2 * sigmaR i) * (2 * sigmaR i))).
  assert (HK : 0 < K) by (unfold K; nra).
  replace (2 * a * (2 * sigmaR i) * (2 * sigmaR i)) with (a * K)
    by (unfold K; ring).
  replace (2 * a' * (2 * sigmaR i) * (2 * sigmaR i)) with (a' * K)
    by (unfold K; ring).
  unfold Rdiv. rewrite !Rinv_mult.
  assert (Hinv : / a' < / a) by (apply Rinv_lt_contravar; nra).
  assert (Hw : 0 < / K) by now apply Rinv_0_lt_compat.
  assert (Hdw : 0 < d2 * / K) by now apply Rmult_lt_0_compat.
  replace (- d2 * (/ a * / K)) with (- (/ a * (d2 * / K))) by ring.
  replace (- d2 * (/ a' * / K)) with (- (/ a' * (d2 * / K))) by ring.
  apply Ropp_lt_contravar. now apply Rmult_lt_compat_r.
Qed.

End IdealSimilarity.

Section IdealLoop.
Import Ideal.
Local Open Scope R_scope.

Lemma Q2R_two : Q2R (2 # 1) = 2.
Proof. unfold Q2R. simpl. lra. Qed.

Lemma pose_cons (p : R * R * R) (l : list (R * R * R)) :
  pose (p :: l) = kp_of p :: pose l.
Proof. reflexivity. Qed.

Lemma pose_length (l : list (R * R * R)) :
  List.length (pose l) = List.length l.
Proof. unfold pose. apply length_map. Qed.

(** One iteration of the loop on finite keypoints, for a positive area. *)
Lemma oks_step_ideal (a s : R) (n i : nat) (p q : R * R * R) :
  0 < a ->
  oks_step (EFin a) (EFin s, n) i (kp_of p) (kp_of q)
  = if skipped p q then (EFin s, n)
    else (EFin (s + gauss a i (dist2 p q)), S n).
Proof.
  intros Ha. destruct p as [[x1 y1] s1], q as [[x2 y2] s2].
  unfold oks_step, skipped, gauss, dist2, kp_of.
  destruct (falloff_ideal i) as [Hf _].
  pose proof (kernel_den_pos a i Ha) as Hden.
  cbn. rewrite Hf. cbn. rewrite !Q2R_two.
  unfold Rltb, Reqb. rdec; cbn; reflexivity.
Qed.

(** The loop adds up the kernel values of the pairs that are not skipped
    and counts them. *)
Lemma oks_loop_ideal (a : R) (l1 l2 : list (R * R * R)) :
  0 < a ->
  forall (i : nat) (s : R) (n : nat),
  oks_loop (EFin a) i (pose l1) (pose l2) (EFin s, n)
  = (EFin (s + Rsum (terms a i l1 l2)),
     (n + List.length (terms a i l1 l2))%nat).
Proof.
  intros Ha. revert l2.
  induction l1 as [|p r1 IH]; intros l2 i s n.
  - simpl. now rewrite Rplus_0_r, Nat.add_0_r.
  - destruct l2 as [|q r2].
    + simpl. now rewrite Rplus_0_r, Nat.add_0_r.
    + rewrite !pose_cons. cbn [oks_loop terms].
      rewrite oks_step_ideal by assumption.
      destruct (skipped p q); rewrite IH; [reflexivity|].
      cbn [Rsum fold_right List.length].
      apply f_equal2; [apply f_equal; unfold Rsum; ring|lia].
Qed.

Lemma terms_bounds (a : R) (l1 l2 : list (R * R * R)) :
  0 < a -> forall i, Forall (fun t => 0 < t <= 1) (terms a i l1 l2).
Proof.
  intros Ha. revert l2. induction l1 as [|p r1 IH]; intros l2 i.
  - constructor.
  - destruct l2 as [|q r2]; [constructor|]. cbn [terms].
    destruct (skipped p q); [apply IH|].
    constructor; [|apply IH].
    apply gauss_bounds; [assumption|apply dist2_nonneg].
Qed.

Lemma Rsum_bounds (lo hi : R) (l : list R) :
  Forall (fun t => lo <= t <= hi) l ->
  lo * INR (List.length l) <= Rsum l <= hi * INR (List.length l).
Proof.
  induction 1 as [|t l Ht Hl IH].
  - simpl. lra.
  - cbn [Rsum fold_right List.length]. rewrite S_INR.
    fold (Rsum l). lra.
Qed.

(** A sum smaller term by term, over at least one term, is smaller. *)
Lemma Rsum_lt (l l' : list R) :
  Forall2 Rlt l l' -> l <> [] -> Rsum l < Rsum l'.
Proof.
  induction 1 as [|t t' l l' Ht Hl IH]; intros Hne; [congruence|].
  cbn [Rsum fold_right]. fold (Rsum l) (Rsum l').
  destruct l as [|u l].
  - inversion Hl; subst. simpl. lra.
  - assert (Rsum (u :: l) < Rsum l') by (apply IH; discriminate). lra.
Qed.

Lemma Rsum_le (l l' : list R) :
  Forall2 Rle l l' -> Rsum l <= Rsum l'.
Proof.
  induction 1 as [|t t' l l' Ht Hl IH]; [simpl; lra|].
  cbn [Rsum fold_right]. fold (Rsum l) (Rsum l'). lra.
Qed.

Lemma of_nat_ideal (n : nat) : of_nat (num := ereal) n = EFin (INR n).
Proof.
  unfold of_nat. cbn. f_equal. unfold Q2R. simpl.
  rewrite <- INR_IZR_INZ. lra.
Qed.

End IdealLoop.

Section IdealArea.
Import Ideal.
Local Open Scope R_scope.

Lemma lit_zero : lit (num := ereal) (0 # 1) = EFin 0.
Proof. cbn. f_equal. unfold Q2R. simpl. lra. Qed.

Lemma lit_one : lit (num := ereal) (1 # 1) = EFin 1.
Proof. cbn. f_equal. unfold Q2R. simpl. lra. Qed.

Lemma epsilon_ideal : EPSILON (num := ereal) = EFin (1 / 1000000).
Proof. reflexivity. Qed.

Lemma areaJS_step_ok (b : BBox ereal) (p : R * R * R) :
  box_ok b -> box_ok (areaJS_step b (kp_of p)).
Proof.
  destruct p as [[x y] s]. unfold areaJS_step, kp_of, kp.
  cbn [kp_score kp_x kp_y].
  destruct (_ >= _)%js; [|easy].
  intros [->|(x0 & x1 & y0 & y1 & -> & Hx & Hy)].
  - right. exists x, x, y, y. cbn. repeat split; lra.
  - right. cbn. unfold Rltb.
    destruct (Rlt_dec x x0), (Rlt_dec x1 x), (Rlt_dec y y0),
      (Rlt_dec y1 y);
      eexists _, _, _, _; (split; [reflexivity|lra]).
Qed.

Lemma areaJS_fold_ok (l : list (R * R * R)) (b : BBox ereal) :
  box_ok b -> box_ok (fold_left areaJS_step (pose l) b).
Proof.
  revert b. induction l as [|p r IH]; intros b Hb; [exact Hb|].
  rewrite pose_cons. cbn [fold_left]. apply IH. now apply areaJS_step_ok.
Qed.

(** On finite keypoints the area of [computeKeypointAreaJS] is a real and
    is not negative. *)
Lemma computeKeypointAreaJS_ideal (l : list (R * R * R)) :
  exists ar, computeKeypointAreaJS (pose l) = EFin ar /\ 0 <= ar.
Proof.
  unfold computeKeypointAreaJS.
  destruct (areaJS_fold_ok l bbox_init (or_introl eq_refl))
    as [->|(x0 & x1 & y0 & y1 & -> & Hx & Hy)].
  - exists 1. cbn. split; [|lra]. f_equal. unfold Q2R. simpl. lra.
  - eexists. cbn. split; [reflexivity|]. nra.
Qed.

Lemma area_step_ok (st : nat * BBox ereal) (p : R * R * R) :
  count_box_ok st -> count_box_ok (area_step st (kp_of p)).
Proof.
  destruct p as [[x y] s], st as [n b]. unfold area_step, kp_of, kp.
  cbn [kp_score kp_x kp_y].
  destruct (_ > _)%js; [|easy].
  intros [[_ Hb]|(_ & x0 & x1 & y0 & y1 & Hb & Hx & Hy)];
    simpl in Hb; subst b; right; (split; [simpl; lia|]).
  - exists x, x, y, y. cbn. repeat split; lra.
  - cbn. unfold Rltb.
    destruct (Rlt_dec x x0), (Rlt_dec x1 x), (Rlt_dec y y0),
      (Rlt_dec y1 y);
      eexists _, _, _, _; (split; [reflexivity|lra]).
Qed.

Lemma area_fold_ok (l : list (R * R * R)) (st : nat * BBox ereal) :
  count_box_ok st -> count_box_ok (fold_left area_step (pose l) st).
Proof.
  revert st. induction l as [|p r IH]; intros st Hst; [exact Hst|].
  rewrite pose_cons. cbn [fold_left]. apply IH. now apply area_step_ok.
Qed.

(** On finite keypoints the area of [computeKeypointArea] is a real and is
    positive. *)
Lemma computeKeypointArea_ideal (l : list (R * R * R)) :
  exists ar, computeKeypointArea (pose l) = EFin ar /\ 0 < ar.
Proof.
  unfold computeKeypointArea.
  pose proof (area_fold_ok l (0%nat, bbox_init)
                (or_introl (conj eq_refl eq_refl))) as Hst.
  destruct (fold_left area_step (pose l) (0%nat, bbox_init)) as [n b].
  destruct Hst as [[Hn Hb]|(Hn & x0 & x1 & y0 & y1 & Hb & Hx & Hy)];
    simpl in Hn, Hb; subst.
  - exists (1 / 1000000). simpl. split; [reflexivity|lra].
  - destruct n as [|n]; [congruence|]. cbn [Nat.eqb].
    cbn. unfold Rltb.
    destruct (Rlt_dec _ _), (Rlt_dec _ _);
      eexists; (split; [reflexivity|]); unfold Q2R in *; simpl in *; nra.
Qed.

End IdealArea.

Section IdealClaims.
Import Ideal.
Local Open Scope R_scope.

Lemma oks_with_ideal (areaOf : Pose ereal -> ereal)
    (l1 l2 : list (R * R * R)) (ar : R) :
  areaOf (pose l2) = EFin ar -> 0 <= ar ->
  oks_with areaOf (pose l1) (pose l2) = EFin (oksR ar l1 l2).
Proof.
  intros Harea Hpos. unfold oks_with, oksR.
  rewrite !pose_length.
  destruct (negb _); [apply lit_zero|].
  rewrite Harea, epsilon_ideal. cbn [add ideal eadd].
  rewrite lit_zero, oks_loop_ideal by lra.
  rewrite Rplus_0_l, Nat.add_0_l.
  set (T := terms (ar + 1 / 1000000) 0 l1 l2).
  unfold OKS_MIN_KEYPOINTS.
  destruct (Nat.ltb_spec (List.length T) 4) as [Hfew|Hmany];
    [reflexivity|].
  rewrite of_nat_ideal. cbn [div ideal ediv].
  rewrite Reqb_false; [reflexivity|].
  apply not_0_INR. lia.
Qed.

Lemma oksR_range (ar : R) (l1 l2 : list (R * R * R)) :
  0 <= ar -> 0 <= oksR ar l1 l2 <= 1.
Proof.
  intros Hpos. unfold oksR.
  destruct (negb _); [lra|]. cbv zeta.
  set (T := terms (ar + 1 / 1000000) 0 l1 l2).
  destruct (Nat.ltb_spec (List.length T) 4) as [Hfew|Hmany]; [lra|].
  assert (Hb : Forall (fun t => 0 <= t <= 1) T).
  { eapply Forall_impl; [|apply terms_bounds; lra].
    simpl. intros; lra. }
  apply Rsum_bounds in Hb.
  assert (Hn : 0 < INR (List.length T)) by (apply lt_0_INR; lia).
  split.
  - apply Rmult_le_reg_r with (INR (List.length T)); [assumption|].
    unfold Rdiv. rewrite Rmult_assoc, Rinv_l by lra. lra.
  - apply Rmult_le_reg_r with (INR (List.length T)); [assumption|].
    unfold Rdiv. rewrite Rmult_assoc, Rinv_l by lra. lra.
Qed.

(** C6, in exact arithmetic.  For finite keypoint arrays of any lengths
    both similarity functions return a real number [r], neither [NaN] nor
    an infinity, with [0 <= r <= 1]. *)
Theorem similarity_range_exact (l1 l2 : list (R * R * R)) :
  (exists r, computeOKSSimilarity (pose l1) (pose l2) = EFin r
             /\ 0 <= r <= 1)
  /\ (exists r, computeOKSSimilarityJS (pose l1) (pose l2) = EFin r
                /\ 0 <= r <= 1).
Proof.
  split.
  - destruct (computeKeypointArea_ideal l2) as (ar & Har & Hpos).
    exists (oksR ar l1 l2). split.
    + apply oks_with_ideal; [assumption|lra].
    + apply oksR_range. lra.
  - destruct (computeKeypointAreaJS_ideal l2) as (ar & Har & Hpos).
    exists (oksR ar l1 l2). split.
    + now apply oks_with_ideal.
    + now apply oksR_range.
Qed.

End IdealClaims.

Section IdealIdentity.
Import Ideal.
Local Open Scope R_scope.

Lemma dist2_self (p : R * R * R) : dist2 p p = 0.
Proof. unfold dist2. ring. Qed.

Lemma skipped_self (p : R * R * R) :
  Rltb (3 / 10) (snd p) = true -> skipped p p = false.
Proof.
  unfold skipped. intros Hs. apply Rltb_true in Hs.
  assert (E : Rltb (snd p) (3 / 10) = false) by (apply Rltb_false; lra).
  now rewrite E.
Qed.

(** A pose compared with itself: every kernel value is 1, and every
    keypoint above the threshold is counted. *)
Lemma terms_self (a : R) (l : list (R * R * R)) (i : nat) :
  Forall (fun t => t = 1) (terms a i l l)
  /\ (count_above l <= List.length (terms a i l l))%nat.
Proof.
  revert i. induction l as [|p r IH]; intros i.
  - split; [constructor|apply Nat.le_refl].
  - destruct (IH (S i)) as [Hall Hcount].
    cbn [terms]. unfold count_above in *. cbn [filter].
    destruct (Rltb (3 / 10) (snd p)) eqn:Hs.
    + rewrite skipped_self by assumption. split.
      * constructor; [|assumption]. rewrite dist2_self. apply gauss_zero.
      * cbn [List.length]. lia.
    + destruct (skipped p p); split; try assumption.
      * constructor; [|assumption]. rewrite dist2_self. apply gauss_zero.
      * cbn [List.length]. lia.
Qed.

Lemma Rsum_ones (l : list R) :
  Forall (fun t => t = 1) l -> Rsum l = INR (List.length l).
Proof.
  induction 1 as [|t l Ht Hl IH]; [reflexivity|].
  cbn [Rsum fold_right List.length]. fold (Rsum l).
  rewrite S_INR, IH, Ht. ring.
Qed.

Lemma oksR_self (ar : R) (l : list (R * R * R)) :
  (4 <= count_above l)%nat -> oksR ar l l = 1.
Proof.
  intros Hcount. unfold oksR. rewrite Nat.eqb_refl. cbn [negb].
  destruct (terms_self (ar + 1 / 1000000) l 0) as [Hall Hlen].
  set (T := terms (ar + 1 / 1000000) 0 l l) in *.
  destruct (Nat.ltb_spec (List.length T) 4) as [Hfew|Hmany]; [lia|].
  rewrite (Rsum_ones T Hall). unfold Rdiv. apply Rinv_r.
  apply not_0_INR. lia.
Qed.

(** C8.  For every finite pose with at least four keypoints whose score is
    above [OKS_KEYPOINT_THRESHOLD], the similarity of the pose with itself
    is 1, for both similarity functions (exact arithmetic, where the value
    is 1 and not only close to it). *)
Theorem similarity_identity (l : list (R * R * R)) :
  (4 <= count_above l)%nat ->
  computeOKSSimilarity (pose l) (pose l) = EFin 1
  /\ computeOKSSimilarityJS (pose l) (pose l) = EFin 1.
Proof.
  intros Hcount. split.
  - destruct (computeKeypointArea_ideal l) as (ar & Har & Hpos).
    unfold computeOKSSimilarity.
    rewrite (oks_with_ideal _ l l ar Har) by lra.
    now rewrite oksR_self.
  - destruct (computeKeypointAreaJS_ideal l) as (ar & Har & Hpos).
    unfold computeOKSSimilarityJS.
    rewrite (oks_with_ideal _ l l ar Har) by lra.
    now rewrite oksR_self.
Qed.

End IdealIdentity.

Section IdealMonotone.
Import Ideal.
Local Open Scope R_scope.

Lemma translate_length (dx dy : R) (l : list (R * R * R)) :
  List.length (translate dx dy l) = List.length l.
Proof. unfold translate. apply length_map. Qed.

(** The kernel values of a pose against its translate: one value per
    keypoint that is not below the threshold, falling strictly with the
    length of the translation. *)
Lemma terms_translate (a : R) (ux uy vx vy : R) (l : list (R * R * R))
    (i : nat) :
  0 < a -> ux * ux + uy * uy < vx * vx + vy * vy ->
  Forall2 Rlt (terms a i (translate vx vy l) l)
    (terms a i (translate ux uy l) l)
  /\ (count_above l <= List.length (terms a i (translate vx vy l) l))%nat.
Proof.
  intros Ha Hlt. revert i. induction l as [|p r IH]; intros i.
  - split; [constructor|apply Nat.le_refl].
  - destruct (IH (S i)) as [Hall Hcount].
    cbn [translate map terms]. fold (translate ux uy r).
    fold (translate vx vy r).
    unfold skipped, count_above in *. cbn [snd filter].
    destruct (Rltb (snd p) (3 / 10)) eqn:Hs; cbn [orb].
    + split; [assumption|].
      apply Rltb_true in Hs.
      assert (E : Rltb (3 / 10) (snd p) = false)
        by (apply Rltb_false; lra).
      now rewrite E.
    + split.
      * constructor; [|assumption].
        apply gauss_decreasing; [assumption|].
        unfold dist2. cbn [fst snd].
        replace (fst (fst p) + ux - fst (fst p)) with ux by ring.
        replace (snd (fst p) + uy - snd (fst p)) with uy by ring.
        replace (fst (fst p) + vx - fst (fst p)) with vx by ring.
        replace (snd (fst p) + vy - snd (fst p)) with vy by ring.
        exact Hlt.
      * destruct (Rltb (3 / 10) (snd p)); cbn [List.length]; lia.
Qed.

Lemma oksR_translate (ar : R) (ux uy vx vy : R) (l : list (R * R * R)) :
  0 <= ar -> (4 <= count_above l)%nat ->
  ux * ux + uy * uy < vx * vx + vy * vy ->
  oksR ar (translate vx vy l) l < oksR ar (translate ux uy l) l.
Proof.
  intros Hpos Hcount Hlt. unfold oksR.
  rewrite !translate_length, Nat.eqb_refl. cbn [negb]. cbv zeta.
  destruct (terms_translate (ar + 1 / 1000000) ux uy vx vy l 0)
    as [Hall Hlen]; [lra|assumption|].
  set (Tv := terms (ar + 1 / 1000000) 0 (translate vx vy l) l) in *.
  set (Tu := terms (ar + 1 / 1000000) 0 (translate ux uy l) l) in *.
  assert (Elen : List.length Tu = List.length Tv)
    by (symmetry; eapply Forall2_length; exact Hall).
  rewrite Elen.
  destruct (Nat.ltb_spec (List.length Tv) 4) as [Hfew|Hmany]; [lia|].
  assert (Hn : 0 < / INR (List.length Tv)).
  { apply Rinv_0_lt_compat, lt_0_INR. lia. }
  unfold Rdiv. apply Rmult_lt_compat_r; [assumption|].
  apply Rsum_lt; [assumption|].
  intros E. rewrite E in Hmany. simpl in Hmany. lia.
Qed.

(** C9, in exact arithmetic.  Let [B] be a finite pose with at least four
    keypoints above the threshold, and let it be moved by a vector of length
    [t1] and by a vector of length [t2], the scores unchanged.  When
    [0 <= t1 < t2] the similarity of the second translate with [B] is
    strictly less than that of the first, for both similarity functions.
    The numbers are the reals: in double precision the decrease is not
    strict, as the section on double precision shows. *)
Theorem similarity_decreases_with_translation (B : list (R * R * R))
    (ux uy vx vy t1 t2 : R) :
  (4 <= count_above B)%nat ->
  0 <= t1 < t2 ->
  ux * ux + uy * uy = t1 * t1 ->
  vx * vx + vy * vy = t2 * t2 ->
  (exists r1 r2,
     computeOKSSimilarity (pose (translate ux uy B)) (pose B) = EFin r1
     /\ computeOKSSimilarity (pose (translate vx vy B)) (pose B) = EFin r2
     /\ r2 < r1)
  /\ (exists r1 r2,
        computeOKSSimilarityJS (pose (translate ux uy B)) (pose B) = EFin r1
        /\ computeOKSSimilarityJS (pose (translate vx vy B)) (pose B)
           = EFin r2
        /\ r2 < r1).
Proof.
  intros Hcount Ht Hu Hv.
  assert (Hlt : ux * ux + uy * uy < vx * vx + vy * vy) by nra.
  split.
  - destruct (computeKeypointArea_ideal B) as (ar & Har & Hpos).
    exists (oksR ar (translate ux uy B) B), (oksR ar (translate vx vy B) B).
    unfold computeOKSSimilarity.
    rewrite !(oks_with_ideal _ _ B ar Har) by lra.
    repeat split. apply oksR_translate; [lra|assumption|assumption].
  - destruct (computeKeypointAreaJS_ideal B) as (ar & Har & Hpos).
    exists (oksR ar (translate ux uy B) B), (oksR ar (translate vx vy B) B).
    unfold computeOKSSimilarityJS.
    rewrite !(oks_with_ideal _ _ B ar Har) by lra.
    repeat split. apply oksR_translate; assumption.
Qed.

End IdealMonotone.

Section IdealBox.
Import Ideal.
Local Open Scope R_scope.

Lemma areaJS_step_first (x y s : R) :
  3 / 10 <= s -> areaJS_step bbox_init (kp x y s) = fin_box x x y y.
Proof.
  intros Hs. unfold areaJS_step, kp. cbn. unfold Rleb. now rdec.
Qed.

Lemma areaJS_step_next (x0 x1 y0 y1 x y s : R) :
  3 / 10 <= s ->
  areaJS_step (fin_box x0 x1 y0 y1) (kp x y s)
  = fin_box (Rmin x x0) (Rmax x1 x) (Rmin y y0) (Rmax y1 y).
Proof.
  intros Hs. unfold areaJS_step, kp, fin_box. cbn. unfold Rleb.
  rdec. unfold Rltb, Rmin, Rmax.
  destruct (Rlt_dec x x0), (Rlt_dec x1 x), (Rlt_dec y y0), (Rlt_dec y1 y),
    (Rle_dec x x0), (Rle_dec x1 x), (Rle_dec y y0), (Rle_dec y1 y);
    try lra; repeat f_equal; lra.
Qed.

Lemma area_step_first (n : nat) (x y s : R) :
  3 / 10 < s ->
  area_step (n, bbox_init) (kp x y s) = (S n, fin_box x x y y).
Proof.
  intros Hs. unfold area_step, kp. cbn. unfold Rltb. now rdec.
Qed.

Lemma area_step_next (n : nat) (x0 x1 y0 y1 x y s : R) :
  3 / 10 < s ->
  area_step (n, fin_box x0 x1 y0 y1) (kp x y s)
  = (S n, fin_box (Rmin x x0) (Rmax x1 x) (Rmin y y0) (Rmax y1 y)).
Proof.
  intros Hs. unfold area_step, kp, fin_box. cbn. unfold Rltb at 1.
  rdec. unfold Rltb, Rmin, Rmax.
  destruct (Rlt_dec x x0), (Rlt_dec x1 x), (Rlt_dec y y0), (Rlt_dec y1 y),
    (Rle_dec x x0), (Rle_dec x1 x), (Rle_dec y y0), (Rle_dec y1 y);
    try lra; repeat f_equal; lra.
Qed.

End IdealBox.

(** Simplifies the minima and maxima of reals that [lra] can order,
    innermost first. *)
Ltac minmax :=
  repeat match goal with
         | |- context [Rmin ?a ?b] =>
             first [rewrite (Rmin_left a b) by lra
                   | rewrite (Rmin_right a b) by lra]
         | |- context [Rmax ?a ?b] =>
             first [rewrite (Rmax_left a b) by lra
                   | rewrite (Rmax_right a b) by lra]
         end.

(** Runs the loop of an area function on a pose given by its triples. *)
Ltac box_eval :=
  cbn [Ideal.pose map fold_left fst snd];
  first [rewrite areaJS_step_first by lra | rewrite area_step_first by lra];
  repeat first [rewrite areaJS_step_next by lra
               | rewrite area_step_next by lra];
  minmax; unfold Ideal.fin_box; cbn; unfold Ideal.Rltb; rdec; cbn.

Section IdealAsymmetry.
Import Ideal.
Local Open Scope R_scope.

Lemma areaJS_squareA : computeKeypointAreaJS (pose squareA) = EFin 1.
Proof.
  unfold computeKeypointAreaJS, squareA. box_eval. f_equal; lra.
Qed.

Lemma areaJS_squareB :
  computeKeypointAreaJS (pose squareB) = EFin (121 / 100).
Proof.
  unfold computeKeypointAreaJS, squareB. box_eval. f_equal; lra.
Qed.

Lemma area_squareA : computeKeypointArea (pose squareA) = EFin 1.
Proof.
  unfold computeKeypointArea, squareA. box_eval. f_equal; lra.
Qed.

Lemma area_squareB : computeKeypointArea (pose squareB) = EFin (121 / 100).
Proof.
  unfold computeKeypointArea, squareB. box_eval. f_equal; lra.
Qed.

Lemma count_above_squares :
  count_above squareA = 4%nat /\ count_above squareB = 4%nat.
Proof.
  unfold count_above, squareA, squareB. cbn [filter snd].
  unfold Rltb. rdec. now split.
Qed.

(** With the smaller square as reference the same distances weigh more:
    the similarity is smaller. *)
Lemma oksR_squares :
  oksR 1 squareB squareA < oksR (121 / 100) squareA squareB.
Proof.
  unfold oksR, squareA, squareB.
  cbn [List.length Nat.eqb negb terms]. unfold skipped. cbn [fst snd].
  unfold Rltb. rdec.
  cbn [orb List.length Nat.ltb Nat.leb Rsum fold_right].
  assert (D0 : dist2 (0, 0, 1) (0, 0, 1) = 0)
    by (unfold dist2; cbn [fst snd]; ring).
  assert (D1 : dist2 (1, 0, 1) (11 / 10, 0, 1) = 1 / 100)
    by (unfold dist2; cbn [fst snd]; field).
  assert (D1' : dist2 (11 / 10, 0, 1) (1, 0, 1) = 1 / 100)
    by (unfold dist2; cbn [fst snd]; field).
  assert (D2 : dist2 (0, 1, 1) (0, 11 / 10, 1) = 1 / 100)
    by (unfold dist2; cbn [fst snd]; field).
  assert (D2' : dist2 (0, 11 / 10, 1) (0, 1, 1) = 1 / 100)
    by (unfold dist2; cbn [fst snd]; field).
  assert (D3 : dist2 (1, 1, 1) (11 / 10, 11 / 10, 1) = 2 / 100)
    by (unfold dist2; cbn [fst snd]; field).
  assert (D3' : dist2 (11 / 10, 11 / 10, 1) (1, 1, 1) = 2 / 100)
    by (unfold dist2; cbn [fst snd]; field).
  rewrite D0, D1, D1', D2, D2', D3, D3', !gauss_zero.
  pose proof (gauss_area_increasing (1 + 1 / 1000000)
                (121 / 100 + 1 / 1000000) 1 (1 / 100)
                ltac:(lra) ltac:(lra) ltac:(lra)) as G1.
  pose proof (gauss_area_increasing (1 + 1 / 1000000)
                (121 / 100 + 1 / 1000000) 2 (1 / 100)
                ltac:(lra) ltac:(lra) ltac:(lra)) as G2.
  pose proof (gauss_area_increasing (1 + 1 / 1000000)
                (121 / 100 + 1 / 1000000) 3 (2 / 100)
                ltac:(lra) ltac:(lra) ltac:(lra)) as G3.
  simpl INR. lra.
Qed.

(** In exact arithmetic the unit square and the square of side 1.1 have
    different similarities in the two orders, for both similarity
    functions: the area that normalises the distances is that of the second
    pose alone. *)
Lemma similarity_of_squares_exact :
  computeOKSSimilarity (pose squareA) (pose squareB)
  <> computeOKSSimilarity (pose squareB) (pose squareA)
  /\ computeOKSSimilarityJS (pose squareA) (pose squareB)
     <> computeOKSSimilarityJS (pose squareB) (pose squareA).
Proof.
  pose proof oksR_squares as Hlt. split.
  - unfold computeOKSSimilarity.
    rewrite (oks_with_ideal _ squareA squareB (121 / 100) area_squareB)
      by lra.
    rewrite (oks_with_ideal _ squareB squareA 1 area_squareA) by lra.
    intros E. injection E as E. lra.
  - unfold computeOKSSimilarityJS.
    rewrite (oks_with_ideal _ squareA squareB (121 / 100) areaJS_squareB)
      by lra.
    rewrite (oks_with_ideal _ squareB squareA 1 areaJS_squareA) by lra.
    intros E. injection E as E. lra.
Qed.

End IdealAsymmetry.

(** ** Poses without a confident keypoint *)

Section NoConfidence.
Context {num : Type} `{JSNumber num}.

Lemma oks_loop_skip_left (area : num) (p1 p2 : Pose num) :
  (forall k, In k p1 -> (kp_score k < OKS_KEYPOINT_THRESHOLD)%js = true) ->
  forall i st, oks_loop area i p1 p2 st = st.
Proof.
  revert p2. induction p1 as [|k1 r1 IH]; intros p2 Hlow i st;
    [reflexivity|].
  destruct p2 as [|k2 r2]; [reflexivity|]. cbn [oks_loop].
  unfold oks_step. destruct st as [oksSum validKeypointCount].
  rewrite (Hlow k1) by now left. cbn [orb].
  apply IH. intros k Hk. apply Hlow. now right.
Qed.

Lemma oks_loop_skip_right (area : num) (p1 p2 : Pose num) :
  (forall k, In k p2 -> (kp_score k < OKS_KEYPOINT_THRESHOLD)%js = true) ->
  forall i st, oks_loop area i p1 p2 st = st.
Proof.
  revert p2. induction p1 as [|k1 r1 IH]; intros p2 Hlow i st;
    [reflexivity|].
  destruct p2 as [|k2 r2]; [reflexivity|]. cbn [oks_loop].
  unfold oks_step. destruct st as [oksSum validKeypointCount].
  rewrite (Hlow k2) by now left. rewrite orb_true_r.
  apply IH. intros k Hk. apply Hlow. now right.
Qed.

(** Against a pose whose scores are all below the threshold the
    similarity is the literal [0], in both argument positions and whatever
    the area function. *)
Lemma oks_with_no_confidence (areaOf : Pose num -> num)
    (low other : Pose num) :
  (forall k, In k low -> (kp_score k < OKS_KEYPOINT_THRESHOLD)%js = true) ->
  oks_with areaOf low other = lit (0 # 1)
  /\ oks_with areaOf other low = lit (0 # 1).
Proof.
  intros Hlow. unfold oks_with. split.
  - destruct (negb _); [reflexivity|].
    now rewrite oks_loop_skip_left.
  - destruct (negb _); [reflexivity|].
    now rewrite oks_loop_skip_right.
Qed.

Lemma areaJS_fold_none (kps : Pose num) (b : BBox num) :
  (forall k, In k kps ->
             (kp_score k >= OKS_KEYPOINT_THRESHOLD)%js = false) ->
  fold_left areaJS_step kps b = b.
Proof.
  induction kps as [|k r IH]; intros Hlow; [reflexivity|].
  cbn [fold_left]. unfold areaJS_step at 2.
  rewrite (Hlow k) by now left.
  apply IH. intros k' Hk'. apply Hlow. now right.
Qed.

Lemma area_fold_none (kps : Pose num) (st : nat * BBox num) :
  (forall k, In k kps ->
             (kp_score k > OKS_KEYPOINT_THRESHOLD)%js = false) ->
  fold_left area_step kps st = st.
Proof.
  induction kps as [|k r IH]; intros Hlow; [reflexivity|].
  cbn [fold_left]. unfold area_step at 2. destruct st as [n b].
  rewrite (Hlow k) by now left.
  apply IH. intros k' Hk'. apply Hlow. now right.
Qed.

(** With no keypoint above the threshold, [computeKeypointArea] returns
    its epsilon, [1e-6]. *)
Lemma computeKeypointArea_none (kps : Pose num) :
  (forall k, In k kps ->
             (kp_score k > OKS_KEYPOINT_THRESHOLD)%js = false) ->
  computeKeypointArea kps = EPSILON.
Proof.
  intros Hlow. unfold computeKeypointArea.
  now rewrite area_fold_none.
Qed.

(** With no keypoint at or above the threshold, [computeKeypointAreaJS]
    returns the literal [1], as soon as [isFinite(Infinity)] is false. *)
Lemma computeKeypointAreaJS_none (kps : Pose num) :
  isFinite (Infinity : num) = false ->
  (forall k, In k kps ->
             (kp_score k >= OKS_KEYPOINT_THRESHOLD)%js = false) ->
  computeKeypointAreaJS kps = lit (1 # 1).
Proof.
  intros Hinf Hlow. unfold computeKeypointAreaJS.
  rewrite areaJS_fold_none by assumption.
  cbn [bbox_init minX]. now rewrite Hinf.
Qed.

End NoConfidence.

Section IdealNoConfidence.
Import Ideal.
Local Open Scope R_scope.

(** In exact arithmetic a score that is a number and is not at or above
    the threshold is below it. *)
Lemma below_threshold (s : ereal) :
  eisNaN s = false ->
  (s >= OKS_KEYPOINT_THRESHOLD)%js = false ->
  (s < OKS_KEYPOINT_THRESHOLD)%js = true
  /\ (s > OKS_KEYPOINT_THRESHOLD)%js = false.
Proof.
  destruct s as [|[|]|r]; cbn; try discriminate; try (now split).
  unfold Rleb, Rltb. intros _.
  destruct (Rle_dec _ r); [discriminate|]. intros _.
  destruct (Rlt_dec r _); [|lra].
  destruct (Rlt_dec _ r); [lra|]. now split.
Qed.

(** C3, as the code has it.  For every keypoint array whose scores are
    numbers of which none is at or above [OKS_KEYPOINT_THRESHOLD],
    [computeKeypointAreaJS] returns the fallback 1, [computeKeypointArea]
    returns its own fallback [1e-6], and both similarity functions return
    0 against any pose, in either argument position. *)
Theorem area_fallback_without_confidence (low other : Pose ereal) :
  (forall k, In k low ->
     eisNaN (kp_score k) = false
     /\ (kp_score k >= OKS_KEYPOINT_THRESHOLD)%js = false) ->
  computeKeypointAreaJS low = EFin 1
  /\ computeKeypointArea low = EFin (1 / 1000000)
  /\ computeOKSSimilarity low other = EFin 0
  /\ computeOKSSimilarity other low = EFin 0
  /\ computeOKSSimilarityJS low other = EFin 0
  /\ computeOKSSimilarityJS other low = EFin 0.
Proof.
  intros Hlow.
  assert (Hlt : forall k, In k low ->
                  (kp_score k < OKS_KEYPOINT_THRESHOLD)%js = true).
  { intros k Hk. destruct (Hlow k Hk) as [Hn Hge].
    now destruct (below_threshold _ Hn Hge). }
  assert (Hgt : forall k, In k low ->
                  (kp_score k > OKS_KEYPOINT_THRESHOLD)%js = false).
  { intros k Hk. destruct (Hlow k Hk) as [Hn Hge].
    now destruct (below_threshold _ Hn Hge). }
  rewrite <- lit_one, <- lit_zero, <- epsilon_ideal.
  split; [|split].
  - apply computeKeypointAreaJS_none; [reflexivity|].
    intros k Hk. now destruct (Hlow k Hk).
  - now apply computeKeypointArea_none.
  - unfold computeOKSSimilarity, computeOKSSimilarityJS.
    destruct (oks_with_no_confidence computeKeypointArea low other Hlt).
    destruct (oks_with_no_confidence computeKeypointAreaJS low other Hlt).
    now repeat split.
Qed.

End IdealNoConfidence.

(** ** A crowd of people far apart *)

Section IdealCrowd.
Import Ideal.
Local Open Scope R_scope.

Lemma areaJS_step_within (x0 x1 y0 y1 : R) (b : BBox ereal)
    (p : R * R * R) :
  x0 <= fst (fst p) <= x1 -> y0 <= snd (fst p) <= y1 ->
  box_within x0 x1 y0 y1 b ->
  box_within x0 x1 y0 y1 (areaJS_step b (kp_of p)).
Proof.
  destruct p as [[x y] s]. cbn [fst snd]. intros Hx Hy Hb.
  unfold kp_of. cbn [fst snd].
  destruct (Rle_dec (3 / 10) s) as [Hs|Hs].
  - destruct Hb as [->|(a0 & a1 & b0 & b1 & -> & H)].
    + rewrite areaJS_step_first by assumption.
      right. exists x, x, y, y. repeat split; lra.
    + rewrite areaJS_step_next by assumption.
      right. eexists _, _, _, _. split; [reflexivity|].
      unfold Rmin, Rmax.
      destruct (Rle_dec x a0), (Rle_dec a1 x), (Rle_dec y b0),
        (Rle_dec b1 y); repeat split; lra.
  - unfold areaJS_step, kp. cbn. unfold Rleb.
    destruct (Rle_dec _ s); [lra|assumption].
Qed.

Lemma areaJS_within (x0 x1 y0 y1 : R) (l : list (R * R * R)) :
  (forall p, In p l ->
             x0 <= fst (fst p) <= x1 /\ y0 <= snd (fst p) <= y1) ->
  exists ar, computeKeypointAreaJS (pose l) = EFin ar
             /\ 0 <= ar <= Rmax 1 ((x1 - x0) * (y1 - y0)).
Proof.
  intros Hin.
  assert (Hfold : forall b, box_within x0 x1 y0 y1 b ->
            box_within x0 x1 y0 y1 (fold_left areaJS_step (pose l) b)).
  { induction l as [|p r IH]; intros b Hb; [exact Hb|].
    rewrite pose_cons. cbn [fold_left]. apply IH.
    - intros q Hq. apply Hin. now right.
    - destruct (Hin p (or_introl eq_refl)).
      now apply areaJS_step_within. }
  unfold computeKeypointAreaJS.
  destruct (Hfold bbox_init (or_introl eq_refl))
    as [->|(a0 & a1 & b0 & b1 & -> & H)].
  - exists 1. cbn. split; [f_equal; unfold Q2R; simpl; lra|].
    split; [lra|apply Rmax_l].
  - eexists. unfold fin_box. cbn. split; [reflexivity|].
    destruct H as (H1 & H2 & H3 & H4 & H5 & H6).
    split; [nra|].
    apply Rle_trans with ((x1 - x0) * (y1 - y0)); [nra|apply Rmax_r].
Qed.

Lemma exp_minus_6 : exp (- 6) < 15 / 100.
Proof.
  replace (- 6) with (- (6)) by lra. rewrite exp_Ropp.
  assert (H7 : 7 < exp 6).
  { pose proof (exp_ineq1 6). lra. }
  assert (Hinv : / exp 6 < / 7) by (apply Rinv_lt_contravar; nra).
  lra.
Qed.

(** Far enough apart for the area, a pair of keypoints weighs at most
    [exp (-6)]. *)
Lemma gauss_far (a : R) (i : nat) (d2 : R) :
  0 < a -> 12 * a * (46 / 1000) <= d2 -> gauss a i d2 <= exp (- 6).
Proof.
  intros Ha Hd. unfold gauss.
  pose proof (kernel_den_pos a i Ha) as Hden.
  destruct (falloff_ideal i) as [_ Hs].
  set (D := 2 * a * (2 * sigmaR i) * (2 * sigmaR i)) in *.
  assert (HD : 6 * D <= d2).
  { apply Rle_trans with (12 * a * (46 / 1000)); [|assumption].
    unfold D.
    assert (Hk : (2 * sigmaR i) * (2 * sigmaR i) <= 46 / 1000) by nra.
    replace (6 * (2 * a * (2 * sigmaR i) * (2 * sigmaR i)))
      with (12 * a * ((2 * sigmaR i) * (2 * sigmaR i))) by ring.
    apply Rmult_le_compat_l; [lra|assumption]. }
  assert (Hx : - d2 / D <= - 6).
  { apply Rmult_le_reg_r with D; [assumption|].
    unfold Rdiv. rewrite Rmult_assoc, Rinv_l by lra. lra. }
  destruct Hx as [Hlt | Heq].
  - left. now apply exp_increasing.
  - rewrite Heq. lra.
Qed.

Lemma terms_far (a D : R) (l1 l2 : list (R * R * R)) :
  0 < a -> 12 * a * (46 / 1000) <= D ->
  Forall2 (fun p q => D <= dist2 p q) l1 l2 ->
  forall i, Forall (fun t => 0 <= t <= exp (- 6)) (terms a i l1 l2).
Proof.
  intros Ha HD Hfar. induction Hfar as [|p q r1 r2 Hpq Hr IH]; intros i.
  - constructor.
  - cbn [terms]. destruct (skipped p q); [apply IH|].
    constructor; [|apply IH]. split.
    + left. apply gauss_bounds; [assumption|apply dist2_nonneg].
    + apply gauss_far; [assumption|lra].
Qed.

Lemma oksR_far (ar D : R) (l1 l2 : list (R * R * R)) :
  0 <= ar -> 12 * (ar + 1 / 1000000) * (46 / 1000) <= D ->
  Forall2 (fun p q => D <= dist2 p q) l1 l2 ->
  oksR ar l1 l2 < 15 / 100.
Proof.
  intros Hpos HD Hfar. unfold oksR.
  destruct (negb _); [lra|]. cbv zeta.
  pose proof (terms_far (ar + 1 / 1000000) D l1 l2 ltac:(lra) HD Hfar 0)
    as Hb.
  set (T := terms (ar + 1 / 1000000) 0 l1 l2) in *.
  destruct (Nat.ltb_spec (List.length T) 4) as [Hfew|Hmany]; [lra|].
  apply Rsum_bounds in Hb.
  assert (Hn : 0 < INR (List.length T)) by (apply lt_0_INR; lia).
  apply Rle_lt_trans with (exp (- 6)); [|apply exp_minus_6].
  apply Rmult_le_reg_r with (INR (List.length T)); [assumption|].
  unfold Rdiv. rewrite Rmult_assoc, Rinv_l by lra. lra.
Qed.

Lemma stationaryPerson_within (x y : R) (p : R * R * R) :
  In p (stationaryPerson x y) ->
  x <= fst (fst p) <= x + 80 /\ y <= snd (fst p) <= y + 80.
Proof.
  unfold stationaryPerson. intros Hin.
  apply in_map_iff in Hin as (i & <- & Hi).
  apply in_seq in Hi. cbn [fst snd].
  assert (0 <= INR i <= 16).
  { split; [apply pos_INR|].
    replace 16 with (INR 16) by (simpl; lra). apply le_INR. lia. }
  lra.
Qed.

Lemma stationaryPerson_far (a b : R) :
  Forall2 (fun p q => 2 * ((a - b) * (a - b)) <= dist2 p q)
    (stationaryPerson a a) (stationaryPerson b b).
Proof.
  unfold stationaryPerson. generalize (seq 0 17).
  induction l as [|i r IH]; cbn [map]; constructor; [|exact IH].
  unfold dist2. cbn [fst snd]. right. ring.
Qed.

(** Two stationary people 1000 pixels apart or more are dissimilar for the
    tracker. *)
Lemma stationaryPerson_dissimilar (a b : R) :
  1000000 <= (a - b) * (a - b) ->
  exists r,
    computeOKSSimilarityJS (pose (stationaryPerson a a))
      (pose (stationaryPerson b b)) = EFin r
    /\ r < 15 / 100.
Proof.
  intros Hfar.
  destruct (areaJS_within b (b + 80) b (b + 80) (stationaryPerson b b)
              (stationaryPerson_within b b)) as (ar & Har & Hpos & Hmax).
  replace ((b + 80 - b) * (b + 80 - b)) with 6400 in Hmax by ring.
  rewrite Rmax_right in Hmax by lra.
  exists (oksR ar (stationaryPerson a a) (stationaryPerson b b)). split.
  - unfold computeOKSSimilarityJS. now apply oks_with_ideal.
  - apply oksR_far with (2 * ((a - b) * (a - b))); [assumption|nra|].
    apply stationaryPerson_far.
Qed.

End IdealCrowd.

(** ** The claims on concrete inputs *)

Section Capacity.
Import Ideal.
Local Open Scope R_scope.

Lemma crowd_nth (n i : nat) :
  (i < n)%nat ->
  nth i (crowd n) []
  = pose (stationaryPerson (1000 * INR i) (1000 * INR i)).
Proof.
  intros Hi. unfold crowd.
  rewrite nth_indep
    with (d' := pose (stationaryPerson (1000 * INR 0) (1000 * INR 0)))
    by (rewrite length_map, length_seq; exact Hi).
  rewrite (map_nth
             (fun j => pose (stationaryPerson (1000 * INR j)
                               (1000 * INR j)))).
  now rewrite seq_nth.
Qed.

Lemma apart (i j : nat) :
  i <> j ->
  1000000
  <= (1000 * INR i - 1000 * INR j) * (1000 * INR i - 1000 * INR j).
Proof.
  intros Hne.
  assert (Hcase : (S i <= j)%nat \/ (S j <= i)%nat) by lia.
  destruct Hcase as [Hlt|Hlt]; apply le_INR in Hlt; rewrite S_INR in Hlt;
    nra.
Qed.

(** C1, on a frame that the claim covers.  Nineteen people 1000 pixels
    apart are pairwise dissimilar (similarity below
    [TRACKING_MIN_SIMILARITY]); fed in one frame to a new tracker they
    leave nineteen tracks in the map, one more than
    [TRACKING_MAX_PERSONS]: the test of the capacity reads the number of
    tracks that were active when the frame started, which is 0 during the
    whole frame. *)
Theorem capacity_exceeded_by_first_frame :
  (forall i j, (i < 19)%nat -> (j < 19)%nat -> i <> j ->
     exists r,
       computeOKSSimilarityJS (nth i (crowd 19) []) (nth j (crowd 19) [])
       = EFin r
       /\ r < 15 / 100)
  /\ List.length (getTracks (procesFrame newTrackingManager (crowd 19) 0))
     = 19%nat
  /\ (TRACKING_MAX_PERSONS < 19)%nat.
Proof.
  split; [|split].
  - intros i j Hi Hj Hne. rewrite !crowd_nth by assumption.
    apply stationaryPerson_dissimilar. now apply apart.
  - rewrite procesFrame_first_frame. unfold crowd.
    now rewrite length_map, length_seq.
  - unfold TRACKING_MAX_PERSONS. lia.
Qed.

End Capacity.

Section Scenarios.
Import Ideal.
Local Open Scope R_scope.

(** C2 fails on the movement type ['curl']: the result has the score 100
    and no message, not the neutral result with score 0. *)
Lemma analyzeLiftForm_curl :
  let r :=
    analyzeLiftForm (num := ereal) [] (LiftString "curl") (EFin 640)
      (EFin 480) None None in
  formScore r = 100%Z /\ feedback r = [] /\ liftType r = "curl"%string
  /\ formScore r <> 0%Z.
Proof. lazy. repeat split. discriminate. Qed.

Lemma analyzeLiftForm_other_lift_type_witness :
  analyzeLiftForm (num := ereal) [] (LiftString "curl") (EFin 640)
    (EFin 480) None None
  = mkLiftAnalysis [] 100 "curl".
Proof.
  apply (analyzeLiftForm_other_lift_type (num := ereal) []
           (LiftString "curl") (EFin 640) (EFin 480) None None).
  reflexivity.
Defined.

(** C5 fails on a buffer of three values: the call returns 51 zeros, not
    the three values. *)
Lemma smoothKeypoints_short_buffer :
  let raw := [EFin 1; EFin 2; EFin 3] in
  fst (smoothKeypoints (Some raw) (fun _ => None) (JSNum (EFin 640))
         (JSNum (EFin 480)))
  = zeros 51
  /\ fst (smoothKeypoints (Some raw) (fun _ => None) (JSNum (EFin 640))
            (JSNum (EFin 480)))
     <> raw.
Proof. cbv zeta. split; [reflexivity|]. simpl. discriminate. Qed.

Lemma smoothKeypoints_guards_witness :
  smoothKeypoints (Some (repeat (EFin 0) 51)) (fun _ => None)
    (@JSNotNumber ereal) (JSNum (EFin 480))
  = (float32_copy (repeat (EFin 0) 51), fun _ => None).
Proof.
  apply (smoothKeypoints_guards (repeat (EFin 0) 51) (fun _ => None)
           (@JSNotNumber ereal) (JSNum (EFin 480))).
  right. left. exact I.
Defined.

(** C3 fails for [computeKeypointArea] on the pose of 17 keypoints with
    score 0: it returns [1e-6], not 1. *)
Lemma computeKeypointArea_zeroPose :
  computeKeypointArea zeroPose = EFin (1 / 1000000)
  /\ computeKeypointArea zeroPose <> EFin 1.
Proof.
  assert (E : computeKeypointArea zeroPose = EFin (1 / 1000000)).
  { rewrite <- epsilon_ideal. apply computeKeypointArea_none.
    intros k Hk. unfold zeroPose, pose in Hk.
    apply in_map_iff in Hk as (p & <- & Hp).
    apply repeat_spec in Hp. subst p. cbn. unfold Rltb. now rdec. }
  split; [exact E|]. rewrite E. intros H. injection H as H. lra.
Qed.

Lemma zeroPose_scores (k : Keypoint ereal) :
  In k zeroPose ->
  eisNaN (kp_score k) = false
  /\ (kp_score k >= OKS_KEYPOINT_THRESHOLD)%js = false.
Proof.
  intros Hk. unfold zeroPose, pose in Hk.
  apply in_map_iff in Hk as (p & <- & Hp).
  apply repeat_spec in Hp. subst p. cbn. unfold Rleb. now rdec.
Qed.

Lemma area_fallback_without_confidence_witness :
  computeKeypointAreaJS zeroPose = EFin 1
  /\ computeKeypointArea zeroPose = EFin (1 / 1000000)
  /\ computeOKSSimilarity zeroPose (pose squareA) = EFin 0
  /\ computeOKSSimilarity (pose squareA) zeroPose = EFin 0
  /\ computeOKSSimilarityJS zeroPose (pose squareA) = EFin 0
  /\ computeOKSSimilarityJS (pose squareA) zeroPose = EFin 0.
Proof.
  apply (area_fallback_without_confidence zeroPose (pose squareA)).
  exact zeroPose_scores.
Defined.

Lemma similarity_identity_witness :
  computeOKSSimilarity (pose squareA) (pose squareA) = EFin 1
  /\ computeOKSSimilarityJS (pose squareA) (pose squareA) = EFin 1.
Proof.
  apply (similarity_identity squareA).
  destruct count_above_squares as [E _]. rewrite E. apply Nat.le_refl.
Defined.

Lemma similarity_decreases_with_translation_witness :
  (exists r1 r2,
     computeOKSSimilarity (pose (translate 0 0 squareA)) (pose squareA)
     = EFin r1
     /\ computeOKSSimilarity (pose (translate 3 4 squareA)) (pose squareA)
        = EFin r2
     /\ r2 < r1)
  /\ (exists r1 r2,
        computeOKSSimilarityJS (pose (translate 0 0 squareA)) (pose squareA)
        = EFin r1
        /\ computeOKSSimilarityJS (pose (translate 3 4 squareA))
             (pose squareA) = EFin r2
        /\ r2 < r1).
Proof.
  apply (similarity_decreases_with_translation squareA 0 0 3 4 0 5).
  - destruct count_above_squares as [E _]. rewrite E. apply Nat.le_refl.
  - lra.
  - lra.
  - lra.
Defined.

End Scenarios.

Section Overflow.
Import Binary64.

(** C6 fails in double precision on finite keypoints with very large
    coordinates: the area of the reference pose and the squared distances
    overflow to [Infinity], their quotient is [NaN], and both similarity
    functions return [NaN], whatever [Math.exp] returns on the finite
    numbers. *)
Lemma similarity_nan_on_overflow :
  forallb finite_keypoint hugeA = true
  /\ forallb finite_keypoint hugeB = true
  /\ forall approx_exp Math_atan2,
       computeOKSSimilarity (H := binary64 approx_exp Math_atan2)
         hugeA hugeB = S754_nan
       /\ computeOKSSimilarityJS (H := binary64 approx_exp Math_atan2)
            hugeA hugeB = S754_nan.
Proof.
  split; [vm_compute; reflexivity|].
  split; [vm_compute; reflexivity|].
  intros approx_exp Math_atan2. split; vm_compute; reflexivity.
Qed.

(** The identity of C8 in double precision, on a pose whose width
    overflows and whose height is 0: [computeOKSSimilarity], which floors
    width and height at [1e-6], returns 1; [computeOKSSimilarityJS], which
    does not, multiplies [Infinity] by 0 and returns [NaN]. *)
Lemma similarity_identity_on_overflow :
  forallb finite_keypoint flat = true
  /\ confident_count flat = 4%nat
  /\ forall approx_exp Math_atan2,
       computeOKSSimilarity (H := binary64 approx_exp Math_atan2)
         flat flat = of_Z 1
       /\ computeOKSSimilarityJS (H := binary64 approx_exp Math_atan2)
            flat flat = S754_nan.
Proof.
  split; [vm_compute; reflexivity|].
  split; [vm_compute; reflexivity|].
  intros approx_exp Math_atan2. split; vm_compute; reflexivity.
Qed.

End Overflow.

(** ** The similarity in double precision *)

Section Rounding.
Import Binary64.

(** C9 fails in double precision.  Four keypoints at the origin are moved
    along the horizontal axis.  Moved by [1e-200], whose square underflows
    to 0, the pose has the similarity 1 with the pose it comes from, as the
    pose that is not moved has: the similarity is not strictly less.  Moved
    by [1e200] and by [2e200], whose squares overflow, it has the
    similarity 0 both times.  This holds for both similarity functions,
    whatever [Math.exp] returns on the finite numbers other than 0. *)
Lemma similarity_plateaus_in_doubles :
  let zero := of_Z 0 in
  let huge2 := SFadd prec emax huge huge in
  forallb finite_keypoint still = true
  /\ confident_count still = 4%nat
  /\ forallb finite_keypoint (b64_translate tiny zero still) = true
  /\ forallb finite_keypoint (b64_translate huge2 zero still) = true
  /\ SFltb zero tiny = true
  /\ SFltb huge huge2 = true
  /\ forall approx_exp Math_atan2,
       let similarity :=
         computeOKSSimilarity (H := binary64 approx_exp Math_atan2) in
       let similarityJS :=
         computeOKSSimilarityJS (H := binary64 approx_exp Math_atan2) in
       similarity (b64_translate zero zero still) still = of_Z 1
       /\ similarity (b64_translate tiny zero still) still = of_Z 1
       /\ SFltb (similarity (b64_translate tiny zero still) still)
            (similarity (b64_translate zero zero still) still) = false
       /\ similarity (b64_translate huge zero still) still = S754_zero false
       /\ similarity (b64_translate huge2 zero still) still
          = S754_zero false
       /\ SFltb (similarity (b64_translate huge2 zero still) still)
            (similarity (b64_translate huge zero still) still) = false
       /\ similarityJS (b64_translate zero zero still) still = of_Z 1
       /\ similarityJS (b64_translate tiny zero still) still = of_Z 1
       /\ SFltb (similarityJS (b64_translate tiny zero still) still)
            (similarityJS (b64_translate zero zero still) still) = false.
Proof.
  cbv zeta.
  do 6 (split; [vm_compute; reflexivity|]).
  intros approx_exp Math_atan2.
  do 8 (split; [vm_compute; reflexivity|]).
  vm_compute; reflexivity.
Qed.

(** C10.  The similarity is not symmetric, and the code shows it in double
    precision.  [cluster] and [spread] are finite poses of six keypoints,
    with four and six scores above the threshold.  With [spread] as second
    argument the area that normalises the distances is infinite and the
    similarity is 1; with [cluster] as second argument the area is small,
    the same distances count as infinitely far and the similarity is 0.
    This holds for both similarity functions, whatever [Math.exp] returns on
    the finite numbers other than 0. *)
Theorem similarity_not_symmetric :
  forallb finite_keypoint cluster = true
  /\ forallb finite_keypoint spread = true
  /\ List.length cluster = List.length spread
  /\ (4 <= confident_count cluster)%nat
  /\ (4 <= confident_count spread)%nat
  /\ forall approx_exp Math_atan2,
       let similarity :=
         computeOKSSimilarity (H := binary64 approx_exp Math_atan2) in
       let similarityJS :=
         computeOKSSimilarityJS (H := binary64 approx_exp Math_atan2) in
       similarity cluster spread = of_Z 1
       /\ similarity spread cluster = S754_zero false
       /\ similarity cluster spread <> similarity spread cluster
       /\ similarityJS cluster spread = of_Z 1
       /\ similarityJS spread cluster = S754_zero false
       /\ similarityJS cluster spread <> similarityJS spread cluster.
Proof.
  do 3 (split; [vm_compute; reflexivity|]).
  do 2 (split; [vm_compute; lia|]).
  intros approx_exp Math_atan2. cbv zeta.
  do 5 (split; [vm_compute; first [reflexivity | discriminate]|]).
  vm_compute; discriminate.
Qed.

End Rounding.

(** * Further properties *)

(** ** The bookkeeping of a frame *)

Section TrackerFrames.
Context {num : Type} `{JSNumber num}.

Lemma best_step_unmatched (tracks : TrackMap num) (matched : list Z)
    (d : Pose num) (best : Z * num) (trackRef : Z) :
  fst best = (-1)%Z \/ ~ In (fst best) matched ->
  fst (best_step tracks matched d best trackRef) = (-1)%Z
  \/ ~ In (fst (best_step tracks matched d best trackRef)) matched.
Proof.
  intros Hbest. unfold best_step.
  destruct (map_get trackRef tracks) as [track|]; [|exact Hbest].
  destruct (existsb (Z.eqb (id track)) matched) eqn:E; [exact Hbest|].
  destruct (_ > _)%js; [|exact Hbest].
  right. cbn [fst]. intros Hin.
  assert (existsb (Z.eqb (id track)) matched = true) as E'.
  { apply existsb_exists. exists (id track). split; [exact Hin|].
    apply Z.eqb_refl. }
  congruence.
Qed.

Lemma best_match_unmatched (tracks : TrackMap num) (act matched : list Z)
    (d : Pose num) :
  fst (best_match tracks act matched d) = (-1)%Z
  \/ ~ In (fst (best_match tracks act matched d)) matched.
Proof.
  unfold best_match.
  assert (Hinit : fst ((-1)%Z, TRACKING_MIN_SIMILARITY (num := num)) = (-1)%Z
                  \/ ~ In (fst ((-1)%Z, TRACKING_MIN_SIMILARITY (num := num)))
                          matched) by now left.
  revert Hinit. generalize ((-1)%Z, TRACKING_MIN_SIMILARITY (num := num)).
  induction act as [|a r IH]; intros best Hbest; simpl; [exact Hbest|].
  apply IH. now apply best_step_unmatched.
Qed.

(** The cases of [detection_step] with the tests that select them. *)
Lemma detection_step_guarded (t : Z) (act : list Z) (st : FrameState num)
    (d : Pose num) :
  detection_step t act st d = st
  \/ (exists k track,
        ~ In k (fs_matched st)
        /\ map_get k (fs_tracks st) = Some track
        /\ detection_step t act st d =
           mkFrameState
             (map_set k (mkTrackedPerson (id track) t d) (fs_tracks st))
             (fs_next st) (k :: fs_matched st) (fs_allocated st))
  \/ ((List.length act < TRACKING_MAX_PERSONS)%nat
      /\ detection_step t act st d =
         mkFrameState
           (map_set (fs_next st) (mkTrackedPerson (fs_next st) t d)
              (fs_tracks st))
           (fs_next st + 1) (fs_matched st)
           (fs_allocated st ++ [fs_next st])).
Proof.
  unfold detection_step.
  pose proof (best_match_unmatched (fs_tracks st) act (fs_matched st) d)
    as Hbest.
  destruct (Z.geb_spec (fst (best_match (fs_tracks st) act (fs_matched st) d))
              0) as [Hge|Hlt].
  - destruct (map_get _ (fs_tracks st)) as [track|] eqn:E; [|now left].
    right; left.
    exists (fst (best_match (fs_tracks st) act (fs_matched st) d)), track.
    split; [|split; [exact E|reflexivity]].
    destruct Hbest as [Hm|Hn]; [lia|exact Hn].
  - destruct (Nat.ltb_spec (List.length act) TRACKING_MAX_PERSONS);
      [right; right; now split|now left].
Qed.

(** X1.  The bookkeeping of one call of [procesFrame], from any state of the
    tracker: no track is matched by two detections of the frame; a detection
    matches one track, opens one track or is dropped, so that the matches
    and the identifiers allocated are together at most the detections; and
    the counter advances by the number of identifiers allocated. *)
Theorem frame_bookkeeping (m : TrackingManager num) (ds : list (Pose num))
    (t : Z) :
  let st := frame_loop m ds t in
  NoDup (fs_matched st)
  /\ (List.length (fs_matched st) + List.length (allocatedBy m ds t)
      <= List.length ds)%nat
  /\ nextPersonId (procesFrame m ds t)
     = (nextPersonId m + Z.of_nat (List.length (allocatedBy m ds t)))%Z.
Proof.
  unfold allocatedBy, procesFrame, frame_loop. cbn [nextPersonId].
  set (act := map fst _).
  assert (Hinit :
    forall st0 : FrameState num,
      NoDup (fs_matched st0) ->
      let st := fold_left (detection_step t act) ds st0 in
      NoDup (fs_matched st)
      /\ (List.length (fs_matched st) + List.length (fs_allocated st)
          <= List.length (fs_matched st0) + List.length (fs_allocated st0)
             + List.length ds)%nat
      /\ (fs_next st - Z.of_nat (List.length (fs_allocated st))
          = fs_next st0 - Z.of_nat (List.length (fs_allocated st0)))%Z).
  { induction ds as [|d r IH]; intros st0 ND; cbn [fold_left].
    - cbv zeta. split; [exact ND|split; [simpl; lia|reflexivity]].
    - destruct (detection_step_guarded t act st0 d)
        as [E|[(k & track & Hk & _ & E)|[_ E]]]; rewrite E.
      + destruct (IH st0 ND) as (A & B & C).
        split; [exact A|split; [simpl; lia|exact C]].
      + set (st1 := mkFrameState _ _ _ _).
        destruct (IH st1) as (A & B & C); [now constructor|].
        split; [exact A|split; [simpl in *; lia|exact C]].
      + set (st1 := mkFrameState _ _ _ _).
        destruct (IH st1 ND) as (A & B & C).
        split; [exact A|split].
        * simpl in *. rewrite length_app in B. simpl in B. lia.
        * rewrite C. simpl. rewrite length_app. simpl. lia. }
  destruct (Hinit (mkFrameState (trackedPersons m) (nextPersonId m) [] []))
    as (A & B & C); [constructor|].
  cbv zeta. split; [exact A|split; [simpl in B; lia|simpl in C; lia]].
Qed.

End TrackerFrames.

(** ** Tracks across frames *)

Section TrackerRuns.
Context {num : Type} `{JSNumber num}.

Lemma map_set_in_same (k : Z) (v : TrackedPerson num) (m : TrackMap num) :
  In (k, v) (map_set k v m).
Proof.
  induction m as [|[k' v'] r IH]; simpl; [now left|].
  destruct (Z.eqb_spec k k') as [->|Hne]; [now left|now right].
Qed.

Lemma map_set_in_other (k k' : Z) (v v' : TrackedPerson num)
    (m : TrackMap num) :
  k' <> k -> In (k', v') m -> In (k', v') (map_set k v m).
Proof.
  intros Hne. induction m as [|[k0 v0] r IH]; simpl; [contradiction|].
  destruct (Z.eqb_spec k k0) as [->|Hne0].
  - intros [E|Hin]; [injection E as <- <-; congruence|now right].
  - intros [E|Hin]; [now left|right; now apply IH].
Qed.

Lemma map_set_fresh_app (k : Z) (v : TrackedPerson num) (m : TrackMap num) :
  ~ In k (map_keys m) -> map_set k v m = m ++ [(k, v)].
Proof.
  induction m as [|[k' v'] r IH]; simpl; [reflexivity|].
  intros Hnot. destruct (Z.eqb_spec k k') as [->|Hne].
  - exfalso. apply Hnot. now left.
  - f_equal. apply IH. intros Hin. apply Hnot. now right.
Qed.

Lemma map_set_length_in (k : Z) (v : TrackedPerson num) (m : TrackMap num) :
  In k (map_keys m) -> List.length (map_set k v m) = List.length m.
Proof.
  intros Hin.
  rewrite <- (length_map fst (map_set k v m)), <- (length_map fst m).
  change (map fst (map_set k v m)) with (map_keys (map_set k v m)).
  now rewrite map_set_keys_in.
Qed.

(** The sweep keeps exactly the tracks that [is_active] accepts. *)
Lemma age_out_active (t : Z) (m : TrackMap num) :
  age_out t m = filter (fun e => is_active t (snd e)) m.
Proof.
  unfold age_out, is_active. apply filter_ext. intros e.
  rewrite Z.geb_leb, Z.leb_antisym. apply negb_involutive.
Qed.

Lemma age_out_in (t : Z) (m : TrackMap num) (k : Z)
    (v : TrackedPerson num) :
  In (k, v) m -> (t - lastSeen v < TRACKING_MAX_AGE)%Z ->
  In (k, v) (age_out t m).
Proof.
  intros Hin Hfresh. apply filter_In. split; [exact Hin|].
  simpl. apply negb_true_iff. rewrite Z.geb_leb. now apply Z.leb_gt.
Qed.

Lemma detection_step_carries (keys0 : list Z) (lo t : Z) (act : list Z)
    (st : FrameState num) (d : Pose num) (ds : list (Pose num)) (k : Z)
    (track : TrackedPerson num) :
  frame_inv keys0 lo st -> In d ds ->
  (exists track', In (k, track') (fs_tracks st)
                  /\ carried_on ds t track track') ->
  exists track', In (k, track') (fs_tracks (detection_step t act st d))
                 /\ carried_on ds t track track'.
Proof.
  intros (Hlo & [ND Hall] & _) Hd (track' & Hin & Hid & Hcase).
  destruct (detection_step_cases t act st d)
    as [->|[(k0 & track0 & Hget & ->)| ->]]; cbn [fs_tracks].
  - exists track'. now split.
  - destruct (Z.eq_dec k k0) as [<-|Hne].
    + exists (mkTrackedPerson (id track0) t d).
      split; [apply map_set_in_same|].
      rewrite (map_get_first _ _ _ ND Hin) in Hget. injection Hget as <-.
      split; [exact Hid|right; now split].
    + exists track'. split; [now apply map_set_in_other|now split].
  - exists track'. split; [|now split].
    apply map_set_in_other; [|exact Hin].
    destruct (Hall _ _ Hin). lia.
Qed.

Lemma frame_loop_carries (m : TrackingManager num) (ds : list (Pose num))
    (t : Z) (k : Z) (track : TrackedPerson num) :
  (0 <= nextPersonId m)%Z ->
  wf_tracks (nextPersonId m) (trackedPersons m) ->
  In (k, track) (trackedPersons m) ->
  exists track', In (k, track') (fs_tracks (frame_loop m ds t))
                 /\ carried_on ds t track track'.
Proof.
  intros Hpos Hwf Hin. unfold frame_loop. set (act := map fst _).
  assert (Hinit : frame_inv (map_keys (trackedPersons m)) (nextPersonId m)
                    (mkFrameState (trackedPersons m) (nextPersonId m) [] [])).
  { refine (conj _ (conj _ (conj _ (conj _ _)))); simpl.
    - lia.
    - assumption.
    - constructor.
    - constructor.
    - rewrite app_nil_r. apply incl_refl. }
  assert (Hstart : exists track',
            In (k, track') (fs_tracks (mkFrameState (trackedPersons m)
                                         (nextPersonId m) [] []))
            /\ carried_on ds t track track').
  { exists track. split; [exact Hin|]. split; [reflexivity|now left]. }
  revert Hinit Hstart.
  generalize (mkFrameState (trackedPersons m) (nextPersonId m) [] []).
  assert (Hsub : incl ds ds) by apply incl_refl. revert Hsub.
  generalize ds at 1 4 as rest.
  induction rest as [|d r IH]; intros Hsub st Hinv Hst; cbn [fold_left];
    [exact Hst|].
  apply IH.
  - intros x Hx. apply Hsub. now right.
  - now apply detection_step_inv.
  - eapply detection_step_carries; [exact Hinv| |exact Hst].
    apply Hsub. now left.
Qed.

(** X2.  In a run of a new tracker, a track of the map that was seen less
    than [TRACKING_MAX_AGE] before the next frame is still in the map after
    that frame, under the same key and with the same identifier: as it was,
    or with the time of the frame and the keypoints of one of its
    detections. *)
Theorem live_track_persists (frames : list (Frame num))
    (ds : list (Pose num)) (t : Z) (k : Z) (track : TrackedPerson num) :
  let m := run newTrackingManager frames in
  In (k, track) (getTracks m) ->
  (t - lastSeen track < TRACKING_MAX_AGE)%Z ->
  exists track',
    In (k, track') (getTracks (procesFrame m ds t))
    /\ id track' = id track
    /\ (track' = track
        \/ (lastSeen track' = t /\ In (keypoints track') ds)).
Proof.
  intros m Hin Hfresh.
  destruct (run_inv frames [] newTrackingManager tracker_inv_new)
    as (Hpos & Hwf & _). fold m in Hpos, Hwf.
  destruct (frame_loop_carries m ds t k track Hpos Hwf Hin)
    as (track' & Hin' & Hid & Hcase).
  exists track'. split; [|split; assumption].
  unfold getTracks, procesFrame. cbn [trackedPersons].
  apply age_out_in; [exact Hin'|].
  destruct Hcase as [->|[-> _]]; [exact Hfresh|].
  rewrite Z.sub_diag. reflexivity.
Qed.

(** One frame with at most one detection keeps the map within the limit. *)
Lemma procesFrame_single (m : TrackingManager num) (ds : list (Pose num))
    (t : Z) :
  wf_tracks (nextPersonId m) (trackedPersons m) ->
  (List.length (trackedPersons m) <= TRACKING_MAX_PERSONS)%nat ->
  (List.length ds <= 1)%nat ->
  (List.length (trackedPersons (procesFrame m ds t))
   <= TRACKING_MAX_PERSONS)%nat.
Proof.
  intros Hwf Hlen Hds. unfold procesFrame, frame_loop. cbn [trackedPersons].
  destruct ds as [|d [|d' r]]; [| |simpl in Hds; lia]; cbn [fold_left].
  - cbn [fs_tracks]. unfold age_out.
    etransitivity; [apply filter_length_le|exact Hlen].
  - set (act := map fst _). set (st0 := mkFrameState _ _ _ _).
    destruct (detection_step_guarded t act st0 d)
      as [E|[(k & track & _ & Hget & E)|[Hact E]]]; rewrite E;
      cbn [fs_tracks st0].
    + unfold age_out.
      etransitivity; [apply filter_length_le|exact Hlen].
    + unfold age_out. etransitivity; [apply filter_length_le|].
      rewrite map_set_length_in; [exact Hlen|].
      change k with (fst (k, track)). apply in_map.
      now apply map_get_in.
    + rewrite map_set_fresh_app by now apply wf_tracks_fresh.
      rewrite age_out_active, filter_app, length_app.
      unfold act in Hact. rewrite length_map in Hact.
      pose proof (filter_length_le
                    (fun e : Z * TrackedPerson num => is_active t (snd e))
                    [(fs_next st0, mkTrackedPerson (fs_next st0) t d)])
        as Hone.
      cbn [List.length] in Hone. lia.
Qed.

(** X3.  When every frame of a run of a new tracker has at most one
    detection, the map never holds more than [TRACKING_MAX_PERSONS]
    tracks. *)
Theorem single_detection_capacity (frames : list (Frame num)) :
  Forall (fun f => (List.length (fst f) <= 1)%nat) frames ->
  (List.length (getTracks (run newTrackingManager frames))
   <= TRACKING_MAX_PERSONS)%nat.
Proof.
  intros Hall. unfold getTracks.
  assert (Hgen : forall (allocated : list Z) (m : TrackingManager num),
            tracker_inv allocated m ->
            (List.length (trackedPersons m) <= TRACKING_MAX_PERSONS)%nat ->
            (List.length (trackedPersons (run m frames))
             <= TRACKING_MAX_PERSONS)%nat).
  { induction Hall as [|[ds t] r Hds _ IH]; intros allocated m Hinv Hlen;
      [exact Hlen|].
    cbn [run fold_left fst snd]. apply (IH (allocated ++ allocatedBy m ds t)).
    - now apply procesFrame_inv.
    - destruct Hinv as (_ & Hwf & _). now apply procesFrame_single. }
  apply (Hgen [] newTrackingManager tracker_inv_new). simpl.
  unfold TRACKING_MAX_PERSONS. lia.
Qed.

(** X4.  The frame history of a run of a new tracker holds the timestamps of
    the frames, in order, one entry per frame; the entry of the last frame
    records the number of tracks that the frame has left in the map. *)
Theorem frame_history_records (frames : list (Frame num))
    (ds : list (Pose num)) (t : Z) :
  map fst (frameHistory (run newTrackingManager frames)) = map snd frames
  /\ last (frameHistory (run newTrackingManager (frames ++ [(ds, t)])))
          (0%Z, 0%nat)
     = (t, List.length
             (getTracks (run newTrackingManager (frames ++ [(ds, t)])))).
Proof.
  split.
  - assert (Hgen : forall m : TrackingManager num,
              map fst (frameHistory (run m frames))
              = map fst (frameHistory m) ++ map snd frames).
    { induction frames as [|[ds' t'] r IH]; intros m; cbn [run fold_left].
      - simpl. now rewrite app_nil_r.
      - change (fold_left _ r ?x) with (run x r). rewrite IH.
        cbn [procesFrame frameHistory fst snd map].
        rewrite map_app, <- app_assoc. reflexivity. }
    rewrite Hgen. reflexivity.
  - rewrite run_snoc. unfold procesFrame, getTracks.
    cbn [frameHistory trackedPersons]. apply last_last.
Qed.

End TrackerRuns.

(** ** One body followed over frames *)

Section TrackerContinuity.
Context {num : Type} `{JSNumber num}.

(** A detection similar enough to the only track of the map, seen while the
    track is active, takes the track over. *)
Lemma procesFrame_rematch (k next t t' : Z) (p p' : Pose num)
    (history : list (Z * nat)) :
  (0 <= k)%Z -> (t' - t < TRACKING_MAX_AGE)%Z ->
  (computeOKSSimilarityJS p' p > TRACKING_MIN_SIMILARITY)%js = true ->
  procesFrame
    (mkTrackingManager [(k, mkTrackedPerson k t p)] next history) [p'] t'
  = mkTrackingManager [(k, mkTrackedPerson k t' p')] next
      (history ++ [(t', 1%nat)]).
Proof.
  intros Hk Hage Hsim.
  assert (Hact : is_active t' (mkTrackedPerson k t p) = true).
  { unfold is_active. cbn [lastSeen]. now apply Z.ltb_lt. }
  assert (Hgeb : (k >=? 0)%Z = true).
  { rewrite Z.geb_leb. now apply Z.leb_le. }
  unfold procesFrame, frame_loop.
  cbn [trackedPersons nextPersonId frameHistory filter snd].
  rewrite Hact. cbn [map fst fold_left].
  unfold detection_step, best_match.
  cbn [fs_tracks fs_matched fs_next fs_allocated fold_left].
  unfold best_step. cbn [map_get]. rewrite Z.eqb_refl.
  cbn [existsb id keypoints snd]. rewrite Hsim. cbn [fst].
  rewrite Hgeb. cbn [map_get]. rewrite Z.eqb_refl.
  cbn [map_set]. rewrite Z.eqb_refl. cbn [fs_tracks fs_next id].
  unfold age_out. cbn [filter snd lastSeen].
  rewrite Z.sub_diag. reflexivity.
Qed.

Lemma last_default {A : Type} (l : list A) (a d d' : A) :
  last (a :: l) d = last (a :: l) d'.
Proof.
  revert a. induction l as [|b r IH]; intros a; [reflexivity|].
  change (last (b :: r) d = last (b :: r) d'). apply IH.
Qed.

Lemma run_followed (p : Pose num) (t next : Z)
    (sightings : list (Pose num * Z)) (history : list (Z * nat)) :
  followed p t sightings ->
  let m :=
    run (mkTrackingManager [(0%Z, mkTrackedPerson 0 t p)] next history)
      (sighting_frames sightings) in
  getTracks m
  = [(0%Z, mkTrackedPerson 0 (snd (last sightings (p, t)))
             (fst (last sightings (p, t))))]
  /\ nextPersonId m = next.
Proof.
  revert p t history.
  induction sightings as [|[p' t'] r IH]; intros p t history Hf.
  - simpl. now split.
  - destruct Hf as (Hage & Hsim & Hrest). cbn [fst snd] in Hage, Hsim, Hrest.
    cbn [sighting_frames map run fold_left fst snd].
    rewrite procesFrame_rematch by (assumption || lia).
    specialize (IH p' t' (history ++ [(t', 1%nat)]) Hrest).
    cbv zeta in IH. unfold run, sighting_frames in IH.
    destruct IH as [E1 E2]. cbv zeta. rewrite E1, E2.
    split; [|reflexivity].
    destruct r as [|s r']; [reflexivity|].
    change (last ((p', t') :: s :: r') (p, t)) with (last (s :: r') (p, t)).
    now rewrite (last_default r' s (p, t) (p', t')).
Qed.

(** X5.  One body followed over frames keeps one identifier.  When each frame
    has one detection, seen less than [TRACKING_MAX_AGE] after the one
    before and with a similarity to it above [TRACKING_MIN_SIMILARITY], a new
    tracker ends with exactly one track: identifier 0, the keypoints and the
    time of the last detection; the counter is 1. *)
Theorem identity_continuity (p : Pose num) (t : Z)
    (sightings : list (Pose num * Z)) :
  followed p t sightings ->
  let m := run newTrackingManager (sighting_frames ((p, t) :: sightings)) in
  getTracks m
  = [(0%Z, mkTrackedPerson 0 (snd (last sightings (p, t)))
             (fst (last sightings (p, t))))]
  /\ nextPersonId m = 1%Z.
Proof.
  intros Hf.
  cbn [sighting_frames map run fold_left fst snd].
  assert (E : procesFrame newTrackingManager [p] t
              = mkTrackingManager [(0%Z, mkTrackedPerson 0 t p)] 1
                  [(t, 1%nat)]).
  { unfold procesFrame, frame_loop, newTrackingManager.
    cbn [trackedPersons nextPersonId frameHistory filter map fold_left].
    unfold detection_step, best_match.
    cbn [fold_left fst fs_tracks fs_next fs_matched fs_allocated map_set].
    cbn. unfold age_out. cbn [filter snd lastSeen].
    rewrite Z.sub_diag. reflexivity. }
  rewrite E.
  apply (run_followed p t 1 sightings [(t, 1%nat)] Hf).
Qed.

End TrackerContinuity.

(** ** The floor of the similarity *)

Section SimilarityFloor.
Context {num : Type} `{JSNumber num}.

Lemma oks_loop_count (area : num) (p1 p2 : Pose num) :
  forall (i : nat) (st : num * nat),
    snd (oks_loop area i p1 p2 st) = (snd st + valid_pairs p1 p2)%nat.
Proof.
  revert p2. induction p1 as [|k1 r1 IH]; intros p2 i st.
  - simpl. unfold valid_pairs. simpl. lia.
  - destruct p2 as [|k2 r2].
    + simpl. unfold valid_pairs. simpl. lia.
    + cbn [oks_loop]. rewrite IH. unfold valid_pairs.
      cbn [combine filter fst snd]. unfold oks_step.
      destruct st as [s n].
      destruct ((kp_score k1 < OKS_KEYPOINT_THRESHOLD)%js
                || (kp_score k2 < OKS_KEYPOINT_THRESHOLD)%js);
        cbn [negb snd List.length]; lia.
Qed.

Lemma oks_with_floor (areaOf : Pose num -> num) (p1 p2 : Pose num) :
  (valid_pairs p1 p2 < OKS_MIN_KEYPOINTS)%nat ->
  oks_with areaOf p1 p2 = lit (0 # 1).
Proof.
  intros Hfew. unfold oks_with.
  destruct (negb _); [reflexivity|].
  pose proof (oks_loop_count (areaOf p2 + EPSILON)%js p1 p2 0
                (lit (0 # 1), 0%nat)) as Hc.
  destruct (oks_loop _ 0 p1 p2 _) as [s n]. cbn [snd] in Hc.
  rewrite Nat.add_0_l in Hc. subst n.
  apply Nat.ltb_lt in Hfew. now rewrite Hfew.
Qed.

Lemma valid_pairs_le (p1 p2 : Pose num) :
  (valid_pairs p1 p2 <= Nat.min (List.length p1) (List.length p2))%nat.
Proof.
  unfold valid_pairs. etransitivity; [apply filter_length_le|].
  now rewrite length_combine.
Qed.

(** X7.  With fewer than [OKS_MIN_KEYPOINTS] index positions at which neither
    score is below [OKS_KEYPOINT_THRESHOLD], both similarity functions
    return 0, whatever the positions are. *)
Theorem similarity_floor (p1 p2 : Pose num) :
  (valid_pairs p1 p2 < OKS_MIN_KEYPOINTS)%nat ->
  computeOKSSimilarity p1 p2 = lit (0 # 1)
  /\ computeOKSSimilarityJS p1 p2 = lit (0 # 1).
Proof.
  intros Hfew. split; now apply oks_with_floor.
Qed.

End SimilarityFloor.

(** ** Symmetries of the similarity in exact arithmetic *)

Section IdealSymmetry.
Import Ideal.
Local Open Scope R_scope.

Lemma dist2_sym (p q : R * R * R) : dist2 p q = dist2 q p.
Proof. unfold dist2. ring. Qed.

Lemma skipped_sym (p q : R * R * R) : skipped p q = skipped q p.
Proof. unfold skipped. apply orb_comm. Qed.

Lemma terms_sym (a : R) (l1 l2 : list (R * R * R)) :
  forall i, terms a i l1 l2 = terms a i l2 l1.
Proof.
  revert l2. induction l1 as [|p r1 IH]; intros [|q r2] i;
    try reflexivity.
  cbn [terms]. rewrite (skipped_sym p q), (dist2_sym p q), IH.
  reflexivity.
Qed.

Lemma oksR_sym (ar : R) (l1 l2 : list (R * R * R)) :
  oksR ar l1 l2 = oksR ar l2 l1.
Proof.
  unfold oksR. rewrite (Nat.eqb_sym (List.length l1)), terms_sym.
  reflexivity.
Qed.

(** X8.  Exchanging the arguments changes the similarity only through the
    area of the reference pose: for finite poses with the same area, each
    similarity function has the same value in both orders (exact
    arithmetic). *)
Theorem similarity_symmetric_on_equal_areas (l1 l2 : list (R * R * R)) :
  (computeKeypointArea (pose l1) = computeKeypointArea (pose l2) ->
   computeOKSSimilarity (pose l1) (pose l2)
   = computeOKSSimilarity (pose l2) (pose l1))
  /\ (computeKeypointAreaJS (pose l1) = computeKeypointAreaJS (pose l2) ->
      computeOKSSimilarityJS (pose l1) (pose l2)
      = computeOKSSimilarityJS (pose l2) (pose l1)).
Proof.
  split; intros Harea.
  - destruct (computeKeypointArea_ideal l2) as (ar & Har & Hpos).
    unfold computeOKSSimilarity.
    rewrite (oks_with_ideal _ l1 l2 ar Har) by lra.
    rewrite Har in Harea.
    rewrite (oks_with_ideal _ l2 l1 ar Harea) by lra.
    now rewrite oksR_sym.
  - destruct (computeKeypointAreaJS_ideal l2) as (ar & Har & Hpos).
    unfold computeOKSSimilarityJS.
    rewrite (oks_with_ideal _ l1 l2 ar Har) by lra.
    rewrite Har in Harea.
    rewrite (oks_with_ideal _ l2 l1 ar Harea) by lra.
    now rewrite oksR_sym.
Qed.

Lemma kp_of_translate (dx dy : R) (p : R * R * R) :
  kp_of (fst (fst p) + dx, snd (fst p) + dy, snd p)
  = kp (fst (fst p) + dx) (snd (fst p) + dy) (snd p).
Proof. reflexivity. Qed.

Lemma areaJS_step_shifted (dx dy : R) (b b' : BBox ereal)
    (p : R * R * R) :
  box_shifted dx dy b b' ->
  box_shifted dx dy (areaJS_step b (kp_of p))
    (areaJS_step b' (kp_of (fst (fst p) + dx, snd (fst p) + dy, snd p))).
Proof.
  destruct p as [[x y] s]. unfold kp_of, kp. cbn [fst snd].
  unfold areaJS_step. cbn [kp_score kp_x kp_y].
  destruct (_ >= _)%js; [|easy].
  intros [[-> ->]|(x0 & x1 & y0 & y1 & -> & ->)].
  - right. exists x, x, y, y. split; reflexivity.
  - right. unfold fin_box. cbn. unfold Rltb.
    destruct (Rlt_dec x x0), (Rlt_dec (x + dx) (x0 + dx)); try lra;
      destruct (Rlt_dec x1 x), (Rlt_dec (x1 + dx) (x + dx)); try lra;
      destruct (Rlt_dec y y0), (Rlt_dec (y + dy) (y0 + dy)); try lra;
      destruct (Rlt_dec y1 y), (Rlt_dec (y1 + dy) (y + dy)); try lra;
      eexists _, _, _, _; split; reflexivity.
Qed.

Lemma areaJS_fold_shifted (dx dy : R) (l : list (R * R * R))
    (b b' : BBox ereal) :
  box_shifted dx dy b b' ->
  box_shifted dx dy (fold_left areaJS_step (pose l) b)
    (fold_left areaJS_step (pose (translate dx dy l)) b').
Proof.
  revert b b'. induction l as [|p r IH]; intros b b' Hb; [exact Hb|].
  cbn [translate map]. fold (translate dx dy r).
  rewrite !pose_cons. cbn [fold_left]. apply IH.
  now apply areaJS_step_shifted.
Qed.

Lemma computeKeypointAreaJS_translate (dx dy : R) (l : list (R * R * R)) :
  computeKeypointAreaJS (pose (translate dx dy l))
  = computeKeypointAreaJS (pose l).
Proof.
  unfold computeKeypointAreaJS.
  destruct (areaJS_fold_shifted dx dy l bbox_init bbox_init
              (or_introl (conj eq_refl eq_refl)))
    as [[-> ->]|(x0 & x1 & y0 & y1 & -> & ->)]; [reflexivity|].
  unfold fin_box. cbn. f_equal. ring.
Qed.







(** A pose with four confident keypoints is similar enough to itself for
    the tracker. *)
Lemma similarityJS_self_tracked (l : list (R * R * R)) :
  (4 <= count_above l)%nat ->
  (computeOKSSimilarityJS (pose l) (pose l) > TRACKING_MIN_SIMILARITY)%js
  = true.
Proof.
  intros Hcount.
  destruct (computeKeypointAreaJS_ideal l) as (ar & Har & Hpos).
  unfold computeOKSSimilarityJS.
  rewrite (oks_with_ideal _ l l ar Har) by lra.
  rewrite oksR_self by assumption.
  unfold gt, TRACKING_MIN_SIMILARITY. cbn. unfold Rltb, Q2R. simpl.
  now rdec.
Qed.

End IdealSymmetry.

(** ** The loop of [smoothKeypoints] *)

Section SmoothingLoop.
Context {num : Type} `{JSNumber num}.

Lemma array_set_length (a : list num) (i : nat) (v : num) :
  List.length (array_set a i v) = List.length a.
Proof.
  revert i. induction a as [|h r IH]; intros [|i]; simpl; try reflexivity.
  now rewrite IH.
Qed.

Lemma array_set_nth (a : list num) (i : nat) (v : num) (j : nat) (d : num) :
  nth j (array_set a i v) d
  = if Nat.eqb j i && Nat.ltb i (List.length a) then Math_fround v
    else nth j a d.
Proof.
  revert i j. induction a as [|h r IH]; intros i j.
  - simpl. destruct i; simpl; now rewrite andb_false_r.
  - destruct i as [|i], j as [|j]; try reflexivity.
    cbn [array_set nth List.length]. rewrite IH. reflexivity.
Qed.

Lemma smooth_slot_unfold (keypoints : list num) (screenWidth screenHeight : num)
    (last : LastKeypoints num) (out : list num) (i : nat) :
  smooth_slot keypoints screenWidth screenHeight (last, out) i
  = if Nat.leb (List.length keypoints) (i * 3 + 2) then (last, out)
    else
      let new := slot_update keypoints screenWidth screenHeight (last i) i in
      (slot_set last i new,
       if Nat.ltb (i * 3 + 2) (List.length out) then
         array_set
           (array_set
              (array_set out (i * 3) (slot_y new / screenHeight)%js)
              (i * 3 + 1) (slot_x new / screenWidth)%js)
           (i * 3 + 2) (slot_score new)
       else out).
Proof.
  unfold smooth_slot, slot_update.
  destruct (Nat.leb _ _); [reflexivity|].
  destruct (last i); reflexivity.
Qed.

(** The state and the result after the first [n] iterations of the loop,
    for a buffer that holds the 17 keypoints. *)
Lemma smooth_fold (keypoints : list num) (screenWidth screenHeight : num)
    (last : LastKeypoints num) (out : list num) :
  (51 <= List.length keypoints)%nat ->
  List.length out = List.length keypoints ->
  forall n, (n <= 17)%nat ->
  let r :=
    fold_left (smooth_slot keypoints screenWidth screenHeight) (seq 0 n)
      (last, out) in
  List.length (snd r) = List.length keypoints
  /\ (forall i,
        fst r i
        = if Nat.ltb i n then
            Some (slot_update keypoints screenWidth screenHeight (last i) i)
          else last i)
  /\ (forall i, (i < n)%nat ->
        (at_index (snd r) (i * 3), at_index (snd r) (i * 3 + 1),
         at_index (snd r) (i * 3 + 2))
        = slot_output screenWidth screenHeight
            (slot_update keypoints screenWidth screenHeight (last i) i))
  /\ (forall j, (n * 3 <= j)%nat -> at_index (snd r) j = at_index out j).
Proof.
  intros Hlen Hout. induction n as [|n IH]; intros Hn.
  - cbn [seq fold_left fst snd]. split; [exact Hout|].
    split; [reflexivity|]. split; [intros i Hi; lia|reflexivity].
  - rewrite seq_S, fold_left_app. cbn [Nat.add fold_left].
    destruct IH as (Hl & Hst & Hval & Hrest); [lia|].
    destruct (fold_left _ (seq 0 n) (last, out)) as [last_n out_n].
    cbn [fst snd] in Hl, Hst, Hval, Hrest.
    rewrite smooth_slot_unfold.
    destruct (Nat.leb_spec (List.length keypoints) (n * 3 + 2)) as [Hbad|_];
      [lia|].
    assert (Hin : Nat.ltb (n * 3 + 2) (List.length out_n) = true)
      by (apply Nat.ltb_lt; lia).
    rewrite Hin. cbv zeta. cbn [fst snd].
    assert (Hn_last : last_n n = last n).
    { rewrite Hst. now rewrite Nat.ltb_irrefl. }
    rewrite Hn_last.
    set (new := slot_update keypoints screenWidth screenHeight (last n) n).
    assert (Hnth : forall j,
      at_index
        (array_set
           (array_set
              (array_set out_n (n * 3) (slot_y new / screenHeight)%js)
              (n * 3 + 1) (slot_x new / screenWidth)%js)
           (n * 3 + 2) (slot_score new)) j
      = if Nat.eqb j (n * 3 + 2) then Math_fround (slot_score new)
        else if Nat.eqb j (n * 3 + 1) then
               Math_fround (slot_x new / screenWidth)%js
        else if Nat.eqb j (n * 3) then
               Math_fround (slot_y new / screenHeight)%js
        else at_index out_n j).
    { intros j. unfold at_index.
      rewrite !array_set_nth, !array_set_length.
      assert (E0 : Nat.ltb (n * 3) (List.length out_n) = true)
        by (apply Nat.ltb_lt; lia).
      assert (E1 : Nat.ltb (n * 3 + 1) (List.length out_n) = true)
        by (apply Nat.ltb_lt; lia).
      rewrite E0, E1, Hin, !andb_true_r. reflexivity. }
    split; [now rewrite !array_set_length|].
    split; [|split].
    + intros i. unfold slot_set.
      destruct (Nat.eqb_spec i n) as [->|Hne].
      * assert (E : Nat.ltb n (S n) = true) by (apply Nat.ltb_lt; lia).
        now rewrite E.
      * rewrite Hst.
        destruct (Nat.ltb_spec i n), (Nat.ltb_spec i (S n));
          try reflexivity; lia.
    + intros i Hi. rewrite !Hnth.
      destruct (Nat.eq_dec i n) as [->|Hne].
      * rewrite Nat.eqb_refl.
        assert (E1 : Nat.eqb (n * 3 + 1) (n * 3 + 2) = false)
          by (apply Nat.eqb_neq; lia).
        assert (E2 : Nat.eqb (n * 3) (n * 3 + 2) = false)
          by (apply Nat.eqb_neq; lia).
        assert (E3 : Nat.eqb (n * 3) (n * 3 + 1) = false)
          by (apply Nat.eqb_neq; lia).
        rewrite E1, E2, E3, !Nat.eqb_refl. reflexivity.
      * assert (Hlt : (i < n)%nat) by lia.
        repeat match goal with
               | |- context [Nat.eqb ?a ?b] =>
                   let E := fresh "E" in
                   assert (E : Nat.eqb a b = false)
                     by (apply Nat.eqb_neq; lia);
                   rewrite E; clear E
               end.
        now apply Hval.
    + intros j Hj. rewrite Hnth.
      repeat match goal with
             | |- context [Nat.eqb ?a ?b] =>
                 let E := fresh "E" in
                 assert (E : Nat.eqb a b = false)
                   by (apply Nat.eqb_neq; lia);
                 rewrite E; clear E
             end.
      apply Hrest. lia.
Qed.

Lemma zeros_length (n : nat) : List.length (zeros (num := num) n) = n.
Proof. apply repeat_length. Qed.

Lemma float32_copy_length (a : list num) :
  List.length (float32_copy a) = List.length a.
Proof. apply length_map. Qed.

(** The call when the guards are passed. *)
Lemma smoothKeypoints_passed (keypoints : list num)
    (last : LastKeypoints num) (screenWidth screenHeight : num) :
  (51 <= List.length keypoints)%nat ->
  (screenWidth <= lit (0 # 1))%js = false ->
  (screenHeight <= lit (0 # 1))%js = false ->
  smoothKeypoints (Some keypoints) last (JSNum screenWidth)
    (JSNum screenHeight)
  = (snd (fold_left (smooth_slot keypoints screenWidth screenHeight)
            (seq 0 17) (last, zeros (List.length keypoints))),
     fst (fold_left (smooth_slot keypoints screenWidth screenHeight)
            (seq 0 17) (last, zeros (List.length keypoints)))).
Proof.
  intros Hlen HW HH. unfold smoothKeypoints.
  destruct (Nat.ltb_spec (List.length keypoints) 51) as [Hshort|_]; [lia|].
  rewrite HW, HH. cbn [orb].
  now destruct (fold_left _ _ _).
Qed.

(** X10.  The result of [smoothKeypoints] has 51 values when the buffer is
    missing or has fewer than 51 values, and as many values as the buffer
    otherwise, whatever the screen dimensions and the filter state are. *)
Theorem smoothKeypoints_length (keypoints : option (list num))
    (last : LastKeypoints num) (screenWidth screenHeight : JSValue num) :
  List.length (fst (smoothKeypoints keypoints last screenWidth screenHeight))
  = match keypoints with
    | Some k => if Nat.ltb (List.length k) 51 then 51%nat else List.length k
    | None => 51%nat
    end.
Proof.
  destruct keypoints as [k|]; [|apply zeros_length].
  unfold smoothKeypoints.
  destruct (Nat.ltb_spec (List.length k) 51) as [Hshort|Hlong];
    [apply zeros_length|].
  destruct screenWidth as [w|], screenHeight as [h|];
    try apply float32_copy_length.
  destruct (_ || _); [apply float32_copy_length|].
  destruct (smooth_fold k w h last (zeros (List.length k)) Hlong
              (zeros_length _) 17 (Nat.le_refl _)) as (Hl & _).
  destruct (fold_left _ _ _) as [last' out]. exact Hl.
Qed.

(** X11.  After a call of [smoothKeypoints] that passes the guards, the
    dictionary holds a state for each of the 17 slots, and the three values
    of the slot in the result are the state's [y / screenHeight],
    [x / screenWidth] and score, stored as [Float32]; the entries of the
    dictionary for other keys are untouched, and the values of the result
    from index 51 on are 0. *)
Theorem smoothKeypoints_state (keypoints : list num)
    (last : LastKeypoints num) (screenWidth screenHeight : num) :
  (51 <= List.length keypoints)%nat ->
  (screenWidth <= lit (0 # 1))%js = false ->
  (screenHeight <= lit (0 # 1))%js = false ->
  let r :=
    smoothKeypoints (Some keypoints) last (JSNum screenWidth)
      (JSNum screenHeight) in
  (forall i, (i < 17)%nat ->
     exists new,
       snd r i = Some new
       /\ (at_index (fst r) (i * 3), at_index (fst r) (i * 3 + 1),
           at_index (fst r) (i * 3 + 2))
          = (Math_fround (slot_y new / screenHeight)%js,
             Math_fround (slot_x new / screenWidth)%js,
             Math_fround (slot_score new)))
  /\ (forall i, (17 <= i)%nat -> snd r i = last i)
  /\ (forall j, (51 <= j < List.length keypoints)%nat ->
        at_index (fst r) j = lit (0 # 1)).
Proof.
  intros Hlen HW HH. cbv zeta.
  rewrite smoothKeypoints_passed by assumption. cbn [fst snd].
  destruct (smooth_fold keypoints screenWidth screenHeight last
              (zeros (List.length keypoints)) Hlen (zeros_length _) 17
              (Nat.le_refl _)) as (Hl & Hst & Hval & Hrest).
  split; [|split].
  - intros i Hi.
    exists (slot_update keypoints screenWidth screenHeight (last i) i).
    split.
    + rewrite Hst. apply Nat.ltb_lt in Hi. now rewrite Hi.
    + now apply Hval.
  - intros i Hi. rewrite Hst.
    destruct (Nat.ltb_spec i 17); [lia|reflexivity].
  - intros j Hj. rewrite Hrest by lia. unfold at_index, zeros.
    apply nth_repeat_lt. lia.
Qed.

End SmoothingLoop.

(** ** Smoothing in exact arithmetic *)

Section IdealSmoothing.
Import Ideal.
Local Open Scope R_scope.

Lemma at_index_buffer (k : list R) (j : nat) :
  (j < List.length k)%nat -> at_index (map EFin k) j = EFin (nth j k 0).
Proof.
  intros Hj. unfold at_index.
  rewrite (nth_indep _ NaN (EFin 0)) by now rewrite length_map.
  apply map_nth.
Qed.

Lemma positive_dimension (W : R) :
  0 < W -> (EFin W <= lit (0 # 1))%js = false.
Proof.
  intros HW. cbn. unfold Rleb, Q2R. simpl.
  destruct (Rle_dec W (0 * / 1)); [lra|reflexivity].
Qed.

Lemma slot_update_none (k : list R) (W Hh : R) (i : nat) :
  (i * 3 + 2 < List.length k)%nat ->
  slot_update (map EFin k) (EFin W) (EFin Hh) None i = raw_slot k W Hh i.
Proof.
  intros Hi. unfold slot_update, raw_slot.
  rewrite !at_index_buffer by lia. reflexivity.
Qed.

(** A slot that holds the raw values is left as it is by the same values:
    the movement is below the threshold, or the score is. *)
Lemma slot_update_still (k : list R) (W Hh : R) (i : nat) :
  0 < W -> (i * 3 + 2 < List.length k)%nat ->
  slot_update (map EFin k) (EFin W) (EFin Hh) (Some (raw_slot k W Hh i)) i
  = raw_slot k W Hh i.
Proof.
  intros HW Hi. unfold slot_update.
  rewrite !at_index_buffer by lia.
  destruct (_ > _)%js; [|reflexivity].
  unfold raw_slot. cbn [slot_x slot_y].
  cbn [sub mul ideal esub eneg eadd emul Math_abs eabs lt elt lit].
  assert (E : forall a, Rltb (Rabs (a + - a)) (W * Q2R (1 # 100)) = true).
  { intros a. apply Rltb_true. replace (a + - a) with 0 by ring.
    rewrite Rabs_R0. unfold Q2R. simpl. lra. }
  now rewrite !E.
Qed.

Lemma slot_output_raw (k : list R) (W Hh : R) (i : nat) :
  0 < W -> 0 < Hh ->
  slot_output (EFin W) (EFin Hh) (raw_slot k W Hh i)
  = (EFin (nth (i * 3) k 0), EFin (nth (i * 3 + 1) k 0),
     EFin (nth (i * 3 + 2) k 0)).
Proof.
  intros HW HH. unfold slot_output, raw_slot.
  cbn [slot_x slot_y slot_score Math_fround div ideal ediv].
  rewrite !Reqb_false by lra.
  repeat f_equal; field; lra.
Qed.

(** The result of a call in which every slot takes the raw values. *)
Lemma smoothKeypoints_raw (k : list R) (W Hh : R)
    (last : LastKeypoints ereal) :
  (51 <= List.length k)%nat -> 0 < W -> 0 < Hh ->
  (forall i, (i < 17)%nat ->
     slot_update (map EFin k) (EFin W) (EFin Hh) (last i) i
     = raw_slot k W Hh i) ->
  let r :=
    smoothKeypoints (Some (map EFin k)) last (JSNum (EFin W))
      (JSNum (EFin Hh)) in
  fst r = map EFin (firstn 51 k) ++ zeros (List.length k - 51)
  /\ (forall i,
        snd r i = if Nat.ltb i 17 then Some (raw_slot k W Hh i) else last i).
Proof.
  intros Hlen HW HH Hraw. cbv zeta.
  rewrite smoothKeypoints_passed
    by (rewrite ?length_map; auto using positive_dimension).
  cbn [fst snd].
  assert (Hlen' : (51 <= List.length (map EFin k))%nat)
    by now rewrite length_map.
  destruct (smooth_fold (map EFin k) (EFin W) (EFin Hh) last
              (zeros (List.length (map EFin k))) Hlen' (zeros_length _) 17
              (Nat.le_refl _)) as (Hl & Hst & Hval & Hrest).
  destruct (fold_left _ _ _) as [last' out]. cbn [fst snd] in *.
  unfold at_index in Hval, Hrest.
  split.
  - apply (nth_ext _ _ NaN NaN).
    + rewrite Hl, length_app, !length_map, length_firstn, zeros_length. lia.
    + intros j Hj. rewrite Hl, length_map in Hj.
      destruct (Nat.lt_ge_cases j 51) as [Hlow|Hhigh].
      * rewrite app_nth1 by (rewrite length_map, length_firstn; lia).
        rewrite (nth_indep (map EFin (firstn 51 k)) NaN (EFin 0))
          by (rewrite length_map, length_firstn; lia).
        rewrite map_nth, nth_firstn.
        apply Nat.ltb_lt in Hlow as Hlow'. rewrite Hlow'.
        assert (Hex : exists q m, j = (q * 3 + m)%nat /\ (m < 3)%nat
                                  /\ (q < 17)%nat).
        { exists (j / 3)%nat, (j mod 3)%nat.
          pose proof (Nat.div_mod_eq j 3) as Hdm.
          pose proof (Nat.mod_upper_bound j 3 ltac:(lia)) as Hm.
          repeat split; lia. }
        destruct Hex as (q & m & -> & Hm & Hq).
        specialize (Hval q Hq).
        rewrite (Hraw _ Hq), slot_output_raw in Hval by assumption.
        injection Hval as E0 E1 E2.
        destruct m as [|[|[|m]]]; [| | |lia].
        -- rewrite Nat.add_0_r. exact E0.
        -- exact E1.
        -- exact E2.
      * rewrite Hrest by lia.
        rewrite app_nth2 by (rewrite length_map, length_firstn; lia).
        unfold zeros. rewrite !nth_repeat_lt; [reflexivity| |].
        -- rewrite length_map, length_firstn. lia.
        -- rewrite length_map. lia.
  - intros i. rewrite Hst.
    destruct (Nat.ltb_spec i 17) as [Hi|_]; [|reflexivity].
    now rewrite Hraw.
Qed.

(** X12.  The first call, with an empty dictionary, on a buffer of finite
    values and positive finite screen dimensions, returns the first 51
    values of the buffer unchanged, followed by zeros, and stores for each
    slot its position in pixels, its score and no velocity (exact
    arithmetic). *)
Theorem smoothKeypoints_first_call (k : list R) (W Hh : R) :
  (51 <= List.length k)%nat -> 0 < W -> 0 < Hh ->
  let r :=
    smoothKeypoints (Some (map EFin k)) (fun _ => None) (JSNum (EFin W))
      (JSNum (EFin Hh)) in
  fst r = map EFin (firstn 51 k) ++ zeros (List.length k - 51)
  /\ (forall i,
        snd r i = if Nat.ltb i 17 then Some (raw_slot k W Hh i) else None).
Proof.
  intros Hlen HW HH.
  apply (smoothKeypoints_raw k W Hh (fun _ => None) Hlen HW HH).
  intros i Hi. apply slot_update_none. lia.
Qed.

(** X13.  A body that does not move: a second call on the same buffer, with
    the dictionary that the first call has left, returns the same result
    and leaves the same dictionary (exact arithmetic). *)
Theorem smoothKeypoints_static (k : list R) (W Hh : R) :
  (51 <= List.length k)%nat -> 0 < W -> 0 < Hh ->
  let buffer := Some (map EFin k) in
  let r1 :=
    smoothKeypoints buffer (fun _ => None) (JSNum (EFin W))
      (JSNum (EFin Hh)) in
  let r2 :=
    smoothKeypoints buffer (snd r1) (JSNum (EFin W)) (JSNum (EFin Hh)) in
  fst r2 = fst r1 /\ forall i, snd r2 i = snd r1 i.
Proof.
  intros Hlen HW HH. cbv zeta.
  assert (Hnone : forall i, (i < 17)%nat ->
            slot_update (map EFin k) (EFin W) (EFin Hh) None i
            = raw_slot k W Hh i)
    by (intros i Hi; apply slot_update_none; lia).
  destruct (smoothKeypoints_raw k W Hh (fun _ => None) Hlen HW HH Hnone)
    as [E1 S1].
  set (r1 := smoothKeypoints _ (fun _ => None) _ _) in *.
  assert (Hsome : forall i, (i < 17)%nat ->
            slot_update (map EFin k) (EFin W) (EFin Hh) (snd r1 i) i
            = raw_slot k W Hh i).
  { intros i Hi. rewrite S1. apply Nat.ltb_lt in Hi as Hi'. rewrite Hi'.
    apply slot_update_still; [assumption|lia]. }
  destruct (smoothKeypoints_raw k W Hh (snd r1) Hlen HW HH Hsome)
    as [E2 S2].
  split; [now rewrite E1, E2|].
  intros i. rewrite S2, S1. now destruct (Nat.ltb i 17).
Qed.

End IdealSmoothing.

(** ** The filter in exact arithmetic *)

Section IdealFilter.
Import Ideal.
Local Open Scope R_scope.





End IdealFilter.

(** ** Landmarks that are not shown *)

Section FormLandmarks.
Context {num : Type} `{JSNumber num}.

Lemma getBilateralPoint_side (l r : Keypoint num) :
  side_is_none (bp_side (getBilateralPoint l r))
  = negb ((kp_score l > DETECTION_THRESHOLD)%js
          || (kp_score r > DETECTION_THRESHOLD)%js).
Proof.
  unfold getBilateralPoint.
  destruct (kp_score l > DETECTION_THRESHOLD)%js,
    (kp_score r > DETECTION_THRESHOLD)%js; reflexivity.
Qed.

Lemma toLowerCase_nonempty (s t : string) :
  toLowerCase s = t -> t <> EmptyString -> String.eqb s EmptyString = false.
Proof. destruct s; simpl; [congruence|reflexivity]. Qed.

(** X15.  A lift that is not fully shown.  For a squat or a deadlift, when
    for one of the pairs shoulders, hips, knees, ankles neither side has a
    score above [DETECTION_THRESHOLD], the result is the single message that
    asks to show the body, with the score 70; for a bench press the same
    holds with the pairs shoulders, elbows, wrists. *)
Theorem analyzeLiftForm_body_not_shown (keypoints : list num) (s : string)
    (screenWidth screenHeight : num) (userHeight userWeight : option num) :
  let shown := pairs_visible keypoints screenWidth screenHeight in
  let r :=
    analyzeLiftForm keypoints (LiftString s) screenWidth screenHeight
      userHeight userWeight in
  (toLowerCase s = "squat"%string ->
   shown [(5, 6); (11, 12); (13, 14); (15, 16)]%nat = false ->
   r = mkLiftAnalysis [Msg "Position yourself to show full body"] 70 s)
  /\ (toLowerCase s = "bench"%string ->
      shown [(5, 6); (7, 8); (9, 10)]%nat = false ->
      r = mkLiftAnalysis [Msg "Position camera to show upper body"] 70 s)
  /\ (toLowerCase s = "deadlift"%string ->
      shown [(5, 6); (11, 12); (13, 14); (15, 16)]%nat = false ->
      r = mkLiftAnalysis [Msg "Position to show full body from side"] 70 s).
Proof.
  cbv zeta. unfold pairs_visible, visible. cbn [forallb fst snd].
  rewrite !andb_true_r.
  split; [|split]; intros Hs Hshown; unfold analyzeLiftForm;
    rewrite (toLowerCase_nonempty s _ Hs) by discriminate;
    unfold analysis; rewrite Hs; cbn [String.eqb Ascii.eqb Bool.eqb].
  - unfold analyze_squat, landmarks.
    cbn [hip knee ankle shoulder]. rewrite !getBilateralPoint_side.
    match type of Hshown with
    | ?a && (?b && (?c && ?d)) = false => destruct a, b, c, d
    end; try discriminate Hshown; reflexivity.
  - unfold analyze_bench, landmarks.
    cbn [shoulder leftElbow rightElbow leftWrist rightWrist].
    rewrite !getBilateralPoint_side.
    match type of Hshown with
    | ?a && (?b && ?c) = false => destruct a, b, c
    end; try discriminate Hshown; reflexivity.
  - unfold analyze_deadlift, landmarks.
    cbn [hip knee ankle shoulder]. rewrite !getBilateralPoint_side.
    match type of Hshown with
    | ?a && (?b && (?c && ?d)) = false => destruct a, b, c, d
    end; try discriminate Hshown; reflexivity.
Qed.

End FormLandmarks.

(** ** The geometry of the analysis in exact arithmetic *)

Section IdealGeometry.
Import Ideal.
Local Open Scope R_scope.

Lemma Ratan2_range (y x : R) : - PI <= Ratan2 y x <= PI.
Proof.
  pose proof PI_RGT_0 as Hpi. unfold Ratan2, Rltb.
  destruct (Rlt_dec 0 x) as [Hx|Hx].
  - pose proof (atan_bound (y / x)). lra.
  - destruct (Rlt_dec x 0) as [Hx'|Hx'].
    + pose proof (atan_bound (y / x)) as Hb.
      assert (Hinv : / x < 0) by now apply Rinv_lt_0_compat.
      destruct (Rlt_dec y 0) as [Hy|Hy].
      * assert (Hq : 0 < y / x) by (unfold Rdiv; nra).
        apply atan_increasing in Hq. rewrite atan_0 in Hq. lra.
      * assert (Hq : y / x <= 0) by (unfold Rdiv; nra).
        destruct Hq as [Hq|Hq].
        -- apply atan_increasing in Hq. rewrite atan_0 in Hq. lra.
        -- rewrite Hq, atan_0. lra.
    + destruct (Rlt_dec 0 y); [lra|]. destruct (Rlt_dec y 0); lra.
Qed.

Lemma esqrt_sum_squares (a b : R) :
  esqrt (EFin (a * a + b * b)) = EFin (sqrt (a * a + b * b)).
Proof.
  unfold esqrt. rewrite (proj2 (Rltb_false _ 0)); [reflexivity|].
  apply Rplus_le_le_0_compat; apply Rle_0_sqr.
Qed.

(** X16.  The angle at a joint, for three points with finite coordinates:
    [calculateAngle] returns [null] when one of the two segments is shorter
    than 1 pixel, and otherwise an angle in degrees between 0 and 180 (exact
    arithmetic). *)
Theorem calculateAngle_range (x1 y1 s1 x2 y2 s2 x3 y3 s3 : R) :
  let d12 := sqrt ((x2 - x1) * (x2 - x1) + (y2 - y1) * (y2 - y1)) in
  let d23 := sqrt ((x3 - x2) * (x3 - x2) + (y3 - y2) * (y3 - y2)) in
  let angle := calculateAngle (kp x1 y1 s1) (kp x2 y2 s2) (kp x3 y3 s3) in
  (d12 < 1 \/ d23 < 1 -> angle = None)
  /\ (1 <= d12 -> 1 <= d23 ->
      exists r, angle = Some (EFin r) /\ 0 <= r <= 180).
Proof.
  cbv zeta. unfold calculateAngle, kp. cbn [kp_x kp_y isNaN ideal eisNaN orb].
  cbn [pow2 sub add Math_sqrt ideal esub eneg eadd emul].
  rewrite !esqrt_sum_squares.
  fold (x2 - x1) (y2 - y1) (x3 - x2) (y3 - y2).
  set (d12 := sqrt _). set (d23 := sqrt _).
  cbn [lt ideal elt lit]. replace (Q2R (1 # 1)) with 1
    by (unfold Q2R; simpl; lra).
  split.
  - intros [Hd|Hd].
    + rewrite (proj2 (Rltb_true d12 1) Hd). reflexivity.
    + rewrite (proj2 (Rltb_true d23 1) Hd). now rewrite orb_true_r.
  - intros H12 H23.
    rewrite (proj2 (Rltb_false d12 1) H12), (proj2 (Rltb_false d23 1) H23).
    cbn [orb Math_atan2 eatan2 mul div Math_abs Math_PI ideal eabs ediv emul
           esub eneg eadd].
    pose proof PI_RGT_0 as Hpi.
    rewrite (Reqb_false PI 0) by lra. cbn [eabs].
    set (rad := Ratan2 _ _ + - Ratan2 _ _).
    assert (Hrad : - (2 * PI) <= rad <= 2 * PI).
    { unfold rad.
      match goal with
      | |- context [Ratan2 ?a ?b + - Ratan2 ?c ?d] =>
          pose proof (Ratan2_range a b); pose proof (Ratan2_range c d)
      end.
      lra. }
    replace (Q2R (180 # 1)) with 180 by (unfold Q2R; simpl; lra).
    set (deg := Rabs (rad * 180 / PI)).
    assert (Hdeg : 0 <= deg <= 360).
    { unfold deg. split; [apply Rabs_pos|].
      apply Rabs_le.
      assert (Hinv : 0 < / PI) by now apply Rinv_0_lt_compat.
      assert (E : 360 = 2 * PI * 180 * / PI) by (field; lra).
      unfold Rdiv. rewrite E. split; nra. }
    cbn [gt lt ideal elt lit sub esub eneg eadd].
    replace (Q2R (360 # 1)) with 360 by (unfold Q2R; simpl; lra).
    unfold Rltb. destruct (Rlt_dec 180 deg).
    + eexists. split; [reflexivity|lra].
    + eexists. split; [reflexivity|lra].
Qed.



End IdealGeometry.

(** ** The crop region *)

Section CropThrows.
Context {num : Type} `{JSNumber num}.

Lemma getTorsoBBox_thrown (keypoints : list (list num)) :
  getTorsoBBox keypoints = Thrown <-> (List.length keypoints < 13)%nat.
Proof.
  unfold getTorsoBBox.
  destruct (nth_error keypoints 5) as [a|] eqn:E5;
    [|apply nth_error_None in E5; split; [lia|reflexivity]].
  destruct (nth_error keypoints 6) as [b|] eqn:E6;
    [|apply nth_error_None in E6; split; [lia|reflexivity]].
  destruct (nth_error keypoints 11) as [c|] eqn:E11;
    [|apply nth_error_None in E11; split; [lia|reflexivity]].
  destruct (nth_error keypoints 12) as [d|] eqn:E12;
    [|apply nth_error_None in E12; split; [lia|reflexivity]].
  assert (Hlen : (12 < List.length keypoints)%nat).
  { apply nth_error_Some. congruence. }
  split; [|lia].
  destruct (_ || _); discriminate.
Qed.

Lemma determineCropRegion_throws (keypoints : list (list num))
    (frameWidth frameHeight : num) :
  determineCropRegion keypoints frameWidth frameHeight = Thrown
  <-> (List.length keypoints < 13)%nat.
Proof.
  rewrite <- getTorsoBBox_thrown. unfold determineCropRegion.
  destruct (getTorsoBBox keypoints) as [[b|]|]; split; try discriminate;
    try reflexivity.
  destruct (_ || _); discriminate.
Qed.

(** X20.  [getTorsoBBox], and with it [determineCropRegion], throws exactly
    when the array has fewer than 13 keypoints: the score of the right hip,
    [keypoints[12][2]], is read before anything is tested. *)
Theorem determineCropRegion_thrown (keypoints : list (list num))
    (frameWidth frameHeight : num) :
  (getTorsoBBox keypoints = Thrown <-> (List.length keypoints < 13)%nat)
  /\ (determineCropRegion keypoints frameWidth frameHeight = Thrown
      <-> (List.length keypoints < 13)%nat).
Proof.
  split; [apply getTorsoBBox_thrown|apply determineCropRegion_throws].
Qed.

End CropThrows.

Section IdealBoxes.
Import Ideal.
Local Open Scope R_scope.

Lemma emin_fin (a b : R) : emin (EFin a) (EFin b) = EFin (Rmin a b).
Proof.
  unfold emin, Rmin. cbn [elt]. unfold Rltb.
  destruct (Rlt_dec b a), (Rle_dec a b); try lra; reflexivity.
Qed.

Lemma emax_fin (a b : R) : emax (EFin a) (EFin b) = EFin (Rmax a b).
Proof.
  unfold emax, Rmax. cbn [elt]. unfold Rltb.
  destruct (Rlt_dec a b), (Rle_dec a b); try lra; try reflexivity.
  f_equal. lra.
Qed.

Lemma tight_box_skip (thr : R) (seen : list (R * R * R)) (p : R * R * R)
    (x0 x1 y0 y1 : R) :
  snd p < thr -> tight_box thr seen x0 x1 y0 y1 ->
  tight_box thr (seen ++ [p]) x0 x1 y0 y1.
Proof.
  intros Hp (Hall & (a & Ha & Hva & Ea) & (b & Hb & Hvb & Eb)
             & (c & Hc & Hvc & Ec) & (d & Hd & Hvd & Ed)).
  split; [|split; [|split; [|split]]].
  - intros q Hq Hv. apply in_app_or in Hq as [Hq|[<-|[]]];
      [now apply Hall|lra].
  - exists a. split; [apply in_or_app; now left|now split].
  - exists b. split; [apply in_or_app; now left|now split].
  - exists c. split; [apply in_or_app; now left|now split].
  - exists d. split; [apply in_or_app; now left|now split].
Qed.

Lemma tight_box_first (thr : R) (seen : list (R * R * R)) (p : R * R * R) :
  (forall q, In q seen -> snd q < thr) -> thr <= snd p ->
  tight_box thr (seen ++ [p]) (fst (fst p)) (fst (fst p)) (snd (fst p))
    (snd (fst p)).
Proof.
  intros Hnone Hp.
  assert (Hin : In p (seen ++ [p])) by (apply in_or_app; right; now left).
  split; [|split; [|split; [|split]]]; try (exists p; now repeat split).
  intros q Hq Hv. apply in_app_or in Hq as [Hq|[<-|[]]].
  - specialize (Hnone q Hq). lra.
  - lra.
Qed.

Lemma tight_box_next (thr : R) (seen : list (R * R * R)) (p : R * R * R)
    (x0 x1 y0 y1 : R) :
  thr <= snd p -> tight_box thr seen x0 x1 y0 y1 ->
  tight_box thr (seen ++ [p]) (Rmin x0 (fst (fst p))) (Rmax x1 (fst (fst p)))
    (Rmin y0 (snd (fst p))) (Rmax y1 (snd (fst p))).
Proof.
  intros Hp (Hall & (a & Ha & Hva & Ea) & (b & Hb & Hvb & Eb)
             & (c & Hc & Hvc & Ec) & (d & Hd & Hvd & Ed)).
  assert (Hin : In p (seen ++ [p])) by (apply in_or_app; right; now left).
  assert (Hold : forall q, In q seen -> In q (seen ++ [p]))
    by (intros q Hq; apply in_or_app; now left).
  split; [|split; [|split; [|split]]].
  - intros q Hq Hv.
    pose proof (Rmin_l x0 (fst (fst p))). pose proof (Rmin_r x0 (fst (fst p))).
    pose proof (Rmax_l x1 (fst (fst p))). pose proof (Rmax_r x1 (fst (fst p))).
    pose proof (Rmin_l y0 (snd (fst p))). pose proof (Rmin_r y0 (snd (fst p))).
    pose proof (Rmax_l y1 (snd (fst p))). pose proof (Rmax_r y1 (snd (fst p))).
    apply in_app_or in Hq as [Hq|[<-|[]]].
    + destruct (Hall q Hq Hv). lra.
    + lra.
  - unfold Rmin. destruct (Rle_dec x0 (fst (fst p))).
    + exists a. auto.
    + exists p. auto.
  - unfold Rmax. destruct (Rle_dec x1 (fst (fst p))).
    + exists p. auto.
    + exists b. auto.
  - unfold Rmin. destruct (Rle_dec y0 (snd (fst p))).
    + exists c. auto.
    + exists p. auto.
  - unfold Rmax. destruct (Rle_dec y1 (snd (fst p))).
    + exists p. auto.
    + exists d. auto.
Qed.

Lemma bbox_step_state (thr : R) (seen : list (R * R * R))
    (st : BBox ereal * bool) (p : R * R * R) :
  bbox_state thr seen st ->
  bbox_state thr (seen ++ [p]) (bbox_step (EFin thr) st (triple_array p)).
Proof.
  intros Hst. unfold bbox_step, triple_array, at_index. cbn [nth].
  cbn [ge le ideal ele]. unfold Rleb.
  destruct (Rle_dec thr (snd p)) as [Hv|Hv].
  - destruct st as [b has].
    destruct Hst as [(Hhas & Hb & Hnone)|(Hhas & x0 & x1 & y0 & y1 & Hb & Ht)];
      cbn [fst snd] in *; subst; right; (split; [reflexivity|]).
    + exists (fst (fst p)), (fst (fst p)), (snd (fst p)), (snd (fst p)).
      split; [reflexivity|now apply tight_box_first].
    + exists (Rmin x0 (fst (fst p))), (Rmax x1 (fst (fst p))),
        (Rmin y0 (snd (fst p))), (Rmax y1 (snd (fst p))).
      split; [|now apply tight_box_next].
      unfold fin_box. cbn [fst minX maxX minY maxY Math_min Math_max ideal].
      now rewrite !emin_fin, !emax_fin.
  - assert (Hlow : snd p < thr) by lra.
    destruct Hst as [(Hhas & Hb & Hnone)|(Hhas & x0 & x1 & y0 & y1 & Hb & Ht)].
    + left. split; [exact Hhas|split; [exact Hb|]].
      intros q Hq. apply in_app_or in Hq as [Hq|[<-|[]]];
        [now apply Hnone|exact Hlow].
    + right. split; [exact Hhas|]. exists x0, x1, y0, y1.
      split; [exact Hb|now apply tight_box_skip].
Qed.

Lemma bbox_fold_state (thr : R) (rest seen : list (R * R * R))
    (st : BBox ereal * bool) :
  bbox_state thr seen st ->
  bbox_state thr (seen ++ rest)
    (fold_left (bbox_step (EFin thr)) (arrays rest) st).
Proof.
  revert seen st. induction rest as [|p r IH]; intros seen st Hst.
  - now rewrite app_nil_r.
  - cbn [arrays map fold_left]. fold (arrays r).
    replace (seen ++ p :: r) with ((seen ++ [p]) ++ r)
      by now rewrite <- app_assoc.
    apply IH. now apply bbox_step_state.
Qed.

(** The result of [calculateBoundingBox] on finite keypoints. *)
Lemma calculateBoundingBox_ideal (l : list (R * R * R)) (thr : R) :
  let b := calculateBoundingBox (arrays l) (EFin thr) in
  ((forall p, In p l -> snd p < thr)
   /\ b = mkBoundingBox (lit (0 # 1)) (lit (0 # 1)) (lit (0 # 1))
           (lit (0 # 1)) (lit (0 # 1)) (lit (0 # 1)))
  \/ (exists x0 x1 y0 y1,
        b = mkBoundingBox (EFin x0) (EFin x1) (EFin y0) (EFin y1)
              (EFin (x1 - x0)) (EFin (y1 - y0))
        /\ tight_box thr l x0 x1 y0 y1).
Proof.
  cbv zeta. unfold calculateBoundingBox.
  assert (Hinit : bbox_state thr [] (bbox_init, false)).
  { left. split; [reflexivity|split; [reflexivity|intros p []]]. }
  pose proof (bbox_fold_state thr l [] _ Hinit) as Hst.
  cbn [app] in Hst.
  destruct (fold_left _ (arrays l) _) as [b has].
  destruct Hst as [(Hhas & Hb & Hnone)|(Hhas & x0 & x1 & y0 & y1 & Hb & Ht)];
    cbn [fst snd] in *; subst; cbn [negb].
  - left. now split.
  - right. exists x0, x1, y0, y1. split; [reflexivity|exact Ht].
Qed.

(** X18.  The bounding box of finite keypoints: without a keypoint whose score
    is at least the threshold, every field of the result is 0; with one, the
    box holds every such keypoint, each of its sides passes through one of
    them, and [width] and [height] are the differences of the sides (exact
    arithmetic). *)
Theorem calculateBoundingBox_tight (l : list (R * R * R)) (thr : R) :
  let b := calculateBoundingBox (arrays l) (EFin thr) in
  ((forall p, In p l -> snd p < thr) ->
   b = mkBoundingBox (lit (0 # 1)) (lit (0 # 1)) (lit (0 # 1)) (lit (0 # 1))
         (lit (0 # 1)) (lit (0 # 1)))
  /\ ((exists p, In p l /\ thr <= snd p) ->
      exists x0 x1 y0 y1,
        b = mkBoundingBox (EFin x0) (EFin x1) (EFin y0) (EFin y1)
              (EFin (x1 - x0)) (EFin (y1 - y0))
        /\ tight_box thr l x0 x1 y0 y1).
Proof.
  cbv zeta.
  destruct (calculateBoundingBox_ideal l thr)
    as [[Hnone E]|(x0 & x1 & y0 & y1 & E & Ht)].
  - split; [intros _; exact E|].
    intros (p & Hp & Hv). specialize (Hnone p Hp). lra.
  - split.
    + intros Hnone. destruct Ht as (_ & (p & Hp & Hv & _) & _).
      specialize (Hnone p Hp). lra.
    + intros _. now exists x0, x1, y0, y1.
Qed.

End IdealBoxes.

Section IdealCrop.
Import Ideal.
Local Open Scope R_scope.

Lemma nth_error_arrays (l : list (R * R * R)) (i : nat) :
  (i < List.length l)%nat ->
  nth_error (arrays l) i = Some (triple_array (nth i l (0, 0, 0))).
Proof.
  intros Hi. unfold arrays.
  rewrite nth_error_map, (nth_error_nth' l (0, 0, 0) Hi). reflexivity.
Qed.

(** The torso box on finite keypoints. *)
Lemma getTorsoBBox_ideal (l : list (R * R * R)) :
  (13 <= List.length l)%nat ->
  let x i := fst (fst (nth i l (0, 0, 0))) in
  let y i := snd (fst (nth i l (0, 0, 0))) in
  let s i := snd (nth i l (0, 0, 0)) in
  getTorsoBBox (arrays l)
  = if Rltb (Rmin (s 5%nat) (s 6%nat)) (2 / 10)
       || Rltb (Rmin (s 11%nat) (s 12%nat)) (2 / 10)
    then Returned None
    else
      Returned
        (Some
           (fin_box (Rmin4 (x 5%nat) (x 6%nat) (x 11%nat) (x 12%nat))
              (Rmax4 (x 5%nat) (x 6%nat) (x 11%nat) (x 12%nat))
              (Rmin4 (y 5%nat) (y 6%nat) (y 11%nat) (y 12%nat))
              (Rmax4 (y 5%nat) (y 6%nat) (y 11%nat) (y 12%nat)))).
Proof.
  intros Hlen. cbv zeta. unfold getTorsoBBox.
  rewrite !nth_error_arrays by lia.
  unfold triple_array, at_index. cbn [nth List.length Nat.sub seq fold_left].
  cbn [Math_min Math_max ideal minX maxX minY maxY].
  rewrite !emin_fin, !emax_fin.
  unfold CROP_KEYPOINT_SCORE_THRESHOLD. cbn [lt ideal elt lit].
  replace (Q2R (2 # 10)) with (2 / 10) by (unfold Q2R; simpl; lra).
  reflexivity.
Qed.

(** X19.  The torso box of at least 13 finite keypoints: [null] when a score
    of a shoulder or of a hip is below [CROP_KEYPOINT_SCORE_THRESHOLD], and
    otherwise the box spanned by the two shoulders and the two hips (exact
    arithmetic). *)
Theorem getTorsoBBox_torso (l : list (R * R * R)) :
  (13 <= List.length l)%nat ->
  let x i := fst (fst (nth i l (0, 0, 0))) in
  let y i := snd (fst (nth i l (0, 0, 0))) in
  let s i := snd (nth i l (0, 0, 0)) in
  (s 5%nat < 2 / 10 \/ s 6%nat < 2 / 10 \/ s 11%nat < 2 / 10
   \/ s 12%nat < 2 / 10 ->
   getTorsoBBox (arrays l) = Returned None)
  /\ (2 / 10 <= s 5%nat -> 2 / 10 <= s 6%nat -> 2 / 10 <= s 11%nat ->
      2 / 10 <= s 12%nat ->
      getTorsoBBox (arrays l)
      = Returned
          (Some
             (fin_box (Rmin4 (x 5%nat) (x 6%nat) (x 11%nat) (x 12%nat))
                (Rmax4 (x 5%nat) (x 6%nat) (x 11%nat) (x 12%nat))
                (Rmin4 (y 5%nat) (y 6%nat) (y 11%nat) (y 12%nat))
                (Rmax4 (y 5%nat) (y 6%nat) (y 11%nat) (y 12%nat))))).
Proof.
  intros Hlen x y s.
  pose proof (getTorsoBBox_ideal l Hlen) as E. cbv zeta in E.
  fold x y s in E. rewrite E.
  pose proof (Rmin_l (s 5%nat) (s 6%nat)).
  pose proof (Rmin_r (s 5%nat) (s 6%nat)).
  pose proof (Rmin_l (s 11%nat) (s 12%nat)).
  pose proof (Rmin_r (s 11%nat) (s 12%nat)).
  split.
  - intros Hlow.
    assert (Hmin : Rmin (s 5%nat) (s 6%nat) < 2 / 10
                   \/ Rmin (s 11%nat) (s 12%nat) < 2 / 10).
    { destruct Hlow as [Hl|[Hl|[Hl|Hl]]]; [left|left|right|right]; lra. }
    destruct Hmin as [Hm|Hm]; rewrite (proj2 (Rltb_true _ _) Hm);
      [reflexivity|now rewrite orb_true_r].
  - intros H5 H6 H11 H12.
    rewrite (proj2 (Rltb_false (Rmin (s 5%nat) (s 6%nat)) (2 / 10)))
      by (unfold Rmin; destruct (Rle_dec _ _); lra).
    rewrite (proj2 (Rltb_false (Rmin (s 11%nat) (s 12%nat)) (2 / 10)))
      by (unfold Rmin; destruct (Rle_dec _ _); lra).
    reflexivity.
Qed.

(** The crop of an ordered box of the unit square, grown by a margin. *)
Lemma crop_of_expanded (x0 x1 y0 y1 e fw fh : R) :
  0 <= x0 <= x1 -> x1 <= 1 -> 0 <= y0 <= y1 -> y1 <= 1 -> 0 <= e ->
  0 < fw -> 0 < fh ->
  exists cx cy cs,
    crop_of (expanded (fin_box x0 x1 y0 y1) (EFin e)) (EFin fw) (EFin fh)
    = mkCropRegion (EFin cx) (EFin cy) (EFin cs)
    /\ 0 <= cx <= x0 /\ 0 <= cy <= y0 /\ 0 <= cs <= Rmax fw fh.
Proof.
  intros Hx Hx1 Hy Hy1 He Hfw Hfh.
  unfold crop_of, expanded, fin_box.
  cbn [minX maxX minY maxY sub add mul lit Math_max Math_min ideal esub eneg
         eadd].
  replace (Q2R (0 # 1)) with 0 by (unfold Q2R; simpl; lra).
  replace (Q2R (1 # 1)) with 1 by (unfold Q2R; simpl; lra).
  repeat (cbn [esub eneg eadd emul]; rewrite ?emax_fin, ?emin_fin).
  set (cx := Rmax 0 (x0 + - e)). set (cy := Rmax 0 (y0 + - e)).
  set (X1 := Rmin 1 (x1 + e)). set (Y1 := Rmin 1 (y1 + e)).
  assert (Hcx : 0 <= cx <= x0).
  { unfold cx, Rmax. destruct (Rle_dec 0 (x0 + - e)); lra. }
  assert (Hcy : 0 <= cy <= y0).
  { unfold cy, Rmax. destruct (Rle_dec 0 (y0 + - e)); lra. }
  assert (HX1 : x1 <= X1 <= 1).
  { unfold X1, Rmin. destruct (Rle_dec 1 (x1 + e)); lra. }
  assert (HY1 : y1 <= Y1 <= 1).
  { unfold Y1, Rmin. destruct (Rle_dec 1 (y1 + e)); lra. }
  set (m := Rmax (X1 + - cx) (Y1 + - cy)).
  assert (Hm : 0 <= m <= 1).
  { unfold m, Rmax. destruct (Rle_dec (X1 + - cx) (Y1 + - cy)); lra. }
  set (M := Rmax fw fh).
  assert (HM : 0 < M).
  { unfold M, Rmax. destruct (Rle_dec fw fh); lra. }
  exists cx, cy, (m * M). split; [reflexivity|].
  repeat split; try lra; nra.
Qed.

(** The crop region of finite keypoints in the unit square. *)
Lemma determineCropRegion_ideal (l : list (R * R * R)) (fw fh : R) :
  (13 <= List.length l)%nat ->
  (forall p, In p l ->
     0 <= fst (fst p) <= 1 /\ 0 <= snd (fst p) <= 1) ->
  0 < fw -> 0 < fh ->
  exists cx cy cs,
    determineCropRegion (arrays l) (EFin fw) (EFin fh)
    = Returned (mkCropRegion (EFin cx) (EFin cy) (EFin cs))
    /\ 0 <= cx <= 1 /\ 0 <= cy <= 1 /\ 0 <= cs <= Rmax fw fh.
Proof.
  intros Hlen Hunit Hfw Hfh. unfold determineCropRegion.
  rewrite (getTorsoBBox_ideal l Hlen).
  assert (Hnth : forall i, (i < 13)%nat ->
            0 <= fst (fst (nth i l (0, 0, 0))) <= 1
            /\ 0 <= snd (fst (nth i l (0, 0, 0))) <= 1).
  { intros i Hi. apply Hunit. apply nth_In. lia. }
  assert (Hhalf : forall r w, 0 <= r -> 0 <= w ->
            exists e,
              (EFin r * EFin w / EFin (Q2R (2 # 1)))%js = EFin e /\ 0 <= e).
  { intros r w Hr Hw. cbn [mul div ideal emul ediv].
    replace (Q2R (2 # 1)) with 2 by (unfold Q2R; simpl; lra).
    rewrite Reqb_false by lra. eexists. split; [reflexivity|].
    unfold Rdiv. nra. }
  destruct (_ || _).
  - (* no confident torso: the box of all the keypoints *)
    unfold CROP_KEYPOINT_SCORE_THRESHOLD. cbn [lit ideal].
    replace (Q2R (2 # 10)) with (2 / 10) by (unfold Q2R; simpl; lra).
    assert (Hfull : exists cx cy cs,
              Returned
                (mkCropRegion (lit (0 # 1)) (lit (0 # 1))
                   (Math_max (EFin fw) (EFin fh)))
              = Returned (mkCropRegion (EFin cx) (EFin cy) (EFin cs))
              /\ 0 <= cx <= 1 /\ 0 <= cy <= 1 /\ 0 <= cs <= Rmax fw fh).
    { exists 0, 0, (Rmax fw fh). cbn [lit Math_max ideal].
      rewrite emax_fin.
      replace (Q2R (0 # 1)) with 0 by (unfold Q2R; simpl; lra).
      split; [reflexivity|].
      assert (0 < Rmax fw fh)
        by (unfold Rmax; destruct (Rle_dec fw fh); lra).
      lra. }
    destruct (calculateBoundingBox_ideal l (2 / 10))
      as [[_ ->]|(x0 & x1 & y0 & y1 & -> & Ht)].
    + cbn [bb_width bb_height]. unfold strict_eq. cbn [le ideal ele lit].
      unfold Rleb. destruct (Rle_dec _ _); [|lra]. exact Hfull.
    + cbn [bb_width bb_height bb_xMin bb_xMax bb_yMin bb_yMax].
      destruct (_ || _); [exact Hfull|].
      destruct Ht as (Hall & (a & Ha & Hva & Ea) & (b & Hb & Hvb & Eb)
                      & (c & Hc & Hvc & Ec) & (d & Hd & Hvd & Ed)).
      pose proof (Hall a Ha Hva) as [Hax _].
      pose proof (Hall c Hc Hvc) as [_ Hcy].
      pose proof (Hunit a Ha) as [Hua _]. pose proof (Hunit b Hb) as [Hub _].
      pose proof (Hunit c Hc) as [_ Huc]. pose proof (Hunit d Hd) as [_ Hud].
      cbn [Math_max ideal]. rewrite emax_fin.
      unfold BODY_EXPANSION_RATIO. cbn [lit ideal].
      destruct (Hhalf (Q2R (12 # 10)) (Rmax (x1 - x0) (y1 - y0)))
        as (e & -> & He).
      { unfold Q2R. simpl. lra. }
      { unfold Rmax. destruct (Rle_dec _ _); lra. }
      destruct (crop_of_expanded x0 x1 y0 y1 e fw fh)
        as (cx & cy & cs & E & Hcx & Hcy' & Hcs); try lra.
      exists cx, cy, cs. unfold fin_box in E. rewrite E.
      split; [reflexivity|]. repeat split; lra.
  - (* the torso box *)
    set (x0 := Rmin4 _ _ _ _). set (x1 := Rmax4 _ _ _ _).
    set (y0 := Rmin4 _ _ _ _). set (y1 := Rmax4 _ _ _ _).
    pose proof (Hnth 5%nat ltac:(lia)) as [H5x H5y].
    pose proof (Hnth 6%nat ltac:(lia)) as [H6x H6y].
    pose proof (Hnth 11%nat ltac:(lia)) as [H11x H11y].
    pose proof (Hnth 12%nat ltac:(lia)) as [H12x H12y].
    assert (Hx : 0 <= x0 <= x1 /\ x1 <= 1).
    { unfold x0, x1, Rmin4, Rmax4, Rmin, Rmax.
      repeat destruct (Rle_dec _ _); lra. }
    assert (Hy : 0 <= y0 <= y1 /\ y1 <= 1).
    { unfold y0, y1, Rmin4, Rmax4, Rmin, Rmax.
      repeat destruct (Rle_dec _ _); lra. }
    unfold fin_box.
    cbn [minX maxX minY maxY sub Math_max ideal esub eneg eadd].
    rewrite emax_fin.
    unfold TORSO_EXPANSION_RATIO. cbn [lit ideal].
    destruct (Hhalf (Q2R (19 # 10)) (Rmax (x1 + - x0) (y1 + - y0)))
      as (e & -> & He).
    { unfold Q2R. simpl. lra. }
    { unfold Rmax. destruct (Rle_dec _ _); lra. }
    destruct (crop_of_expanded x0 x1 y0 y1 e fw fh)
      as (cx & cy & cs & E & Hcx & Hcy' & Hcs); try lra.
    exists cx, cy, cs. unfold fin_box in E. rewrite E.
    split; [reflexivity|]. repeat split; lra.
Qed.

(** X21.  For at least 13 finite keypoints in the unit square and a frame of
    positive size, [determineCropRegion] returns a crop region with
    [cropX] and [cropY] between 0 and 1 and [cropSize] between 0 and the
    larger side of the frame (exact arithmetic). *)
Theorem determineCropRegion_in_frame (l : list (R * R * R)) (fw fh : R) :
  (13 <= List.length l)%nat ->
  (forall p, In p l ->
     0 <= fst (fst p) <= 1 /\ 0 <= snd (fst p) <= 1) ->
  0 < fw -> 0 < fh ->
  exists cx cy cs,
    determineCropRegion (arrays l) (EFin fw) (EFin fh)
    = Returned (mkCropRegion (EFin cx) (EFin cy) (EFin cs))
    /\ 0 <= cx <= 1 /\ 0 <= cy <= 1 /\ 0 <= cs <= Rmax fw fh.
Proof. exact (determineCropRegion_ideal l fw fh). Qed.

End IdealCrop.

(** ** From the frame to the screen *)

Section TransformCases.
Context {num : Type} `{JSNumber num}.

(** The result is the origin, or the final position clamped to the screen;
    in the second case the final position is not [NaN] and the screen has
    passed the first guard. *)
Lemma transformKeypointToScreen_cases (normalizedX normalizedY frameWidth
    frameHeight screenWidth screenHeight : num)
    (orientation cameraPosition : string) (cropX cropY cropSize : num) :
  let r :=
    transformKeypointToScreen normalizedX normalizedY frameWidth frameHeight
      screenWidth screenHeight orientation cameraPosition cropX cropY
      cropSize in
  r = mkPoint (lit (0 # 1)) (lit (0 # 1))
  \/ exists finalX finalY,
       isNaN finalX = false /\ isNaN finalY = false
       /\ (screenWidth <= lit (0 # 1))%js = false
       /\ (screenHeight <= lit (0 # 1))%js = false
       /\ r = mkPoint (Math_max (lit (0 # 1)) (Math_min finalX screenWidth))
                (Math_max (lit (0 # 1)) (Math_min finalY screenHeight)).
Proof.
  cbv zeta. unfold transformKeypointToScreen.
  lazymatch goal with
  | |- (if ?b then _ else _) = _ \/ _ => destruct b eqn:G1; [now left|]
  end.
  apply orb_false_iff in G1 as [G1 Gsh].
  apply orb_false_iff in G1 as [G1 Gsw].
  lazymatch goal with
  | |- (if ?b then _ else _) = _ \/ _ => destruct b; [now left|]
  end.
  lazymatch goal with
  | |- (if ?b then _ else _) = _ \/ _ => destruct b; [now left|]
  end.
  destruct (frame_position _ _ _ _ _ _ _) as [frameX frameY].
  destruct (oriented _ _ _ _ _) as [[[screenX screenY] tw] th].
  unfold on_screen.
  lazymatch goal with
  | |- (if ?b then _ else _) = _ \/ _ => destruct b; [now left|]
  end.
  lazymatch goal with
  | |- (if ?b then _ else _) = _ \/ _ => destruct b eqn:G5; [now left|]
  end.
  apply orb_false_iff in G5 as [Gx Gy].
  right.
  exact (ex_intro _ _ (ex_intro _ _
           (conj Gx (conj Gy (conj Gsw (conj Gsh eq_refl)))))).
Qed.

End TransformCases.

Section IdealTransform.
Import Ideal.
Local Open Scope R_scope.

(** A position that is not [NaN], clamped to a positive length. *)
Lemma clamp_on_screen (final : ereal) (w : R) :
  eisNaN final = false -> 0 < w ->
  exists x,
    Math_max (lit (0 # 1)) (Math_min final (EFin w)) = EFin x /\ 0 <= x <= w.
Proof.
  intros Hnan Hw. cbn [lit Math_max Math_min ideal].
  replace (Q2R (0 # 1)) with 0 by (unfold Q2R; simpl; lra).
  destruct final as [|[|]|f]; [discriminate| | |].
  - exists 0. cbn. split; [reflexivity|lra].
  - exists w. cbn. unfold Rltb. destruct (Rlt_dec 0 w); [|lra].
    split; [reflexivity|lra].
  - rewrite emin_fin, emax_fin. eexists. split; [reflexivity|].
    unfold Rmax, Rmin.
    destruct (Rle_dec f w), (Rle_dec 0 _); lra.
Qed.

(** The point returned for a screen of finite size. *)
Lemma transformKeypointToScreen_ideal (normalizedX normalizedY frameWidth
    frameHeight : ereal) (sw sh : R) (orientation cameraPosition : string)
    (cropX cropY cropSize : ereal) :
  exists x y,
    transformKeypointToScreen normalizedX normalizedY frameWidth frameHeight
      (EFin sw) (EFin sh) orientation cameraPosition cropX cropY cropSize
    = mkPoint (EFin x) (EFin y)
    /\ 0 <= x <= Rmax 0 sw /\ 0 <= y <= Rmax 0 sh.
Proof.
  pose proof (Rmax_l 0 sw). pose proof (Rmax_l 0 sh).
  pose proof (Rmax_r 0 sw). pose proof (Rmax_r 0 sh).
  destruct (transformKeypointToScreen_cases normalizedX normalizedY
              frameWidth frameHeight (EFin sw) (EFin sh) orientation
              cameraPosition cropX cropY cropSize)
    as [->|(fx & fy & Hx & Hy & Hsw & Hsh & ->)].
  - exists 0, 0. cbn [lit ideal].
    replace (Q2R (0 # 1)) with 0 by (unfold Q2R; simpl; lra).
    split; [reflexivity|lra].
  - assert (Hw : 0 < sw).
    { cbn in Hsw. unfold Rleb, Q2R in Hsw. simpl in Hsw.
      destruct (Rle_dec sw (0 * / 1)); [discriminate|lra]. }
    assert (Hh : 0 < sh).
    { cbn in Hsh. unfold Rleb, Q2R in Hsh. simpl in Hsh.
      destruct (Rle_dec sh (0 * / 1)); [discriminate|lra]. }
    destruct (clamp_on_screen fx sw Hx Hw) as (x & -> & Hbx).
    destruct (clamp_on_screen fy sh Hy Hh) as (y & -> & Hby).
    exists x, y. split; [reflexivity|lra].
Qed.

(** X22.  The point returned by [transformKeypointToScreen] lies on the
    screen.  For a screen of finite width and height and any other
    arguments, [NaN] and the infinities included, the result has finite
    coordinates with [0 <= x <= max(0, screenWidth)] and
    [0 <= y <= max(0, screenHeight)] (exact arithmetic). *)
Theorem transformKeypointToScreen_on_screen (normalizedX normalizedY
    frameWidth frameHeight : ereal) (sw sh : R)
    (orientation cameraPosition : string) (cropX cropY cropSize : ereal) :
  exists x y,
    transformKeypointToScreen normalizedX normalizedY frameWidth frameHeight
      (EFin sw) (EFin sh) orientation cameraPosition cropX cropY cropSize
    = mkPoint (EFin x) (EFin y)
    /\ 0 <= x <= Rmax 0 sw /\ 0 <= y <= Rmax 0 sh.
Proof.
  exact (transformKeypointToScreen_ideal normalizedX normalizedY frameWidth
           frameHeight sw sh orientation cameraPosition cropX cropY
           cropSize).
Qed.

End IdealTransform.

Section IdealMirror.
Import Ideal.
Local Open Scope R_scope.

Lemma Q2R_zero : Q2R (0 # 1) = 0.
Proof. unfold Q2R. simpl. lra. Qed.

Lemma Q2R_one : Q2R (1 # 1) = 1.
Proof. unfold Q2R. simpl. lra. Qed.






End IdealMirror.

(** ** The skeleton of a frame *)

Section Skeleton.
Context {num : Type} `{JSNumber num}.

(** What the loop pushes for slot [i]: nothing, or one keypoint of index
    [i] that has passed the checks. *)
Lemma keypointPosition_cases (keypoints : list num) (frameWidth frameHeight
    screenWidthValue screenHeightValue : num)
    (frameOrientation cameraPosition : string) (cropRegion : CropRegion num)
    (i : nat) :
  (i < 17)%nat ->
  let r :=
    keypointPosition keypoints frameWidth frameHeight screenWidthValue
      screenHeightValue frameOrientation cameraPosition cropRegion i in
  r = []
  \/ exists kp,
       r = [kp] /\ sk_index kp = i
       /\ kept keypoints frameWidth frameHeight screenWidthValue
            screenHeightValue frameOrientation cameraPosition cropRegion kp.
Proof.
  intros Hi. cbv zeta. unfold keypointPosition.
  destruct (Nat.leb_spec (List.length keypoints) (i * 3 + 2)) as [|Hlen];
    [now left|].
  lazymatch goal with
  | |- (if ?b then _ else _) = _ \/ _ => destruct b eqn:G1; [now left|]
  end.
  apply orb_false_iff in G1 as [G1 Gs].
  apply negb_false_iff in Gs.
  lazymatch goal with
  | |- (if ?b then _ else _) = _ \/ _ => destruct b; [now left|]
  end.
  lazymatch goal with
  | |- (if ?b then _ else _) = _ \/ _ => destruct b eqn:G3; [now left|]
  end.
  lazymatch goal with
  | |- (if ?b then _ else _) = _ \/ _ => destruct b eqn:G4; [now left|]
  end.
  apply orb_false_iff in G4 as [Gx Gy].
  apply negb_false_iff in Gx. apply negb_false_iff in Gy.
  right. eexists. split; [reflexivity|]. split; [reflexivity|].
  unfold kept. cbn [sk_index sk_score sk_x sk_y].
  refine (conj Hi (conj Hlen (conj eq_refl (conj Gs (conj G3
            (conj Gx (conj Gy _))))))).
  now destruct (transformKeypointToScreen _ _ _ _ _ _ _ _ _ _ _).
Qed.

Lemma flat_map_indices {A : Type} (f : nat -> list A) (index : A -> nat)
    (P : A -> Prop) (lo n : nat) :
  (forall i, (lo <= i < lo + n)%nat ->
     f i = [] \/ exists a, f i = [a] /\ index a = i /\ P a) ->
  StronglySorted Nat.lt (map index (flat_map f (seq lo n)))
  /\ Forall (fun a => (lo <= index a < lo + n)%nat /\ P a)
       (flat_map f (seq lo n)).
Proof.
  revert lo. induction n as [|n IH]; intros lo Hf.
  - split; constructor.
  - cbn [seq flat_map].
    destruct (IH (S lo)) as [Hs Hall]; [intros i Hi; apply Hf; lia|].
    assert (Hall' : Forall (fun a => (lo <= index a < lo + S n)%nat /\ P a)
                      (flat_map f (seq (S lo) n))).
    { eapply Forall_impl; [|exact Hall]. cbv beta. intros a [Ha Pa].
      split; [lia|exact Pa]. }
    destruct (Hf lo ltac:(lia)) as [->|(a & -> & Ea & Pa)]; [now split|].
    split.
    + cbn [app map]. constructor; [exact Hs|].
      apply Forall_map. eapply Forall_impl; [|exact Hall]. cbv beta.
      intros b [Hb _]. unfold Nat.lt. lia.
    + cbn [app]. constructor; [|exact Hall']. split; [lia|exact Pa].
Qed.

Lemma keypointMap_get_some (ps : list (ScreenKeypoint num)) (i : nat)
    (kp : ScreenKeypoint num) :
  keypointMap_get ps i = Some kp -> In kp ps /\ sk_index kp = i.
Proof.
  unfold keypointMap_get. intros Hf. apply find_some in Hf as [Hin Hi].
  split; [now apply in_rev|now apply Nat.eqb_eq].
Qed.

Lemma flat_map_length_le {A B : Type} (f : A -> list B) (l : list A) :
  (forall a, (List.length (f a) <= 1)%nat) ->
  (List.length (flat_map f l) <= List.length l)%nat.
Proof.
  intros Hf. induction l as [|a r IH]; [apply Nat.le_refl|].
  cbn [flat_map List.length]. rewrite length_app.
  specialize (Hf a). lia.
Qed.

Lemma connections_joins (ps : list (ScreenKeypoint num)) :
  (List.length (connections ps) <= 12)%nat
  /\ Forall (joins ps) (connections ps).
Proof.
  unfold connections. split.
  - change 12%nat with (List.length SKELETON_CONNECTIONS).
    apply flat_map_length_le. intros [a b]. cbn [fst snd].
    destruct (keypointMap_get ps a), (keypointMap_get ps b);
      try (simpl; lia).
    destruct (_ && _); simpl; lia.
  - apply Forall_forall. intros c Hc.
    apply in_flat_map in Hc as ([a b] & Hab & Hc). cbn [fst snd] in Hc.
    destruct (keypointMap_get ps a) as [from|] eqn:Ea; [|contradiction].
    destruct (keypointMap_get ps b) as [to|] eqn:Eb; [|contradiction].
    destruct (_ && _); [|contradiction].
    destruct Hc as [<-|[]].
    apply keypointMap_get_some in Ea as [Hfrom <-].
    apply keypointMap_get_some in Eb as [Hto <-].
    exists from, to. now repeat split.
Qed.

(** X24.  The keypoints and the connections that [frameProcessor] puts on the
    skeleton.  The keypoints come in the order of their indices, which are
    distinct and below 17; each has the score of its slot, finite and not
    below [DETECTION_THRESHOLD], and the finite point that
    [transformKeypointToScreen] returns for the slot.  There are at most 12
    connections, each joining two of these keypoints along a bone of
    [SKELETON_CONNECTIONS]. *)
Theorem keypointPositions_kept (keypoints : list num) (frameWidth frameHeight
    screenWidthValue screenHeightValue : num)
    (frameOrientation cameraPosition : string)
    (cropRegion : CropRegion num) :
  let ps :=
    keypointPositions keypoints frameWidth frameHeight screenWidthValue
      screenHeightValue frameOrientation cameraPosition cropRegion in
  StronglySorted Nat.lt (map sk_index ps)
  /\ Forall
       (kept keypoints frameWidth frameHeight screenWidthValue
          screenHeightValue frameOrientation cameraPosition cropRegion) ps
  /\ (List.length (connections ps) <= 12)%nat
  /\ Forall (joins ps) (connections ps).
Proof.
  cbv zeta. unfold keypointPositions.
  destruct (flat_map_indices
              (keypointPosition keypoints frameWidth frameHeight
                 screenWidthValue screenHeightValue frameOrientation
                 cameraPosition cropRegion)
              sk_index
              (kept keypoints frameWidth frameHeight screenWidthValue
                 screenHeightValue frameOrientation cameraPosition
                 cropRegion) 0 17) as [Hs Hall].
  { intros i Hi. apply keypointPosition_cases. lia. }
  split; [exact Hs|]. split.
  - eapply Forall_impl; [|exact Hall]. cbv beta. now intros a [_ Pa].
  - apply connections_joins.
Qed.


End Skeleton.

Section SkeletonLists.

Lemma flat_map_singletons {A B : Type} (f : A -> list B) (g : A -> B)
    (l : list A) :
  (forall a, In a l -> f a = [g a]) -> flat_map f l = map g l.
Proof.
  induction l as [|a r IH]; intros Hf; [reflexivity|].
  cbn [flat_map map]. rewrite (Hf a) by now left.
  cbn [app]. f_equal. apply IH. intros b Hb. apply Hf. now right.
Qed.

Lemma flat_map_selected {A B : Type} (f : A -> list B) (sel : A -> bool)
    (index : B -> A) (P : B -> Prop) (l : list A) :
  (forall a, In a l ->
     exists b, f a = (if sel a then [b] else []) /\ index b = a /\ P b) ->
  map index (flat_map f l) = filter sel l /\ Forall P (flat_map f l).
Proof.
  induction l as [|a r IH]; intros Hf; [split; [reflexivity|constructor]|].
  destruct IH as [Hi HP]; [intros b Hb; apply Hf; now right|].
  cbn [flat_map filter].
  destruct (Hf a (or_introl eq_refl)) as (b & -> & Eb & Pb).
  destruct (sel a).
  - cbn [app map]. rewrite Eb, Hi. split; [reflexivity|now constructor].
  - now split.
Qed.

Lemma flat_map_count {A B : Type} (f : A -> list B) (sel : A -> bool)
    (l : list A) :
  (forall a, In a l ->
     List.length (f a) = if sel a then 1%nat else 0%nat) ->
  List.length (flat_map f l) = List.length (filter sel l).
Proof.
  induction l as [|a r IH]; intros Hf; [reflexivity|].
  cbn [flat_map filter]. rewrite length_app, IH, (Hf a) by
    (try (intros b Hb; apply Hf; now right); now left).
  now destruct (sel a).
Qed.

End SkeletonLists.

Section SkeletonMap.
Context {num : Type} `{JSNumber num}.

Lemma keypointMap_get_in (ps : list (ScreenKeypoint num)) (i : nat) :
  In i (map sk_index ps) ->
  exists kp, keypointMap_get ps i = Some kp /\ In kp ps /\ sk_index kp = i.
Proof.
  intros Hin. destruct (keypointMap_get ps i) as [kp|] eqn:E.
  - exists kp. split; [reflexivity|]. now apply keypointMap_get_some.
  - exfalso. apply in_map_iff in Hin as (kp & Ekp & Hkp).
    unfold keypointMap_get in E.
    pose proof (find_none _ _ E kp (proj1 (in_rev ps kp) Hkp)) as Hn.
    cbv beta in Hn. rewrite Ekp, Nat.eqb_refl in Hn. discriminate.
Qed.

Lemma keypointMap_get_out (ps : list (ScreenKeypoint num)) (i : nat) :
  ~ In i (map sk_index ps) -> keypointMap_get ps i = None.
Proof.
  intros Hout. destruct (keypointMap_get ps i) as [kp|] eqn:E;
    [|reflexivity].
  exfalso. apply Hout. apply keypointMap_get_some in E as [Hin <-].
  now apply in_map.
Qed.

End SkeletonMap.

Section IdealSkeleton.
Import Ideal.
Local Open Scope R_scope.

Lemma keypointsArray_finite (k : list R) :
  (51 <= List.length k)%nat -> keypointsArray (map EFin k) = arrays (slots k).
Proof.
  intros Hlen. unfold keypointsArray, arrays, slots. rewrite map_map.
  apply flat_map_singletons. intros i Hi. apply in_seq in Hi.
  rewrite length_map.
  assert (E : Nat.ltb (i * 3 + 2) (List.length k) = true)
    by (apply Nat.ltb_lt; lia).
  rewrite E, !at_index_buffer by lia. reflexivity.
Qed.

Lemma slots_length (k : list R) : List.length (slots k) = 17%nat.
Proof. reflexivity. Qed.

Lemma slots_unit (k : list R) :
  (forall i, (i < 17)%nat ->
     0 <= nth (i * 3) k 0 <= 1 /\ 0 <= nth (i * 3 + 1) k 0 <= 1) ->
  forall p, In p (slots k) ->
    0 <= fst (fst p) <= 1 /\ 0 <= snd (fst p) <= 1.
Proof.
  intros Hunit p Hp. unfold slots in Hp.
  apply in_map_iff in Hp as (i & <- & Hi). apply in_seq in Hi.
  cbn [fst snd]. destruct (Hunit i ltac:(lia)). now split.
Qed.

(** What the loop pushes for a slot of finite values in the unit square:
    the keypoint, on the screen, when its score is not below the
    threshold. *)
Lemma keypointPosition_ideal (k : list R) (fw fh : ereal) (sw sh : R)
    (o c : string) (crop : CropRegion ereal) (i : nat) :
  (51 <= List.length k)%nat -> (i < 17)%nat ->
  0 <= nth (i * 3) k 0 <= 1 -> 0 <= nth (i * 3 + 1) k 0 <= 1 ->
  0 < sw -> 0 < sh ->
  exists kp,
    keypointPosition (map EFin k) fw fh (EFin sw) (EFin sh) o c crop i
    = (if confident k i then [kp] else [])
    /\ sk_index kp = i
    /\ exists x y,
         sk_x kp = EFin x /\ sk_y kp = EFin y /\ 0 <= x <= sw /\ 0 <= y <= sh
         /\ sk_score kp = EFin (nth (sk_index kp * 3 + 2) k 0)
         /\ 3 / 10 <= nth (sk_index kp * 3 + 2) k 0 \/ confident k i = false.
Proof.
  intros Hlen Hi Hy Hx Hsw Hsh.
  destruct (transformKeypointToScreen_ideal
              (EFin (nth (i * 3 + 1) k 0)) (EFin (nth (i * 3) k 0)) fw fh sw
              sh o c (cropX crop) (cropY crop) (cropSize crop))
    as (x & y & E & Hbx & Hby).
  rewrite (Rmax_right 0 sw) in Hbx by lra.
  rewrite (Rmax_right 0 sh) in Hby by lra.
  exists (mkScreenKeypoint (EFin x) (EFin y) (EFin (nth (i * 3 + 2) k 0)) i).
  split; [|split; [reflexivity|]].
  - unfold keypointPosition. rewrite length_map.
    destruct (Nat.leb_spec (List.length k) (i * 3 + 2)) as [Hbad|_]; [lia|].
    rewrite !at_index_buffer by lia.
    cbn [isFinite ideal eisFinite negb orb].
    cbn [gt lt lit ideal elt]. rewrite Q2R_zero, Q2R_one.
    rewrite (proj2 (Rltb_false (nth (i * 3 + 1) k 0) 0)),
      (proj2 (Rltb_false 1 (nth (i * 3 + 1) k 0))),
      (proj2 (Rltb_false (nth (i * 3) k 0) 0)),
      (proj2 (Rltb_false 1 (nth (i * 3) k 0))) by lra.
    cbn [orb]. unfold confident, DETECTION_THRESHOLD. cbn [lit ideal].
    replace (Q2R (3 # 10)) with (3 / 10) by (unfold Q2R; simpl; lra).
    destruct (Rltb (nth (i * 3 + 2) k 0) (3 / 10)); [reflexivity|].
    cbn [negb]. rewrite E. reflexivity.
  - exists x, y. cbn [sk_x sk_y sk_score sk_index].
    unfold confident.
    destruct (Rltb (nth (i * 3 + 2) k 0) (3 / 10)) eqn:Es.
    + right. reflexivity.
    + left. apply Rltb_false in Es. repeat split; try lra.
Qed.

(** X26.  The skeleton of a body in the picture.  For a buffer of finite
    values with every position in the unit square, a frame and a screen of
    positive size, and a slot at least whose score is not below
    [DETECTION_THRESHOLD], [frameProcessor] sets a skeleton: its keypoints
    are the slots whose score is not below the threshold, in order, each
    with its score and a position on the screen; its connections are the
    bones of [SKELETON_CONNECTIONS] whose two ends are among them, the test
    against [CONNECTION_THRESHOLD] never failing (exact arithmetic). *)
Theorem skeleton_of_body (k : list R) (fw fh sw sh : R)
    (o c : string) :
  (51 <= List.length k)%nat ->
  (forall i, (i < 17)%nat ->
     0 <= nth (i * 3) k 0 <= 1 /\ 0 <= nth (i * 3 + 1) k 0 <= 1) ->
  0 < fw -> 0 < fh -> 0 < sw -> 0 < sh ->
  (exists i, (i < 17)%nat /\ confident k i = true) ->
  exists sd,
    skeletonDataToSet (map EFin k) o (EFin fw) (EFin fh) (EFin sw) (EFin sh)
      c = Some sd
    /\ sd_orientation sd = o
    /\ map sk_index (sd_keypoints sd) = filter (confident k) (seq 0 17)
    /\ Forall
         (fun kp =>
            exists x y,
              sk_x kp = EFin x /\ sk_y kp = EFin y
              /\ 0 <= x <= sw /\ 0 <= y <= sh
              /\ sk_score kp = EFin (nth (sk_index kp * 3 + 2) k 0)
              /\ 3 / 10 <= nth (sk_index kp * 3 + 2) k 0)
         (sd_keypoints sd)
    /\ List.length (sd_connections sd)
       = List.length
           (filter (fun b => confident k (fst b) && confident k (snd b))
              SKELETON_CONNECTIONS).
Proof.
  intros Hlen Hunit Hfw Hfh Hsw Hsh (i0 & Hi0 & Hc0).
  unfold skeletonDataToSet. rewrite length_map.
  destruct (Nat.ltb_spec (List.length k) 51) as [Hbad|_]; [lia|].
  rewrite !positive_dimension by assumption. cbn [orb].
  rewrite keypointsArray_finite by assumption.
  unfold arrays at 1. rewrite length_map, slots_length. cbn [Nat.eqb].
  destruct (determineCropRegion_ideal (slots k) fw fh)
    as (cx & cy & cs & -> & _); try assumption.
  { rewrite slots_length. lia. }
  { now apply slots_unit. }
  cbn [cropX cropY cropSize isFinite ideal eisFinite negb orb].
  set (crop := mkCropRegion (EFin cx) (EFin cy) (EFin cs)).
  set (P := fun kp : ScreenKeypoint ereal =>
              exists x y,
                sk_x kp = EFin x /\ sk_y kp = EFin y
                /\ 0 <= x <= sw /\ 0 <= y <= sh
                /\ sk_score kp = EFin (nth (sk_index kp * 3 + 2) k 0)
                /\ 3 / 10 <= nth (sk_index kp * 3 + 2) k 0).
  destruct (flat_map_selected
              (keypointPosition (map EFin k) (EFin fw) (EFin fh) (EFin sw)
                 (EFin sh) o c crop)
              (confident k) sk_index
              (fun kp => confident k (sk_index kp) = true -> P kp)
              (seq 0 17)) as [Hidx Hall].
  { intros i Hi. apply in_seq in Hi.
    destruct (Hunit i ltac:(lia)) as [Hy Hx].
    destruct (keypointPosition_ideal k (EFin fw) (EFin fh) sw sh o c crop i)
      as (kp & E & Ei & x & y & [Hkp|Hkp]); try assumption; try lia.
    - exists kp. split; [exact E|split; [exact Ei|]].
      intros _. now exists x, y.
    - exists kp. split; [exact E|split; [exact Ei|]].
      rewrite Ei. congruence. }
  fold (keypointPositions (map EFin k) (EFin fw) (EFin fh) (EFin sw)
          (EFin sh) o c crop) in Hidx, Hall |- *.
  set (ps := keypointPositions _ _ _ _ _ _ _ _) in *.
  assert (HP : Forall P ps).
  { apply Forall_forall. intros kp Hkp.
    rewrite Forall_forall in Hall. apply (Hall kp Hkp).
    assert (Hin : In (sk_index kp) (map sk_index ps)) by now apply in_map.
    rewrite Hidx in Hin. now apply filter_In in Hin as [_ Hc]. }
  assert (Hne : Nat.eqb (List.length ps) 0 = false).
  { apply Nat.eqb_neq. intros E0.
    apply length_zero_iff_nil in E0.
    assert (Hin : In i0 (map sk_index ps)).
    { rewrite Hidx. apply filter_In. split; [apply in_seq; lia|exact Hc0]. }
    rewrite E0 in Hin. destruct Hin. }
  rewrite Hne. eexists. split; [reflexivity|].
  cbn [sd_orientation sd_keypoints sd_connections].
  split; [reflexivity|]. split; [exact Hidx|]. split; [exact HP|].
  unfold connections. apply flat_map_count.
  intros [a b] Hab. cbn [fst snd].
  assert (Hlt : (a < 17)%nat /\ (b < 17)%nat).
  { unfold SKELETON_CONNECTIONS in Hab. cbn [In] in Hab.
    repeat destruct Hab as [Hab|Hab]; try (injection Hab as <- <-; lia).
    destruct Hab. }
  assert (Hget : forall j, (j < 17)%nat ->
            (confident k j = true
             /\ exists kp, keypointMap_get ps j = Some kp
                           /\ (sk_score kp > CONNECTION_THRESHOLD)%js = true)
            \/ (confident k j = false /\ keypointMap_get ps j = None)).
  { intros j Hj. destruct (confident k j) eqn:Ec.
    - left. split; [reflexivity|].
      destruct (keypointMap_get_in ps j) as (kp & E & Hkp & Ej).
      { rewrite Hidx. apply filter_In. split; [apply in_seq; lia|exact Ec]. }
      exists kp. split; [exact E|].
      rewrite Forall_forall in HP.
      destruct (HP kp Hkp) as (x & y & _ & _ & _ & _ & Es & Hs).
      rewrite Es. unfold CONNECTION_THRESHOLD. cbn [gt lt lit ideal elt].
      apply Rltb_true. unfold Q2R. simpl. lra.
    - right. split; [reflexivity|]. apply keypointMap_get_out.
      rewrite Hidx. intros Hin. apply filter_In in Hin as [_ Hc].
      congruence. }
  destruct Hlt as [Ha Hb].
  destruct (Hget a Ha) as [(-> & ka & -> & Hsa)|(-> & ->)];
    [|reflexivity].
  destruct (Hget b Hb) as [(-> & kb & -> & Hsb)|(-> & ->)];
    [|reflexivity].
  rewrite Hsa, Hsb. reflexivity.
Qed.

End IdealSkeleton.

(** ** The effects that consume the skeleton *)

Section Effects.
Context {num : Type} `{JSNumber num}.

Lemma array_put_length {A : Type} (a : list A) (i : nat) (v : A) :
  List.length (array_put a i v) = List.length a.
Proof.
  revert i. induction a as [|h r IH]; intros [|i]; simpl; try reflexivity.
  now rewrite IH.
Qed.

Lemma array_put_nth {A : Type} (a : list A) (i : nat) (v : A) (j : nat)
    (d : A) :
  nth j (array_put a i v) d
  = if Nat.eqb j i && Nat.ltb i (List.length a) then v else nth j a d.
Proof.
  revert i j. induction a as [|h r IH]; intros i j.
  - simpl. destruct i; simpl; now rewrite andb_false_r.
  - destruct i as [|i], j as [|j]; try reflexivity.
    cbn [array_put nth List.length]. rewrite IH. reflexivity.
Qed.

Lemma keypointMap_get_snoc (ps : list (ScreenKeypoint num))
    (kp : ScreenKeypoint num) (i : nat) :
  keypointMap_get (ps ++ [kp]) i
  = if Nat.eqb (sk_index kp) i then Some kp else keypointMap_get ps i.
Proof.
  unfold keypointMap_get. rewrite rev_app_distr. reflexivity.
Qed.

Lemma full17Keypoints_snoc (ps : list (ScreenKeypoint num))
    (kp : ScreenKeypoint num) :
  full17Keypoints (ps ++ [kp])
  = if Nat.leb 0 (sk_index kp) && Nat.ltb (sk_index kp) 17 then
      array_put (full17Keypoints ps) (sk_index kp)
        (mkKeypoint (sk_x kp) (sk_y kp) (sk_score kp))
    else full17Keypoints ps.
Proof. unfold full17Keypoints. now rewrite fold_left_app. Qed.

(** X27.  The array given to the tracker always has 17 keypoints: at each
    index below 17 the last keypoint of the skeleton with that index, and
    the origin with score 0 when there is none. *)
Theorem full17Keypoints_lookup (ps : list (ScreenKeypoint num)) :
  List.length (full17Keypoints ps) = 17%nat
  /\ forall i d, (i < 17)%nat ->
       nth i (full17Keypoints ps) d
       = match keypointMap_get ps i with
         | Some kp => mkKeypoint (sk_x kp) (sk_y kp) (sk_score kp)
         | None => mkKeypoint (lit (0 # 1)) (lit (0 # 1)) (lit (0 # 1))
         end.
Proof.
  induction ps as [|kp ps IH] using rev_ind.
  - split; [reflexivity|]. intros i d Hi.
    unfold full17Keypoints. cbn [fold_left keypointMap_get rev find].
    apply nth_repeat_lt. exact Hi.
  - destruct IH as [Hlen Hnth].
    rewrite full17Keypoints_snoc. cbn [Nat.leb andb].
    destruct (Nat.ltb_spec (sk_index kp) 17) as [Hk|Hk].
    + split; [now rewrite array_put_length|].
      intros i d Hi. rewrite array_put_nth, keypointMap_get_snoc, Hlen.
      apply Nat.ltb_lt in Hk as Hk'. rewrite Hk', andb_true_r.
      rewrite (Nat.eqb_sym i).
      destruct (Nat.eqb (sk_index kp) i); [reflexivity|now apply Hnth].
    + split; [exact Hlen|].
      intros i d Hi. rewrite keypointMap_get_snoc.
      destruct (Nat.eqb_spec (sk_index kp) i) as [E|_]; [lia|].
      now apply Hnth.
Qed.



End Effects.

Section IdealEffects.
Import Ideal.
Local Open Scope R_scope.


End IdealEffects.

(** ** The tracker of the screen *)

Section ScreenTracker.
Context {num : Type} `{JSNumber num}.

Lemma detection_step_origin (t : Z) (act : list Z) (st : FrameState num)
    (d : Pose num) (k : Z) (v : TrackedPerson num) :
  In (k, v) (fs_tracks (detection_step t act st d)) ->
  In (k, v) (fs_tracks st) \/ keypoints v = d.
Proof.
  destruct (detection_step_cases t act st d)
    as [->|[(k0 & track & _ & ->)| ->]]; cbn [fs_tracks]; intros Hin.
  - now left.
  - apply map_set_in in Hin as [[_ ->]|Hin]; [now right|now left].
  - apply map_set_in in Hin as [[_ ->]|Hin]; [now right|now left].
Qed.

(** The tracking effect keeps a map as the tracker keeps it, within the
    limit, and every track has the keypoints of a detection. *)
Lemma trackingEffect_inv (tracks : TrackMap num) (next : Z) (d : Pose num)
    (t : Z) (P : Pose num -> Prop) :
  (0 <= next)%Z -> wf_tracks next tracks ->
  (List.length tracks <= TRACKING_MAX_PERSONS)%nat ->
  (forall k v, In (k, v) tracks -> P (keypoints v)) -> P d ->
  let r := trackingEffect tracks next d t in
  (0 <= snd r)%Z /\ wf_tracks (snd r) (fst r)
  /\ (List.length (fst r) <= TRACKING_MAX_PERSONS)%nat
  /\ (forall k v, In (k, v) (fst r) -> P (keypoints v)).
Proof.
  intros Hpos Hwf Hlen HP Hd. cbv zeta.
  set (m := mkTrackingManager tracks next []).
  rewrite (trackingEffect_procesFrame m d t Hwf). cbn [fst snd].
  destruct (frame_loop_inv m [d] t Hpos Hwf) as (Hlo & Hwf' & _).
  split; [|split; [|split]].
  - unfold procesFrame. cbn [nextPersonId]. cbn [nextPersonId m] in Hlo. lia.
  - unfold procesFrame. cbn [nextPersonId trackedPersons].
    now apply wf_tracks_age_out.
  - apply procesFrame_single; [exact Hwf|exact Hlen|simpl; lia].
  - intros k v Hin. unfold procesFrame in Hin. cbn [trackedPersons] in Hin.
    apply filter_In in Hin as [Hin _].
    unfold frame_loop in Hin. cbn [fold_left] in Hin.
    apply detection_step_origin in Hin as [Hin|E];
      [now apply (HP k v)|now rewrite E].
Qed.

Lemma full17Keypoints_length (ps : list (ScreenKeypoint num)) :
  List.length (full17Keypoints ps) = 17%nat.
Proof.
  induction ps as [|kp ps IH] using rev_ind; [reflexivity|].
  rewrite full17Keypoints_snoc.
  destruct (_ && _); [now rewrite array_put_length|exact IH].
Qed.

(** X6.  The tracker of the screen, run from the empty map over any sequence
    of skeletons, never holds more than [TRACKING_MAX_PERSONS] tracks; the
    keys of the map are distinct, every track is filed under its own
    identifier, which is below the counter, and every track has 17
    keypoints. *)
Theorem trackSkeletons_capacity
    (events : list (option (SkeletonData num) * Z)) :
  let r := trackSkeletons events ([], 0%Z) in
  (List.length (fst r) <= TRACKING_MAX_PERSONS)%nat
  /\ NoDup (map_keys (fst r))
  /\ (forall k track,
        In (k, track) (fst r) ->
        id track = k /\ (0 <= k < snd r)%Z
        /\ List.length (keypoints track) = 17%nat).
Proof.
  cbv zeta. unfold trackSkeletons.
  assert (Hgen : forall st : TrackMap num * Z,
            (0 <= snd st)%Z -> wf_tracks (snd st) (fst st) ->
            (List.length (fst st) <= TRACKING_MAX_PERSONS)%nat ->
            (forall k v, In (k, v) (fst st) ->
               List.length (keypoints v) = 17%nat) ->
            let r :=
              fold_left
                (fun st e => trackSkeleton (fst st) (snd st) (fst e) (snd e))
                events st in
            (0 <= snd r)%Z /\ wf_tracks (snd r) (fst r)
            /\ (List.length (fst r) <= TRACKING_MAX_PERSONS)%nat
            /\ (forall k v, In (k, v) (fst r) ->
                  List.length (keypoints v) = 17%nat)).
  { induction events as [|[sd t] r IH]; intros st Hpos Hwf Hlen H17;
      cbn [fold_left fst snd];
      [exact (conj Hpos (conj Hwf (conj Hlen H17)))|].
    assert (Hstep :
      let st' := trackSkeleton (fst st) (snd st) sd t in
      (0 <= snd st')%Z /\ wf_tracks (snd st') (fst st')
      /\ (List.length (fst st') <= TRACKING_MAX_PERSONS)%nat
      /\ (forall k v, In (k, v) (fst st') ->
            List.length (keypoints v) = 17%nat)).
    { cbv zeta. unfold trackSkeleton.
      destruct sd as [sd|];
        [|exact (conj Hpos (conj Hwf (conj Hlen H17)))].
      destruct (Nat.eqb _ 0);
        [exact (conj Hpos (conj Hwf (conj Hlen H17)))|].
      exact (trackingEffect_inv (fst st) (snd st)
               (full17Keypoints (sd_keypoints sd)) t
               (fun p => List.length p = 17%nat) Hpos Hwf Hlen H17
               (full17Keypoints_length _)). }
    destruct Hstep as (A & B & C & D). now apply IH. }
  destruct (Hgen ([], 0%Z)) as (Hpos & [ND Hall] & Hlen & H17).
  - cbn. lia.
  - split; [constructor|intros k v []].
  - cbn. unfold TRACKING_MAX_PERSONS. lia.
  - intros k v [].
  - split; [exact Hlen|split; [exact ND|]].
    intros k track Hin. destruct (Hall k track Hin) as [Hid Hk].
    split; [exact Hid|split; [exact Hk|now apply (H17 k track)]].
Qed.

End ScreenTracker.

(** ** The quality of a pose *)

Section PoseQualityFacts.
Context {num : Type} `{JSNumber num}.

(** The first loop on a buffer that holds the 17 keypoints: the scores of
    the slots, and one visible keypoint per slot above the threshold. *)
Lemma scan_fold (keypoints : list num) :
  (51 <= List.length keypoints)%nat ->
  forall n, (n <= 17)%nat ->
  let r := fold_left (scan_step keypoints) (seq 0 n) ([], []) in
  snd r = map (score_of keypoints) (seq 0 n)
  /\ map sk_index (fst r)
     = filter (fun i => (score_of keypoints i > DETECTION_THRESHOLD)%js)
         (seq 0 n).
Proof.
  intros Hlen. induction n as [|n IH]; intros Hn; [now split|].
  rewrite seq_S, fold_left_app. cbn [Nat.add fold_left].
  destruct IH as [Hs Hv]; [lia|].
  destruct (fold_left _ (seq 0 n) _) as [vis scores].
  cbn [fst snd] in Hs, Hv. unfold scan_step.
  destruct (Nat.leb_spec (List.length keypoints) (n * 3 + 2)) as [Hbad|_];
    [lia|].
  cbn [fst snd]. rewrite map_app, filter_app, Hs. cbn [map filter].
  unfold score_of at 2 4.
  split; [reflexivity|].
  destruct (_ > _)%js.
  - rewrite map_app, Hv. reflexivity.
  - now rewrite Hv, app_nil_r.
Qed.

Lemma checkBodyPart_points (scores : list num) (name : string)
    (indices : list nat) (st : Z * list (QualityMessage num)) :
  (fst st <= fst (checkBodyPart scores name indices st) <= fst st + 10)%Z.
Proof.
  unfold checkBodyPart. destruct (_ >= _)%js; cbn [fst]; lia.
Qed.

Lemma status_of_cases (q : Z) :
  ((80 <= q)%Z /\ status_of q = "excellent"%string)
  \/ ((60 <= q < 80)%Z /\ status_of q = "good"%string)
  \/ ((40 <= q < 60)%Z /\ status_of q = "fair"%string)
  \/ ((q < 40)%Z /\ status_of q = "poor"%string).
Proof.
  unfold status_of.
  destruct (Z.geb_spec q 80); [left; now split|].
  destruct (Z.geb_spec q 60); [right; left; split; [lia|reflexivity]|].
  destruct (Z.geb_spec q 40);
    right; right; [left|right]; (split; [lia|reflexivity]).
Qed.

(** X29.  The quality score of [analyzePose] lies between 0 and 115, the
    status is the one that goes with the score (['excellent'] from 80,
    ['good'] from 60, ['fair'] from 40, ['poor'] below), the result has
    between one and three messages and counts at most 17 visible
    keypoints. *)
Theorem analyzePose_bounds (keypoints : option (list num))
    (userHeight userWeight : option num) :
  let r := analyzePose keypoints userHeight userWeight in
  (0 <= qualityScore r <= 115)%Z
  /\ status r = status_of (qualityScore r)
  /\ (1 <= List.length (messages r) <= 3)%nat
  /\ (visibleKeypoints r <= 17)%nat.
Proof.
  cbv zeta. unfold analyzePose.
  assert (Hinv : (0 <= qualityScore (invalidKeypoints (num := num)) <= 115)%Z
                 /\ status (invalidKeypoints (num := num))
                    = status_of (qualityScore (invalidKeypoints (num := num)))
                 /\ (1 <= List.length (messages (invalidKeypoints (num := num)))
                     <= 3)%nat
                 /\ (visibleKeypoints (invalidKeypoints (num := num)) <= 17)%nat).
  { cbn. repeat split; lia. }
  destruct keypoints as [k|]; [|exact Hinv].
  destruct (Nat.ltb_spec (List.length k) 51) as [|Hlen]; [exact Hinv|].
  destruct (scan_fold k Hlen 17 (Nat.le_refl _)) as [Hs Hv].
  destruct (fold_left _ (seq 0 17) _) as [vis scores].
  cbn [fst snd] in Hs, Hv.
  set (st1 := if (_ >= lit (8 # 10))%js then _ else _).
  set (st2 := if (_ >= lit (7 # 10))%js then _ else _).
  assert (H1 : (0 <= fst st1 <= 40)%Z /\ List.length (snd st1) = 1%nat).
  { unfold st1.
    repeat match goal with
           | |- context [if ?b then _ else _] => destruct b
           end; cbn [fst snd app List.length]; split; lia. }
  assert (H2 : (fst st1 <= fst st2 <= fst st1 + 30)%Z
               /\ List.length (snd st2) = 2%nat).
  { unfold st2. destruct H1 as [_ H1].
    repeat match goal with
           | |- context [if ?b then _ else _] => destruct b
           end; cbn [fst snd]; rewrite length_app, H1; cbn [List.length];
      split; lia. }
  set (st3 := checkBodyPart scores "shoulders" _ st2).
  set (st4 := checkBodyPart scores "hips" _ st3).
  set (st5 := checkBodyPart scores "knees" _ st4).
  set (st6 := checkBodyPart scores "ankles" _ st5).
  pose proof (checkBodyPart_points scores "shoulders" [5; 6]%nat st2) as H3.
  pose proof (checkBodyPart_points scores "hips" [11; 12]%nat st3) as H4.
  pose proof (checkBodyPart_points scores "knees" [13; 14]%nat st4) as H5.
  pose proof (checkBodyPart_points scores "ankles" [15; 16]%nat st5) as H6.
  fold st3 in H3, H4. fold st4 in H4, H5. fold st5 in H5, H6.
  fold st6 in H6.
  assert (Hmsg : forall name indices st,
            (List.length (snd st)
             <= List.length (snd (checkBodyPart scores name indices st)))%nat).
  { intros name indices st. unfold checkBodyPart.
    match goal with
    | |- context [if ?b then (_, _) else _] => destruct b
    end; cbn [snd]; [lia|]. rewrite length_app. lia. }
  assert (H6m : (2 <= List.length (snd st6))%nat).
  { destruct H2 as [_ H2]. rewrite <- H2.
    unfold st6, st5, st4, st3.
    repeat (etransitivity; [|apply Hmsg]). apply Nat.le_refl. }
  set (st7 := match userHeight with Some _ => _ | None => _ end).
  assert (H7 : (fst st6 <= fst st7 <= fst st6 + 5)%Z
               /\ (2 <= List.length (snd st7))%nat).
  { unfold st7. destruct userHeight as [h|]; [|split; [lia|exact H6m]].
    destruct (_ && _); cbn [fst snd]; [|split; [lia|exact H6m]].
    rewrite length_app. split; lia. }
  assert (Hvis : (List.length vis <= 17)%nat).
  { rewrite <- (length_map sk_index), Hv.
    etransitivity; [apply filter_length_le|]. now rewrite length_seq. }
  unfold status_of.
  destruct (fst st7 >=? 80)%Z eqn:E80; [|destruct (fst st7 >=? 60)%Z eqn:E60;
    [|destruct (fst st7 >=? 40)%Z eqn:E40]];
    cbn [qualityScore status messages visibleKeypoints];
    rewrite length_firstn, ?E80, ?E60, ?E40;
    (split; [lia|split; [reflexivity|split; [lia|exact Hvis]]]).
Qed.

End PoseQualityFacts.

Section IdealQuality.
Import Ideal.
Local Open Scope R_scope.

(** The comparison [n / 17 >= q] of a count with a ratio, in terms of the
    count: [t] is the least count that reaches the ratio. *)
Lemma ratio_ge (n t : nat) (q : Q) :
  (INR t - 1) / 17 < Q2R q <= INR t / 17 -> (1 <= t)%nat ->
  (of_nat (num := ereal) n / lit (17 # 1) >= lit q)%js = Nat.leb t n.
Proof.
  intros [Hlo Hhi] Ht. rewrite of_nat_ideal.
  cbn [lit div ge le ideal ediv ele].
  replace (Q2R (17 # 1)) with 17 by (unfold Q2R; simpl; lra).
  rewrite (Reqb_false 17 0) by lra. unfold Rleb.
  destruct (Nat.leb_spec t n) as [Hle|Hlt].
  - apply le_INR in Hle.
    destruct (Rle_dec (Q2R q) (INR n / 17)); [reflexivity|lra].
  - assert (Hn : INR n <= INR t - 1).
    { assert (Hle : (n <= t - 1)%nat) by lia. apply le_INR in Hle.
      rewrite minus_INR in Hle by lia. simpl in Hle. lra. }
    destruct (Rle_dec (Q2R q) (INR n / 17)); [lra|reflexivity].
Qed.

Lemma ratio_8 (n : nat) :
  (of_nat (num := ereal) n / lit (17 # 1) >= lit (8 # 10))%js
  = Nat.leb 14 n.
Proof.
  apply ratio_ge; [|lia]. rewrite INR_IZR_INZ. unfold Q2R. simpl. lra.
Qed.

Lemma ratio_6 (n : nat) :
  (of_nat (num := ereal) n / lit (17 # 1) >= lit (6 # 10))%js
  = Nat.leb 11 n.
Proof.
  apply ratio_ge; [|lia]. rewrite INR_IZR_INZ. unfold Q2R. simpl. lra.
Qed.

Lemma ratio_7 (n : nat) :
  (of_nat (num := ereal) n / lit (17 # 1) >= lit (7 # 10))%js
  = Nat.leb 12 n.
Proof.
  apply ratio_ge; [|lia]. rewrite INR_IZR_INZ. unfold Q2R. simpl. lra.
Qed.

Lemma ratio_4 (n : nat) :
  (of_nat (num := ereal) n / lit (17 # 1) >= lit (4 # 10))%js
  = Nat.leb 7 n.
Proof.
  apply ratio_ge; [|lia]. rewrite INR_IZR_INZ. unfold Q2R. simpl. lra.
Qed.

Lemma scores_at (k : list ereal) (i : nat) :
  (i < 17)%nat -> at_index (map (score_of k) (seq 0 17)) i = score_of k i.
Proof.
  intros Hi. unfold at_index.
  rewrite (nth_indep _ NaN (score_of k 0)) by now rewrite length_map, length_seq.
  rewrite map_nth, seq_nth by lia. reflexivity.
Qed.

Lemma checkBodyPart_ideal (k : list ereal) (name : string) (a b : nat)
    (st : Z * list (QualityMessage ereal)) :
  (a < 17)%nat -> (b < 17)%nat ->
  fst (checkBodyPart (map (score_of k) (seq 0 17)) name [a; b] st)
  = (fst st + if part_shown k [a; b] then 10 else 0)%Z.
Proof.
  intros Ha Hb. unfold checkBodyPart, part_shown. cbn [filter existsb].
  rewrite !scores_at by assumption.
  destruct (score_of k a > DETECTION_THRESHOLD)%js,
    (score_of k b > DETECTION_THRESHOLD)%js;
    cbn [List.length of_nat lit div ge le ideal ediv ele orb];
    unfold Reqb, Rleb, Q2R; simpl; rdec; cbn [fst]; lia.
Qed.

Lemma filter_map_length {A B : Type} (f : A -> B) (p : B -> bool)
    (l : list A) :
  List.length (filter p (map f l))
  = List.length (filter (fun a => p (f a)) l).
Proof.
  induction l as [|a r IH]; [reflexivity|]. cbn [map filter].
  destruct (p (f a)); cbn [List.length]; now rewrite IH.
Qed.

(** X30.  The quality score in numbers of keypoints, for a buffer of at least
    51 values: 40 points from 14 visible keypoints and 20 from 11; 30 points
    from 12 keypoints above [HIGH_CONFIDENCE] and 20 from 7; 10 points for
    each of shoulders, hips, knees and ankles with one side visible; 5
    points for a positive height of the user (exact arithmetic). *)
Theorem analyzePose_score (k : list ereal)
    (userHeight userWeight : option ereal) :
  (51 <= List.length k)%nat ->
  let r := analyzePose (Some k) userHeight userWeight in
  let v := List.length (visible_slots k) in
  let h := List.length (high_slots k) in
  qualityScore r
  = ((if Nat.leb 14 v then 40 else if Nat.leb 11 v then 20 else 0)
     + (if Nat.leb 12 h then 30 else if Nat.leb 7 h then 20 else 0)
     + (if part_shown k [5; 6]%nat then 10 else 0)
     + (if part_shown k [11; 12]%nat then 10 else 0)
     + (if part_shown k [13; 14]%nat then 10 else 0)
     + (if part_shown k [15; 16]%nat then 10 else 0)
     + height_points userHeight)%Z
  /\ visibleKeypoints r = v
  /\ status r = status_of (qualityScore r).
Proof.
  intros Hlen. cbv zeta. unfold analyzePose.
  destruct (Nat.ltb_spec (List.length k) 51) as [Hbad|_]; [lia|].
  destruct (scan_fold k Hlen 17 (Nat.le_refl _)) as [Hs Hv].
  destruct (fold_left _ (seq 0 17) _) as [vis scores].
  cbn [fst snd] in Hs, Hv. subst scores.
  assert (Ev : List.length vis = List.length (visible_slots k)).
  { rewrite <- (length_map sk_index), Hv. reflexivity. }
  assert (Hv17 : (List.length (visible_slots k) <= 17)%nat).
  { unfold visible_slots. etransitivity; [apply filter_length_le|].
    now rewrite length_seq. }
  assert (Hh17 : (List.length (high_slots k) <= 17)%nat).
  { unfold high_slots. etransitivity; [apply filter_length_le|].
    now rewrite length_seq. }
  assert (Eh : List.length
                 (filter (fun s => (s > HIGH_CONFIDENCE)%js)
                    (map (score_of k) (seq 0 17)))
               = List.length (high_slots k)) by apply filter_map_length.
  rewrite Eh, Ev.
  rewrite ratio_8, ratio_6, ratio_7, ratio_4.
  set (st1 := if Nat.leb 14 _ then _ else _).
  set (st2 := if Nat.leb 12 _ then _ else _).
  set (st3 := checkBodyPart _ "shoulders" _ st2).
  set (st4 := checkBodyPart _ "hips" _ st3).
  set (st5 := checkBodyPart _ "knees" _ st4).
  set (st6 := checkBodyPart _ "ankles" _ st5).
  set (st7 := match userHeight with Some _ => _ | None => _ end).
  assert (E1 : fst st1
               = if Nat.leb 14 (List.length (visible_slots k)) then 40%Z
                 else if Nat.leb 11 (List.length (visible_slots k)) then 20%Z
                 else 0%Z).
  { unfold st1. now destruct (Nat.leb 14 _); [|destruct (Nat.leb 11 _)]. }
  assert (E2 : fst st2
               = (fst st1
                  + if Nat.leb 12 (List.length (high_slots k)) then 30
                    else if Nat.leb 7 (List.length (high_slots k)) then 20
                    else 0)%Z).
  { unfold st2. destruct (Nat.leb 12 _); [|destruct (Nat.leb 7 _)];
      cbn [fst]; lia. }
  assert (E3 : fst st3 = (fst st2 + if part_shown k [5; 6]%nat then 10 else 0)%Z)
    by (apply checkBodyPart_ideal; lia).
  assert (E4 : fst st4
               = (fst st3 + if part_shown k [11; 12]%nat then 10 else 0)%Z)
    by (apply checkBodyPart_ideal; lia).
  assert (E5 : fst st5
               = (fst st4 + if part_shown k [13; 14]%nat then 10 else 0)%Z)
    by (apply checkBodyPart_ideal; lia).
  assert (E6 : fst st6
               = (fst st5 + if part_shown k [15; 16]%nat then 10 else 0)%Z)
    by (apply checkBodyPart_ideal; lia).
  assert (E7 : fst st7 = (fst st6 + height_points userHeight)%Z).
  { unfold st7, height_points. destruct userHeight as [u|]; [|lia].
    destruct (_ && _); cbn [fst]; lia. }
  unfold status_of.
  destruct (fst st7 >=? 80)%Z eqn:E80; [|destruct (fst st7 >=? 60)%Z eqn:E60;
    [|destruct (fst st7 >=? 40)%Z eqn:E40]];
    cbn [qualityScore status visibleKeypoints];
    rewrite ?E80, ?E60, ?E40;
    (split; [lia|split; reflexivity]).
Qed.

End IdealQuality.

(** ** The further properties on concrete inputs *)

Section FurtherScenarios.
Import Ideal.
Local Open Scope R_scope.

Lemma live_track_persists_witness :
  exists track',
    In (0%Z, track')
      (getTracks
         (procesFrame (run newTrackingManager [([pose squareA], 0%Z)]) []
            500))
    /\ id track' = 0%Z
    /\ (track' = mkTrackedPerson 0 0 (pose squareA)
        \/ (lastSeen track' = 500%Z /\ In (keypoints track') [])).
Proof.
  apply (live_track_persists (num := ereal) [([pose squareA], 0%Z)] [] 500
           0%Z (mkTrackedPerson 0 0 (pose squareA))).
  - left. reflexivity.
  - reflexivity.
Defined.

Lemma single_detection_capacity_witness :
  (List.length
     (getTracks
        (run newTrackingManager [([pose squareA], 0%Z); ([], 40%Z)]))
   <= TRACKING_MAX_PERSONS)%nat.
Proof.
  apply (single_detection_capacity (num := ereal)
           [([pose squareA], 0%Z); ([], 40%Z)]).
  repeat constructor.
Defined.

Lemma identity_continuity_witness :
  getTracks
    (run newTrackingManager
       (sighting_frames
          [(pose squareA, 0%Z); (pose squareA, 33%Z); (pose squareA, 66%Z)]))
  = [(0%Z, mkTrackedPerson 0 66 (pose squareA))]
  /\ nextPersonId
       (run newTrackingManager
          (sighting_frames
             [(pose squareA, 0%Z); (pose squareA, 33%Z);
              (pose squareA, 66%Z)]))
     = 1%Z.
Proof.
  apply (identity_continuity (pose squareA) 0
           [(pose squareA, 33%Z); (pose squareA, 66%Z)]).
  assert (Hsim : (computeOKSSimilarityJS (pose squareA) (pose squareA)
                  > TRACKING_MIN_SIMILARITY)%js = true).
  { apply similarityJS_self_tracked.
    destruct count_above_squares as [E _]. rewrite E. apply Nat.le_refl. }
  cbn [followed fst snd].
  repeat split; try exact Hsim; reflexivity.
Defined.

Lemma similarity_floor_witness :
  computeOKSSimilarity (pose [(0, 0, 1); (1, 0, 1); (0, 1, 1)])
    (pose [(0, 0, 1); (1, 0, 1); (0, 1, 1)]) = lit (0 # 1)
  /\ computeOKSSimilarityJS (pose [(0, 0, 1); (1, 0, 1); (0, 1, 1)])
       (pose [(0, 0, 1); (1, 0, 1); (0, 1, 1)]) = lit (0 # 1).
Proof.
  apply (similarity_floor (pose [(0, 0, 1); (1, 0, 1); (0, 1, 1)])
           (pose [(0, 0, 1); (1, 0, 1); (0, 1, 1)])).
  eapply Nat.le_lt_trans; [apply valid_pairs_le|].
  cbn [pose map List.length Nat.min]. unfold OKS_MIN_KEYPOINTS. lia.
Defined.

Lemma similarity_symmetric_on_equal_areas_witness :
  computeOKSSimilarityJS (pose squareA) (pose (translate 1 1 squareA))
  = computeOKSSimilarityJS (pose (translate 1 1 squareA)) (pose squareA).
Proof.
  apply (proj2 (similarity_symmetric_on_equal_areas squareA
                  (translate 1 1 squareA))).
  symmetry. apply computeKeypointAreaJS_translate.
Defined.

Lemma half_buffer_length : (51 <= List.length (repeat (1 / 2) 51))%nat.
Proof. rewrite repeat_length. apply Nat.le_refl. Qed.

Lemma smoothKeypoints_state_witness :
  let r :=
    smoothKeypoints (Some (map EFin (repeat (1 / 2) 51))) (fun _ => None)
      (JSNum (EFin 640)) (JSNum (EFin 480)) in
  (forall i, (i < 17)%nat ->
     exists new,
       snd r i = Some new
       /\ (at_index (fst r) (i * 3), at_index (fst r) (i * 3 + 1),
           at_index (fst r) (i * 3 + 2))
          = (Math_fround (slot_y new / EFin 480)%js,
             Math_fround (slot_x new / EFin 640)%js,
             Math_fround (slot_score new)))
  /\ (forall i, (17 <= i)%nat -> snd r i = None)
  /\ (forall j,
        (51 <= j)%nat
        /\ Nat.lt j (List.length (map EFin (repeat (1 / 2) 51))) ->
        at_index (fst r) j = lit (0 # 1)).
Proof.
  apply (smoothKeypoints_state (map EFin (repeat (1 / 2) 51))
           (fun _ => None) (EFin 640) (EFin 480)).
  - rewrite length_map. exact half_buffer_length.
  - apply positive_dimension. lra.
  - apply positive_dimension. lra.
Defined.

Lemma smoothKeypoints_first_call_witness :
  let r :=
    smoothKeypoints (Some (map EFin (repeat (1 / 2) 51))) (fun _ => None)
      (JSNum (EFin 640)) (JSNum (EFin 480)) in
  fst r
  = map EFin (firstn 51 (repeat (1 / 2) 51))
      ++ zeros (List.length (repeat (1 / 2) 51) - 51)
  /\ (forall i,
        snd r i
        = if Nat.ltb i 17 then
            Some (raw_slot (repeat (1 / 2) 51) 640 480 i)
          else None).
Proof.
  apply (smoothKeypoints_first_call (repeat (1 / 2) 51) 640 480).
  - exact half_buffer_length.
  - lra.
  - lra.
Defined.

Lemma smoothKeypoints_static_witness :
  let buffer := Some (map EFin (repeat (1 / 2) 51)) in
  let r1 :=
    smoothKeypoints buffer (fun _ => None) (JSNum (EFin 640))
      (JSNum (EFin 480)) in
  let r2 :=
    smoothKeypoints buffer (snd r1) (JSNum (EFin 640)) (JSNum (EFin 480)) in
  fst r2 = fst r1 /\ forall i, snd r2 i = snd r1 i.
Proof.
  apply (smoothKeypoints_static (repeat (1 / 2) 51) 640 480).
  - exact half_buffer_length.
  - lra.
  - lra.
Defined.


Lemma analyzeLiftForm_body_not_shown_witness :
  analyzeLiftForm (num := ereal) [] (LiftString "Squat") (EFin 640)
    (EFin 480) None None
  = mkLiftAnalysis [Msg "Position yourself to show full body"] 70 "Squat".
Proof.
  apply (proj1 (analyzeLiftForm_body_not_shown (num := ereal) [] "Squat"
                  (EFin 640) (EFin 480) None None)); reflexivity.
Defined.

Lemma sqrt_ge_1 (x : R) : 1 <= x -> 1 <= sqrt x.
Proof.
  intros Hx. rewrite <- sqrt_1 at 1. apply sqrt_le_1; lra.
Qed.

Lemma calculateAngle_range_witness :
  exists r,
    calculateAngle (kp 10 0 1) (kp 0 0 1) (kp 0 10 1) = Some (EFin r)
    /\ 0 <= r <= 180.
Proof.
  apply (proj2 (calculateAngle_range 10 0 1 0 0 1 0 10 1));
    apply sqrt_ge_1; lra.
Defined.


Lemma calculateBoundingBox_tight_witness :
  exists x0 x1 y0 y1,
    calculateBoundingBox (arrays [(0, 0, 1); (1, 2, 1)]) (EFin (2 / 10))
    = mkBoundingBox (EFin x0) (EFin x1) (EFin y0) (EFin y1) (EFin (x1 - x0))
        (EFin (y1 - y0))
    /\ tight_box (2 / 10) [(0, 0, 1); (1, 2, 1)] x0 x1 y0 y1.
Proof.
  apply (proj2 (calculateBoundingBox_tight [(0, 0, 1); (1, 2, 1)] (2 / 10))).
  exists (0, 0, 1). split; [now left|cbn; lra].
Defined.

Lemma half_body_length : (13 <= List.length (repeat (1 / 2, 1 / 2, 1 / 2) 17))%nat.
Proof. rewrite repeat_length. lia. Qed.

Lemma getTorsoBBox_torso_witness :
  getTorsoBBox (arrays (repeat (1 / 2, 1 / 2, 1 / 2) 17))
  = Returned
      (Some
         (fin_box (Rmin4 (1 / 2) (1 / 2) (1 / 2) (1 / 2))
            (Rmax4 (1 / 2) (1 / 2) (1 / 2) (1 / 2))
            (Rmin4 (1 / 2) (1 / 2) (1 / 2) (1 / 2))
            (Rmax4 (1 / 2) (1 / 2) (1 / 2) (1 / 2)))).
Proof.
  apply (proj2 (getTorsoBBox_torso (repeat (1 / 2, 1 / 2, 1 / 2) 17)
                  half_body_length)); cbn; lra.
Defined.

Lemma determineCropRegion_in_frame_witness :
  exists cx cy cs,
    determineCropRegion (arrays (repeat (1 / 2, 1 / 2, 1 / 2) 17)) (EFin 640)
      (EFin 480)
    = Returned (mkCropRegion (EFin cx) (EFin cy) (EFin cs))
    /\ 0 <= cx <= 1 /\ 0 <= cy <= 1 /\ 0 <= cs <= Rmax 640 480.
Proof.
  apply (determineCropRegion_in_frame (repeat (1 / 2, 1 / 2, 1 / 2) 17) 640
           480).
  - exact half_body_length.
  - intros p Hp. apply repeat_spec in Hp. subst p. cbn. lra.
  - lra.
  - lra.
Defined.



Lemma half_buffer_nth (j : nat) :
  (j < 51)%nat -> nth j (repeat (1 / 2) 51) 0 = 1 / 2.
Proof. intros Hj. now apply nth_repeat_lt. Qed.

Lemma skeleton_of_body_witness :
  exists sd,
    skeletonDataToSet (map EFin (repeat (1 / 2) 51)) "portrait" (EFin 640)
      (EFin 480) (EFin 390) (EFin 844) "back" = Some sd
    /\ sd_orientation sd = "portrait"%string
    /\ map sk_index (sd_keypoints sd)
       = filter (confident (repeat (1 / 2) 51)) (seq 0 17)
    /\ Forall
         (fun kp =>
            exists x y,
              sk_x kp = EFin x /\ sk_y kp = EFin y
              /\ 0 <= x <= 390 /\ 0 <= y <= 844
              /\ sk_score kp
                 = EFin (nth (sk_index kp * 3 + 2) (repeat (1 / 2) 51) 0)
              /\ 3 / 10 <= nth (sk_index kp * 3 + 2) (repeat (1 / 2) 51) 0)
         (sd_keypoints sd)
    /\ List.length (sd_connections sd)
       = List.length
           (filter
              (fun b =>
                 confident (repeat (1 / 2) 51) (fst b)
                 && confident (repeat (1 / 2) 51) (snd b))
              SKELETON_CONNECTIONS).
Proof.
  apply (skeleton_of_body (repeat (1 / 2) 51) 640 480 390 844 "portrait"
           "back").
  - exact half_buffer_length.
  - intros i Hi. rewrite !half_buffer_nth by lia. lra.
  - lra.
  - lra.
  - lra.
  - lra.
  - exists 0%nat. split; [lia|]. unfold confident.
    rewrite half_buffer_nth by lia.
    rewrite (proj2 (Rltb_false _ _)); [reflexivity|lra].
Defined.


Lemma analyzePose_score_witness :
  let k := repeat ENaN 51 in
  let r := analyzePose (Some k) None None in
  let v := List.length (visible_slots k) in
  let h := List.length (high_slots k) in
  qualityScore r
  = ((if Nat.leb 14 v then 40 else if Nat.leb 11 v then 20 else 0)
     + (if Nat.leb 12 h then 30 else if Nat.leb 7 h then 20 else 0)
     + (if part_shown k [5; 6]%nat then 10 else 0)
     + (if part_shown k [11; 12]%nat then 10 else 0)
     + (if part_shown k [13; 14]%nat then 10 else 0)
     + (if part_shown k [15; 16]%nat then 10 else 0)
     + height_points None)%Z
  /\ visibleKeypoints r = v
  /\ status r = status_of (qualityScore r).
Proof.
  apply (analyzePose_score (repeat ENaN 51) None None).
  rewrite repeat_length. apply Nat.le_refl.
Defined.

End FurtherScenarios.
